(** * The WAV reader of hyperwhisper: [read_wav] in audio_converter.cpp

    [read_wav] opens a RIFF/WAVE file, reads the canonical 44-byte header,
    checks the two magic tags, converts 16-bit or 32-bit PCM samples to
    [float] and averages stereo pairs.  This development embeds it as a
    state-passing program over the part of the process it touches (the
    files on disk, the table of open streams, the log, and the two
    reference parameters of the caller) and proves what the call leaves
    behind on each of its exits.

    Modelling choices:
    - the host is little-endian and [WavHeader] has no padding, so the
      [fread] into the struct is a field-wise little-endian decoding of
      44 bytes;
    - [float] is IEEE 754 binary32 with round-to-nearest-even, taken from
      the parameterized specification of the Standard Library
      ([SpecFloat], precision 24, [emax] 128);
    - a file is a finite byte sequence and reading it never fails midway;
    - [read_wav] is the function in a process in which every allocation
      succeeds; [Heap.read_wav] is the function with the allocator, and so
      with the exits by an exception at lines 63, 67, 79 and 99;
    - an integer division by zero is undefined behaviour and ends the
      execution of the model with [Undefined].

    The binding layer, whisper_jni.cpp, is embedded on top of it: the four
    native methods as programs over the global context pointer, the
    contexts that are live, the strings obtained from the JVM and not yet
    released, and the process [read_wav] works on, in which every
    allocation succeeds.  The functions of
    whisper.cpp are an interface ([Whisper]); the native methods are called
    from one thread at a time. *)

From Stdlib Require Import String Ascii.
From Stdlib Require Import Strings.Byte.
From Stdlib Require Import ZArith List Lia Bool QArith Qpower.
From Stdlib Require Import Floats.SpecFloat.
Import ListNotations.
Local Open Scope Z_scope.

(** * binary32 arithmetic *)
Module F32.

Definition prec : Z := 24.
Definition emax : Z := 128.
Definition f32 := spec_float.

(** [static_cast<float>(n)] for an integer [n]: the nearest binary32. *)
Definition of_int (z : Z) : f32 := binary_normalize prec emax z 0 false.

(** [a + b] and [a / b] on [float]. *)
Definition add (a b : f32) : f32 := SFadd prec emax a b.
Definition div (a b : f32) : f32 := SFdiv prec emax a b.

(** The literal [2^k] as a binary32: [pow2 15] is [32768.0f], [pow2 31] is
    [2147483648.0f], [pow2 1] is [2.0f]. *)
Definition pow2 (k : Z) : f32 := S754_finite false 8388608 (k - 23).
Definition zero : f32 := S754_zero false.
Definition one : f32 := pow2 0.

(** [-1.0 <= f <= 1.0], with the comparison of IEEE 754. *)
Definition in_unit (f : f32) : bool := SFleb (SFopp one) f && SFleb f one.

(** [f] is a zero or a canonical finite number of magnitude at most [2^K]. *)
Definition abs_le_pow2 (K : Z) (f : f32) : bool :=
  match f with
  | S754_zero _ => true
  | S754_finite _ m e => bounded prec emax m e && (e <=? K) && (Zpos m <=? 2 ^ (K - e))
  | _ => false
  end.

(** The binary32 nearest to [z * 2^k], and the rational value of a float. *)
Definition dyadic (z k : Z) : f32 := binary_normalize prec emax z k false.
Definition to_Q (f : f32) : Q :=
  match f with
  | S754_finite s m e => ((if s then -1 else 1) * inject_Z (Zpos m) * 2 ^ e)%Q
  | _ => 0%Q
  end.

End F32.
Abbreviation f32 := F32.f32.

(** * Bytes and little-endian fields *)
Definition byte_val (b : byte) : Z := Z.of_N (Byte.to_N b).

Fixpoint le_unsigned (bs : list byte) : Z :=
  match bs with
  | [] => 0
  | b :: rest => byte_val b + 256 * le_unsigned rest
  end.

(** Two's complement reading of the same bytes ([int16_t], [int32_t]). *)
Definition le_signed (bs : list byte) : Z :=
  let u := le_unsigned bs in
  let w := 8 * Z.of_nat (length bs) in
  if u <? 2 ^ (w - 1) then u else u - 2 ^ w.

Definition slice (off len : nat) (bs : list byte) : list byte :=
  firstn len (skipn off bs).

(** [memcmp(a, b, n) == 0] for two arrays of [n] bytes. *)
Definition bytes_eqb (a b : list byte) : bool :=
  if list_eq_dec Byte.byte_eq_dec a b then true else false.

(** * struct WavHeader *)
Module WavHeader.
Record t := mk {
  riff : list byte;
  file_size : Z;
  wave : list byte;
  fmt : list byte;
  fmt_size : Z;
  audio_format : Z;
  num_channels : Z;
  sample_rate : Z;
  byte_rate : Z;
  block_align : Z;
  bits_per_sample : Z;
  data : list byte;
  data_size : Z
}.
Definition sizeof : nat := 44.

(** The struct as it reads back after [fread(&header, sizeof(WavHeader), 1, file)]. *)
Definition load (raw : list byte) : t :=
  {| riff := slice 0 4 raw;
     file_size := le_unsigned (slice 4 4 raw);
     wave := slice 8 4 raw;
     fmt := slice 12 4 raw;
     fmt_size := le_unsigned (slice 16 4 raw);
     audio_format := le_unsigned (slice 20 2 raw);
     num_channels := le_unsigned (slice 22 2 raw);
     sample_rate := le_unsigned (slice 24 4 raw);
     byte_rate := le_unsigned (slice 28 4 raw);
     block_align := le_unsigned (slice 32 2 raw);
     bits_per_sample := le_unsigned (slice 34 2 raw);
     data := slice 36 4 raw;
     data_size := le_unsigned (slice 40 4 raw) |}.
End WavHeader.

(** * Process state *)

(** The lines [read_wav] can write with LOGE and LOGI. *)
Inductive log_line : Type :=
| LOGE_open (filename : string)
| LOGE_header
| LOGE_format
| LOGE_pcm
| LOGE_bit_depth (bits : Z)
| LOGI_info (rate channels bits format : Z)
| LOGI_stereo
| LOGI_loaded (n : nat).

(** An open stream: the bytes of the file and the read position. *)
Record FILE := mkFILE { contents : list byte; position : nat }.

(** [pcm_data] and [sample_rate] are the caller's variables that
    [read_wav] receives by reference; [logcat] has the newest line first. *)

Record state := mkState {
  disk : string -> option (list byte);
  open_files : list (nat * FILE);
  logcat : list log_line;
  pcm_data : list f32;
  sample_rate : Z
}.

Inductive fault := DivisionByZero | InvalidStream.

(** A call either returns a value in a new state or runs into undefined
    behaviour. *)

Inductive outcome (A : Type) : Type :=
| Returns (a : A) (s : state)
| Undefined (f : fault).
Arguments Returns {A} a s.
Arguments Undefined {A} f.

Definition M (A : Type) : Type := state -> outcome A.
Definition ret {A} (a : A) : M A := fun s => Returns a s.
Definition bind {A B} (c : M A) (k : A -> M B) : M B :=
  fun s => match c s with
           | Returns a s' => k a s'
           | Undefined f => Undefined f
           end.
Notation "x <- c ;; k" := (bind c (fun x => k))
  (at level 61, c at next level, right associativity).
Notation "c ;; k" := (bind c (fun _ => k))
  (at level 61, right associativity).

Definition modify (f : state -> state) : M unit := fun s => Returns tt (f s).

Definition set_open_files (t : list (nat * FILE)) (s : state) : state :=
  mkState (disk s) t (logcat s) (pcm_data s) (sample_rate s).
Definition set_pcm_data (v : list f32) (s : state) : state :=
  mkState (disk s) (open_files s) (logcat s) v (sample_rate s).
Definition set_sample_rate (r : Z) (s : state) : state :=
  mkState (disk s) (open_files s) (logcat s) (pcm_data s) r.
Definition push_log (l : log_line) (s : state) : state :=
  mkState (disk s) (open_files s) (l :: logcat s) (pcm_data s) (sample_rate s).

Definition LOG (l : log_line) : M unit := modify (push_log l).

(** ** stdio *)

(** [fopen(filename, "rb")] yields NULL ([None]) when the file does not
    exist, else a stream that is not in the table yet.  [fread] transfers
    whole items only and reports how many it transferred. *)
Definition fresh_fd (t : list (nat * FILE)) : nat :=
  S (fold_right Nat.max 0%nat (map fst t)).

Fixpoint lookup_fd (fd : nat) (t : list (nat * FILE)) : option FILE :=
  match t with
  | [] => None
  | (k, f) :: rest => if Nat.eqb k fd then Some f else lookup_fd fd rest
  end.

Definition remove_fd (fd : nat) (t : list (nat * FILE)) : list (nat * FILE) :=
  filter (fun e => negb (Nat.eqb (fst e) fd)) t.

Definition fopen (filename : string) : M (option nat) := fun s =>
  match disk s filename with
  | None => Returns None s
  | Some bytes =>
      let fd := fresh_fd (open_files s) in
      Returns (Some fd) (set_open_files ((fd, mkFILE bytes 0) :: open_files s) s)
  end.

Definition fclose (fd : nat) : M unit :=
  modify (fun s => set_open_files (remove_fd fd (open_files s)) s).

Definition fread (size count : nat) (fd : nat) : M (nat * list byte) := fun s =>
  match lookup_fd fd (open_files s) with
  | None => Undefined InvalidStream
  | Some f =>
      let avail := (length (contents f) - position f)%nat in
      let items := if Nat.eqb size 0 then 0%nat else Nat.min count (avail / size) in
      let got := slice (position f) (items * size) (contents f) in
      let f' := mkFILE (contents f) (position f + Nat.min (count * size) avail) in
      Returns (items, got) (set_open_files ((fd, f') :: remove_fd fd (open_files s)) s)
  end.

(** ** std::vector<float> *)

(** [resize] keeps the old prefix and value-initializes new elements;
    [vec_set i x v] is [v[i] = x] and [vec_get i v] is [v[i]], both used
    within bounds only. *)
Definition vec_resize (n : nat) (v : list f32) : list f32 :=
  firstn n v ++ repeat F32.zero (n - length v).

Fixpoint vec_set (i : nat) (x : f32) (v : list f32) : list f32 :=
  match v, i with
  | [], _ => []
  | _ :: rest, O => x :: rest
  | y :: rest, S j => y :: vec_set j x rest
  end.

Definition vec_get (i : nat) (v : list f32) : f32 := nth i v F32.zero.

(** [for (size_t i = i0; i < i0 + count; i++) body]. *)
Fixpoint for_loop {S : Type} (i count : nat) (body : nat -> S -> S) (s : S) : S :=
  match count with
  | O => s
  | Datatypes.S c => for_loop (Datatypes.S i) c body (body i s)
  end.

(** ** integer conversions *)

(** The conversion of a [uint32_t] to [int] in [sample_rate = header.sample_rate]. *)
Definition to_int (u : Z) : Z :=
  let w := u mod 2 ^ 32 in if w <? 2 ^ 31 then w else w - 2 ^ 32.

(** Unsigned division; dividing by zero is undefined. *)
Definition udiv (a b : Z) : M Z := fun s =>
  if b =? 0 then Undefined DivisionByZero else Returns (a / b) s.

(** The [std::vector<int16_t>] or [std::vector<int32_t>] filled by [fread]. *)
Fixpoint int_samples (width count : nat) (raw : list byte) : list Z :=
  match count with
  | O => []
  | S c => le_signed (firstn width raw) :: int_samples width c (skipn width raw)
  end.

(** [static_cast<float>(x) / 32768.0f], [static_cast<float>(x) / 2147483648.0f]
    and [(a + b) / 2.0f]. *)
Definition norm16 (x : Z) : f32 := F32.div (F32.of_int x) (F32.pow2 15).
Definition norm32 (x : Z) : f32 := F32.div (F32.of_int x) (F32.pow2 31).
Definition mean (a b : f32) : f32 := F32.div (F32.add a b) (F32.pow2 1).

Definition RIFF : list byte := list_byte_of_string "RIFF".
Definition WAVE : list byte := list_byte_of_string "WAVE".

(** * read_wav *)

(** The conversion loop of lines 75-77 and 87-89. *)
Definition convert (norm : Z -> f32) (samples : list Z) (num_samples : nat) : M unit :=
  modify (fun s =>
    set_pcm_data
      (for_loop 0 num_samples
         (fun i pcm => vec_set i (norm (nth i samples 0)) pcm) (pcm_data s)) s).

(** The body of [if (header.num_channels == 2)], lines 98-103. *)
Definition downmix (num_samples : nat) : M unit :=
  modify (fun s =>
    let pcm := pcm_data s in
    let mono_data := repeat F32.zero (num_samples / 2) in
    set_pcm_data
      (for_loop 0 (length mono_data)
         (fun i mono => vec_set i (mean (vec_get (i * 2) pcm) (vec_get (i * 2 + 1) pcm)) mono)
         mono_data) s).

(** Lines 96-108, reached from both sample-reading branches. *)
Definition finish (file : nat) (header : WavHeader.t) (num_samples : nat) : M bool :=
  (if WavHeader.num_channels header =? 2
   then LOG LOGI_stereo ;; downmix num_samples
   else ret tt) ;;
  fclose file ;;
  n <- (fun s => Returns (length (pcm_data s)) s) ;;
  LOG (LOGI_loaded n) ;;
  ret true.

(** Lines 32-109.  Every [return false] of the source is a leaf [ret false]
    here; the code after the bit-depth dispatch is [finish]. *)
Definition read_wav (filename : string) : M bool :=
  file <- fopen filename ;;
  match file with
  | None =>
      LOG (LOGE_open filename) ;; ret false
  | Some file =>
      r <- fread WavHeader.sizeof 1 file ;;
      if negb (Nat.eqb (fst r) 1) then
        LOG LOGE_header ;; fclose file ;; ret false
      else
        let header := WavHeader.load (snd r) in
        if negb (bytes_eqb (WavHeader.riff header) RIFF)
           || negb (bytes_eqb (WavHeader.wave header) WAVE) then
          LOG LOGE_format ;; fclose file ;; ret false
        else
          LOG (LOGI_info (WavHeader.sample_rate header) (WavHeader.num_channels header)
                 (WavHeader.bits_per_sample header) (WavHeader.audio_format header)) ;;
          modify (set_sample_rate (to_int (WavHeader.sample_rate header))) ;;
          q <- udiv (WavHeader.data_size header) (WavHeader.bits_per_sample header / 8) ;;
          let num_samples := Z.to_nat q in
          modify (fun s => set_pcm_data (vec_resize num_samples (pcm_data s)) s) ;;
          if WavHeader.bits_per_sample header =? 16 then
            r <- fread 2 num_samples file ;;
            if negb (Nat.eqb (fst r) num_samples) then
              LOG LOGE_pcm ;; fclose file ;; ret false
            else
              convert norm16 (int_samples 2 num_samples (snd r)) num_samples ;;
              finish file header num_samples
          else if WavHeader.bits_per_sample header =? 32 then
            r <- fread 4 num_samples file ;;
            if negb (Nat.eqb (fst r) num_samples) then
              LOG LOGE_pcm ;; fclose file ;; ret false
            else
              convert norm32 (int_samples 4 num_samples (snd r)) num_samples ;;
              finish file header num_samples
          else
            LOG (LOGE_bit_depth (WavHeader.bits_per_sample header)) ;;
            fclose file ;; ret false
  end.

(** * Example files *)
Definition byte_of_Z (z : Z) : byte :=
  match Byte.of_N (Z.to_N (z mod 256)) with Some b => b | None => x00 end.
Fixpoint le_bytes (n : nat) (z : Z) : list byte :=
  match n with O => [] | S k => byte_of_Z z :: le_bytes k (z / 256) end.
Definition wav_header (channels rate bits size : Z) : list byte :=
  RIFF ++ le_bytes 4 (36 + size) ++ WAVE ++ list_byte_of_string "fmt " ++
  le_bytes 4 16 ++ le_bytes 2 1 ++ le_bytes 2 channels ++ le_bytes 4 rate ++
  le_bytes 4 (rate * channels * (bits / 8)) ++ le_bytes 2 (channels * (bits / 8)) ++
  le_bytes 2 bits ++ list_byte_of_string "data" ++ le_bytes 4 size.
Definition pcm16 (xs : list Z) : list byte := flat_map (le_bytes 2) xs.
Definition pcm32 (xs : list Z) : list byte := flat_map (le_bytes 4) xs.
(** A process in which every path names the given file (or no file), no
    stream is open, and the caller's variables are as the JNI caller
    initializes them: an empty vector and rate 0. *)
Definition boot (bytes : option (list byte)) : state :=
  mkState (fun _ => bytes) [] [] [] 0.

(** Stereo, 16 bit, 16000 Hz, samples L0 = 16384, R0 = -16384, L1 = R1 = 8192. *)
Definition stereo_example : list byte :=
  wav_header 2 16000 16 8 ++ pcm16 [16384; -16384; 8192; 8192].

Definition stereo_decoded : state :=
  mkState (fun _ => Some stereo_example) []
    [LOGI_loaded 2; LOGI_stereo; LOGI_info 16000 2 16 1]
    [F32.zero; F32.pow2 (-2)] 16000.

(** Mono, 32 bit, a single sample at the integer maximum. *)
Definition full_scale_example : list byte :=
  wav_header 1 16000 32 4 ++ pcm32 [2147483647].

Definition full_scale_decoded : state :=
  mkState (fun _ => Some full_scale_example) []
    [LOGI_loaded 1; LOGI_info 16000 1 32 1] [F32.one] 16000.

(** Mono, 16 bit, header announcing two samples, payload missing. *)
Definition cut_example : list byte := wav_header 1 16000 16 4.

(** Headers announcing 8 and 0 bits per sample. *)
Definition depth8_example : list byte := wav_header 1 16000 8 4 ++ pcm16 [16384; -16384].
Definition depth0_example : list byte := wav_header 1 16000 0 4 ++ pcm16 [16384; -16384].

(** Sample-rate field 0x80000000, empty payload. *)
Definition high_rate_example : list byte := wav_header 1 2147483648 16 0.

(** Empty payload, stereo. *)
Definition empty_example : list byte := wav_header 2 16000 32 0.

(** A header one byte short, and a header whose first tag is "RIFX". *)
Definition short_example : list byte := firstn 43 (wav_header 1 16000 16 0).
Definition rifx_example : list byte :=
  list_byte_of_string "RIFX" ++ skipn 4 (wav_header 1 16000 16 0).


(** * The outcomes of [read_wav] in closed form *)

(** The two sample-reading branches of [read_wav] have one shape; this is
    that shape, with the sample width and the normalization as parameters. *)
Definition read_pcm (file : nat) (header : WavHeader.t) (width : nat)
    (norm : Z -> f32) (num_samples : nat) : M bool :=
  r <- fread width num_samples file ;;
  if negb (Nat.eqb (fst r) num_samples) then
    LOG LOGE_pcm ;; fclose file ;; ret false
  else
    convert norm (int_samples width num_samples (snd r)) num_samples ;;
    finish file header num_samples.


Definition tags_ok (header : WavHeader.t) : bool :=
  bytes_eqb (WavHeader.riff header) RIFF && bytes_eqb (WavHeader.wave header) WAVE.

Definition downmixed (pcm : list f32) (num_samples : nat) : list f32 :=
  map (fun i => mean (vec_get (i * 2) pcm) (vec_get (i * 2 + 1) pcm))
      (seq 0 (num_samples / 2)).

Definition pcm_cases (header : WavHeader.t) (payload : list byte) (width : nat)
    (norm : Z -> f32) (num_samples : nat) (s : state) : outcome bool :=
  if (length payload / width <? num_samples)%nat then
    Returns false (push_log LOGE_pcm s)
  else
    let normalized := map norm (int_samples width num_samples payload) in
    if WavHeader.num_channels header =? 2 then
      Returns true
        (push_log (LOGI_loaded (num_samples / 2))
           (set_pcm_data (downmixed normalized num_samples) (push_log LOGI_stereo s)))
    else
      Returns true
        (push_log (LOGI_loaded num_samples) (set_pcm_data normalized s)).

Definition header_of (bytes : list byte) : WavHeader.t :=
  WavHeader.load (firstn 44 bytes).

Definition sample_count (header : WavHeader.t) : nat :=
  Z.to_nat (WavHeader.data_size header / (WavHeader.bits_per_sample header / 8)).

Definition with_rate (header : WavHeader.t) (s : state) : state :=
  set_sample_rate (to_int (WavHeader.sample_rate header))
    (push_log (LOGI_info (WavHeader.sample_rate header) (WavHeader.num_channels header)
                 (WavHeader.bits_per_sample header) (WavHeader.audio_format header)) s).

Definition with_buffer (header : WavHeader.t) (s : state) : state :=
  set_pcm_data (vec_resize (sample_count header) (pcm_data s)) (with_rate header s).

Definition read_wav_cases (filename : string) (s : state) : outcome bool :=
  match disk s filename with
  | None => Returns false (push_log (LOGE_open filename) s)
  | Some bytes =>
    let header := header_of bytes in
    let payload := skipn 44 bytes in
    if (length bytes <? 44)%nat then Returns false (push_log LOGE_header s)
    else if negb (tags_ok header) then Returns false (push_log LOGE_format s)
    else if WavHeader.bits_per_sample header / 8 =? 0 then Undefined DivisionByZero
    else if WavHeader.bits_per_sample header =? 16 then
      pcm_cases header payload 2 norm16 (sample_count header) (with_buffer header s)
    else if WavHeader.bits_per_sample header =? 32 then
      pcm_cases header payload 4 norm32 (sample_count header) (with_buffer header s)
    else
      Returns false
        (push_log (LOGE_bit_depth (WavHeader.bits_per_sample header)) (with_buffer header s))
  end.

(** * Failure kinds and observations *)

(** The source reports every failure as [false]; the LOGE line written
    just before tells the failure exits apart. *)
Inductive DecodeError : Type :=
| OpenError
| TruncatedHeaderError
| InvalidFormatError
| UnsupportedBitDepthError (bits : Z)
| TruncatedPayloadError.

Definition error_of_log (l : log_line) : option DecodeError :=
  match l with
  | LOGE_open _ => Some OpenError
  | LOGE_header => Some TruncatedHeaderError
  | LOGE_format => Some InvalidFormatError
  | LOGE_pcm => Some TruncatedPayloadError
  | LOGE_bit_depth bits => Some (UnsupportedBitDepthError bits)
  | _ => None
  end.

Definition failure (o : outcome bool) : option DecodeError :=
  match o with
  | Returns false s =>
      match logcat s with
      | l :: _ => error_of_log l
      | [] => None
      end
  | _ => None
  end.

Definition result_of (o : outcome bool) : option (bool * Z * list f32) :=
  match o with
  | Returns b s => Some (b, sample_rate s, pcm_data s)
  | Undefined _ => None
  end.

(** What a caller can observe of a call: the return value, both
    out-parameters, the failure kind and the table of open streams. *)
Definition observable (o : outcome bool)
  : option (bool * list f32 * Z * list (nat * FILE)) * option DecodeError :=
  (match o with
   | Returns b s => Some (b, pcm_data s, sample_rate s, open_files s)
   | Undefined _ => None
   end, failure o).

Definition normalized (header : WavHeader.t) (payload : list byte) : list f32 :=
  if WavHeader.bits_per_sample header =? 16
  then map norm16 (int_samples 2 (sample_count header) payload)
  else map norm32 (int_samples 4 (sample_count header) payload).


(** * Further notions on [read_wav] *)

(** What the success exit leaves, from what the file holds. *)
Definition decoded (header : WavHeader.t) (payload : list byte) : list f32 :=
  if WavHeader.num_channels header =? 2
  then downmixed (normalized header payload) (sample_count header)
  else normalized header payload.

(** A log line written with LOGE. *)
Definition is_error (l : log_line) : bool :=
  match error_of_log l with Some _ => true | None => false end.

(** Three channels, 16 bit, one frame; and stereo with an odd sample count. *)
Definition three_channel_example : list byte :=
  wav_header 3 16000 16 6 ++ pcm16 [16384; -16384; 8192].
Definition odd_stereo_example (last : Z) : list byte :=
  wav_header 2 16000 16 6 ++ pcm16 [16384; -16384; last].

(** The interleaved sequence with left and right exchanged in every
    complete pair. *)
Fixpoint swap_pairs (pcm : list f32) : list f32 :=
  match pcm with
  | l :: r :: rest => r :: l :: swap_pairs rest
  | _ => pcm
  end.

(** * The binding layer: whisper_jni.cpp *)

(** The functions of whisper.cpp that the binding calls.  They are not
    part of this repository; everything below holds for every
    implementation of them.  [whisper_defaults] stands for the fields of
    [whisper_full_params] that the binding leaves as
    [whisper_full_default_params] returns them; the other fields of
    [whisper_full_params] are the ones [nativeTranscribe] assigns. *)
Record whisper_full_params (D : Type) : Type := mkParams {
  defaults : D;
  print_progress : bool;
  print_special : bool;
  print_realtime : bool;
  print_timestamps : bool;
  translate : bool;
  n_threads : Z;
  offset_ms : Z;
  no_context : bool;
  single_segment : bool;
  language : string
}.
Arguments mkParams {D}.
Arguments defaults {D}.
Arguments print_progress {D}.
Arguments print_special {D}.
Arguments print_realtime {D}.
Arguments print_timestamps {D}.
Arguments translate {D}.
Arguments n_threads {D}.
Arguments offset_ms {D}.
Arguments no_context {D}.
Arguments single_segment {D}.
Arguments language {D}.

Class Whisper : Type := {
  whisper_context : Type;
  whisper_defaults : Type;
  whisper_init_from_file : (string -> option (list byte)) -> string -> option whisper_context;
  whisper_full_default_params : whisper_defaults;
  whisper_full : whisper_context -> whisper_full_params whisper_defaults
                 -> list f32 -> Z * whisper_context;
  whisper_full_n_segments : whisper_context -> Z;
  whisper_full_get_segment_text : whisper_context -> Z -> string
}.

(** The lines whisper_jni.cpp can write with LOGI and LOGE. *)
Inductive jni_line : Type :=
| JNI_loading (path : string)
| JNI_load_failed
| JNI_model_loaded
| JNI_not_loaded
| JNI_transcribing (audio_path lang : string) (translate : bool)
| JNI_read_failed
| JNI_audio_loaded (samples : nat) (rate : Z)
| JNI_starting
| JNI_failed (code : Z)
| JNI_complete (n_segments : Z)
| JNI_final (chars : nat)
| JNI_unloading.

Inductive jni_fault : Type :=
| InReadWav (f : fault)
| DanglingContext.

Section Binding.
Context {W : Whisper}.

(** The process as the binding sees it: the state [read_wav] works on,
    the global [g_context] (NULL is [None]), the contexts that have been
    created and not freed, the number of strings obtained with
    GetStringUTFChars and not released, and the log under the binding's tag. *)
Record jni_state : Type := mkJni {
  process : state;
  g_context : option nat;
  contexts : list (nat * whisper_context);
  pinned : nat;
  jni_log : list jni_line
}.

Inductive jni_outcome (A : Type) : Type :=
| JReturns (a : A) (st : jni_state)
| JUndefined (f : jni_fault).
Arguments JReturns {A} a st.
Arguments JUndefined {A} f.

Definition JM (A : Type) : Type := jni_state -> jni_outcome A.
Definition jret {A} (a : A) : JM A := fun st => JReturns a st.
Definition jbind {A B} (c : JM A) (k : A -> JM B) : JM B :=
  fun st => match c st with
            | JReturns a st' => k a st'
            | JUndefined f => JUndefined f
            end.

Definition set_process (p : state) (st : jni_state) : jni_state :=
  mkJni p (g_context st) (contexts st) (pinned st) (jni_log st).
Definition set_g_context (g : option nat) (st : jni_state) : jni_state :=
  mkJni (process st) g (contexts st) (pinned st) (jni_log st).
Definition set_contexts (t : list (nat * whisper_context)) (st : jni_state) : jni_state :=
  mkJni (process st) (g_context st) t (pinned st) (jni_log st).
Definition set_pinned (n : nat) (st : jni_state) : jni_state :=
  mkJni (process st) (g_context st) (contexts st) n (jni_log st).
Definition push_jni_log (l : jni_line) (st : jni_state) : jni_state :=
  mkJni (process st) (g_context st) (contexts st) (pinned st) (l :: jni_log st).

Definition jmodify (f : jni_state -> jni_state) : JM unit := fun st => JReturns tt (f st).
Definition JLOG (l : jni_line) : JM unit := jmodify (push_jni_log l).
Definition read_g_context : JM (option nat) := fun st => JReturns (g_context st) st.
Definition write_g_context (g : option nat) : JM unit := jmodify (set_g_context g).

(** ** JNIEnv *)
Definition GetStringUTFChars (js : string) : JM string :=
  fun st => JReturns js (set_pinned (S (pinned st)) st).
Definition ReleaseStringUTFChars : JM unit :=
  jmodify (fun st => set_pinned (Nat.pred (pinned st)) st).
Definition NewStringUTF (chars : string) : JM string := jret chars.

(** ** whisper contexts on the heap *)
Definition fresh_ctx (t : list (nat * whisper_context)) : nat :=
  S (fold_right Nat.max 0%nat (map fst t)).

Fixpoint lookup_ctx (p : nat) (t : list (nat * whisper_context)) : option whisper_context :=
  match t with
  | [] => None
  | (k, c) :: rest => if Nat.eqb k p then Some c else lookup_ctx p rest
  end.

Definition remove_ctx (p : nat) (t : list (nat * whisper_context))
  : list (nat * whisper_context) :=
  filter (fun e => negb (Nat.eqb (fst e) p)) t.

(** [whisper_init_from_file(path)]: a pointer to a new context, or NULL. *)
Definition call_whisper_init_from_file (path : string) : JM (option nat) := fun st =>
  match whisper_init_from_file (disk (process st)) path with
  | None => JReturns None st
  | Some c =>
      let p := fresh_ctx (contexts st) in
      JReturns (Some p) (set_contexts ((p, c) :: contexts st) st)
  end.

(** [whisper_free(ctx)]; freeing what is not live is undefined. *)
Definition call_whisper_free (p : nat) : JM unit := fun st =>
  match lookup_ctx p (contexts st) with
  | None => JUndefined DanglingContext
  | Some _ => JReturns tt (set_contexts (remove_ctx p (contexts st)) st)
  end.

(** [whisper_full(ctx, params, samples, n)]: a status code; the context
    keeps the segments. *)
Definition call_whisper_full (p : nat) (params : whisper_full_params whisper_defaults)
    (samples : list f32) : JM Z := fun st =>
  match lookup_ctx p (contexts st) with
  | None => JUndefined DanglingContext
  | Some c =>
      let r := whisper_full c params samples in
      JReturns (fst r) (set_contexts ((p, snd r) :: remove_ctx p (contexts st)) st)
  end.

Definition read_context {A} (p : nat) (f : whisper_context -> A) : JM A := fun st =>
  match lookup_ctx p (contexts st) with
  | None => JUndefined DanglingContext
  | Some c => JReturns (f c) st
  end.

(** The call [read_wav(audio_path, pcm_data, sample_rate)] on the two
    locals of [nativeTranscribe], declared just before as an empty vector
    and 0. *)
Definition call_read_wav (audio_path : string) : JM bool := fun st =>
  match read_wav audio_path (set_sample_rate 0 (set_pcm_data [] (process st))) with
  | Returns ok p => JReturns ok (set_process p st)
  | Undefined f => JUndefined (InReadWav f)
  end.

(** ** The four native methods *)

(** Lines 22-49. *)
Definition nativeLoadModel (modelPath : string) : JM bool :=
  jbind (GetStringUTFChars modelPath) (fun path =>
  jbind (JLOG (JNI_loading path)) (fun _ =>
  jbind read_g_context (fun old =>
  jbind (match old with
         | Some p => jbind (call_whisper_free p) (fun _ => write_g_context None)
         | None => jret tt
         end) (fun _ =>
  jbind (call_whisper_init_from_file path) (fun fresh =>
  jbind (write_g_context fresh) (fun _ =>
  jbind ReleaseStringUTFChars (fun _ =>
  jbind read_g_context (fun g =>
  match g with
  | None => jbind (JLOG JNI_load_failed) (fun _ => jret false)
  | Some _ => jbind (JLOG JNI_model_loaded) (fun _ => jret true)
  end)))))))).

(** The language handed to whisper, lines 97-101. *)
Definition chosen_language (lang : string) : string :=
  if (0 <? String.length lang)%nat && negb (String.eqb lang "auto") then lang else "auto".

(** Lines 85-101. *)
Definition transcribe_params (lang : string) (translate : bool)
  : whisper_full_params whisper_defaults :=
  {| defaults := whisper_full_default_params;
     print_progress := false;
     print_special := false;
     print_realtime := false;
     print_timestamps := false;
     translate := translate;
     n_threads := 4;
     offset_ms := 0;
     no_context := true;
     single_segment := false;
     language := chosen_language lang |}.

(** The loop of lines 120-123. *)
Definition collect_segments (c : whisper_context) (n_segments : Z) : string :=
  for_loop 0 (Z.to_nat n_segments)
    (fun i transcription =>
       String.append transcription (whisper_full_get_segment_text c (Z.of_nat i)))
    EmptyString.

(** Lines 54-127. *)
Definition nativeTranscribe (audioPath language : string) (translate : bool) : JM string :=
  jbind read_g_context (fun g =>
  match g with
  | None => jbind (JLOG JNI_not_loaded) (fun _ => NewStringUTF "")
  | Some ctx =>
    jbind (GetStringUTFChars audioPath) (fun audio_path =>
    jbind (GetStringUTFChars language) (fun lang =>
    jbind (JLOG (JNI_transcribing audio_path lang translate)) (fun _ =>
    jbind (call_read_wav audio_path) (fun ok =>
    if negb ok then
      jbind (JLOG JNI_read_failed) (fun _ =>
      jbind ReleaseStringUTFChars (fun _ =>
      jbind ReleaseStringUTFChars (fun _ =>
      NewStringUTF "")))
    else
      jbind (fun st => JReturns (pcm_data (process st), sample_rate (process st)) st)
        (fun loaded =>
      jbind (JLOG (JNI_audio_loaded (length (fst loaded)) (snd loaded))) (fun _ =>
      let params := transcribe_params lang translate in
      jbind (JLOG JNI_starting) (fun _ =>
      jbind (call_whisper_full ctx params (fst loaded)) (fun result =>
      jbind ReleaseStringUTFChars (fun _ =>
      jbind ReleaseStringUTFChars (fun _ =>
      if negb (result =? 0) then
        jbind (JLOG (JNI_failed result)) (fun _ => NewStringUTF "")
      else
        jbind (read_context ctx whisper_full_n_segments) (fun n_segments =>
        jbind (JLOG (JNI_complete n_segments)) (fun _ =>
        jbind (read_context ctx (fun c => collect_segments c n_segments))
          (fun transcription =>
        jbind (JLOG (JNI_final (String.length transcription))) (fun _ =>
        NewStringUTF transcription))))))))))))))
  end).

(** Lines 132-142. *)
Definition nativeUnloadModel : JM unit :=
  jbind read_g_context (fun g =>
  match g with
  | Some p =>
      jbind (JLOG JNI_unloading) (fun _ =>
      jbind (call_whisper_free p) (fun _ =>
      write_g_context None))
  | None => jret tt
  end).

(** Lines 147-153. *)
Definition nativeIsModelLoaded : JM bool :=
  jbind read_g_context (fun g =>
  jret (match g with Some _ => true | None => false end)).

(** The invariant of the binding: the live contexts are exactly the one
    [g_context] points to, or none when it is NULL. *)
Definition one_model (st : jni_state) : Prop :=
  match g_context st with
  | None => contexts st = []
  | Some p => exists c, contexts st = [(p, c)]
  end.

(** A process that has just loaded the library: nothing loaded, nothing
    pinned, nothing logged. *)
Definition jni_boot (p : state) : jni_state := mkJni p None [] 0 [].

(** What the managed side can do with the class: the four native methods,
    called one after the other from one thread. *)
Inductive jni_call : Type :=
| LoadModel (modelPath : string)
| Transcribe (audioPath language : string) (translate : bool)
| UnloadModel
| IsModelLoaded.

Definition perform (c : jni_call) : JM unit :=
  match c with
  | LoadModel modelPath => jbind (nativeLoadModel modelPath) (fun _ => jret tt)
  | Transcribe audioPath language translate =>
      jbind (nativeTranscribe audioPath language translate) (fun _ => jret tt)
  | UnloadModel => nativeUnloadModel
  | IsModelLoaded => jbind nativeIsModelLoaded (fun _ => jret tt)
  end.

Fixpoint session (calls : list jni_call) : JM unit :=
  match calls with
  | [] => jret tt
  | c :: rest => jbind (perform c) (fun _ => session rest)
  end.

(** The concatenation the loop of lines 120-123 builds. *)
Definition segments_text (c : whisper_context) : string :=
  fold_right String.append EmptyString
    (map (fun i => whisper_full_get_segment_text c (Z.of_nat i))
         (seq 0 (Z.to_nat (whisper_full_n_segments c)))).

End Binding.
Arguments JReturns {W A} a st.
Arguments JUndefined {W A} f.

(** An implementation of the interface to run the binding on: a context is
    the list of its segments, a model loads when its file exists, and a run
    fails on an empty sample sequence and else yields three segments, the
    first naming the language. *)
Definition toy_whisper : Whisper :=
  {| whisper_context := list string;
     whisper_defaults := unit;
     whisper_init_from_file := fun disk path =>
       match disk path with Some _ => Some [] | None => None end;
     whisper_full_default_params := tt;
     whisper_full := fun _ params samples =>
       (if (length samples =? 0)%nat then 1 else 0,
        [language params; ":"%string; "ok"%string]);
     whisper_full_n_segments := fun c => Z.of_nat (length c);
     whisper_full_get_segment_text := fun c i => nth (Z.to_nat i) c EmptyString |}.


(** The same stereo samples as [stereo_example] under a header announcing
    44100 Hz. *)
Definition stereo_44100_example : list byte :=
  wav_header 2 44100 16 8 ++ pcm16 [16384; -16384; 8192; 8192].

(** A disk with a model file and three recordings. *)
Definition study_disk (path : string) : option (list byte) :=
  if String.eqb path "model.bin" then Some []
  else if String.eqb path "a.wav" then Some stereo_example
  else if String.eqb path "b.wav" then Some stereo_44100_example
  else if String.eqb path "zero.wav" then Some depth0_example
  else if String.eqb path "cut.wav" then Some cut_example
  else None.

Definition study_process : state := mkState study_disk [] [] [] 0.

(** [study_process] with the toy model loaded. *)
Definition study_loaded : @jni_state toy_whisper :=
  @mkJni toy_whisper study_process (Some 1%nat) [(1%nat, ([] : list string))] 0 [].

(** The locals of [nativeTranscribe] after [read_wav] on "a.wav" and on
    "b.wav". *)
Definition study_a_decoded : state :=
  mkState study_disk []
    [LOGI_loaded 2; LOGI_stereo; LOGI_info 16000 2 16 1]
    [F32.zero; F32.pow2 (-2)] 16000.
Definition study_b_decoded : state :=
  mkState study_disk []
    [LOGI_loaded 2; LOGI_stereo; LOGI_info 44100 2 16 1]
    [F32.zero; F32.pow2 (-2)] 44100.

(** A session over [study_process]. *)
Definition study_session : list jni_call :=
  [ Transcribe "a.wav" "en" false;
    LoadModel "model.bin";
    IsModelLoaded;
    Transcribe "a.wav" "" false;
    Transcribe "cut.wav" "en" true;
    LoadModel "missing.bin";
    Transcribe "b.wav" "auto" false;
    LoadModel "model.bin";
    LoadModel "model.bin";
    Transcribe "b.wav" "de" false;
    UnloadModel;
    UnloadModel ].

(** * [read_wav] when storage can run out *)

(** [read_wav] above is the function in a process in which every
    allocation succeeds.  In the source the caller's vector is resized at
    line 63 and three more vectors are constructed at lines 67, 79 and 99,
    with an element count that comes from the header; each of these can
    throw, and nothing between [fopen] and the end of the function catches
    or releases.  [Heap.read_wav] is the function with these allocations,
    over a process that also holds the allocator; an exception leaves the
    call at the allocation that was refused. *)
Module Heap.

Inductive exception : Type := bad_alloc | length_error.

(** [allocator k bytes] is the answer to the [k]-th request of the
    process when it asks for [bytes] bytes: [None] when storage is
    granted, else what is thrown.  A request that the vector can serve
    from its capacity is one that is granted. *)
Record world : Type := mkWorld {
  proc : state;
  allocator : nat -> Z -> option exception;
  requests : nat
}.

(** A call returns, leaves by an exception, or runs into undefined
    behaviour; in each case [w] is the process at that point. *)
Inductive result (A : Type) : Type :=
| Done (a : A) (w : world)
| Thrown (e : exception) (w : world)
| Fault (f : fault) (w : world).
Arguments Done {A} a w.
Arguments Thrown {A} e w.
Arguments Fault {A} f w.

Definition X (A : Type) : Type := world -> result A.
Definition ret {A} (a : A) : X A := fun w => Done a w.
Definition bind {A B} (c : X A) (k : A -> X B) : X B :=
  fun w => match c w with
           | Done a w' => k a w'
           | Thrown e w' => Thrown e w'
           | Fault f w' => Fault f w'
           end.

Declare Scope heap_scope.
Notation "x <- c ;; k" := (bind c (fun x => k))
  (at level 61, c at next level, right associativity) : heap_scope.
Notation "c ;; k" := (bind c (fun _ => k))
  (at level 61, right associativity) : heap_scope.
Local Open Scope heap_scope.

Definition set_proc (s : state) (w : world) : world :=
  mkWorld s (allocator w) (requests w).

(** A step that does not allocate. *)
Definition lift {A} (c : M A) : X A := fun w =>
  match c (proc w) with
  | Returns a s => Done a (set_proc s w)
  | Undefined f => Fault f w
  end.

(** Storage for [count] objects of [size] bytes; an empty array asks for
    nothing. *)
Definition allocate (count size : nat) : X unit := fun w =>
  if Nat.eqb count 0 then Done tt w
  else match allocator w (requests w) (Z.of_nat count * Z.of_nat size) with
       | None => Done tt (mkWorld (proc w) (allocator w) (S (requests w)))
       | Some e => Thrown e w
       end.

(** [pcm_data.resize(n)]: storage is requested only to grow, and the
    vector is unchanged when the request is refused. *)
Definition resize (n : nat) : X unit :=
  grows <- lift (fun s => Returns (length (pcm_data s) <? n)%nat s) ;;
  (if grows then allocate n 4 else ret tt) ;;
  lift (modify (fun s => set_pcm_data (vec_resize n (pcm_data s)) s)).

(** Lines 96-108. *)
Definition finish (file : nat) (header : WavHeader.t) (num_samples : nat) : X bool :=
  (if WavHeader.num_channels header =? 2
   then lift (LOG LOGI_stereo) ;;
        allocate (num_samples / 2) 4 ;;
        lift (downmix num_samples)
   else ret tt) ;;
  lift (fclose file) ;;
  n <- lift (fun s => Returns (length (pcm_data s)) s) ;;
  lift (LOG (LOGI_loaded n)) ;;
  ret true.

(** Lines 32-109. *)
Definition read_wav (filename : string) : X bool :=
  file <- lift (fopen filename) ;;
  match file with
  | None =>
      lift (LOG (LOGE_open filename)) ;; ret false
  | Some file =>
      r <- lift (fread WavHeader.sizeof 1 file) ;;
      if negb (Nat.eqb (fst r) 1) then
        lift (LOG LOGE_header) ;; lift (fclose file) ;; ret false
      else
        let header := WavHeader.load (snd r) in
        if negb (bytes_eqb (WavHeader.riff header) RIFF)
           || negb (bytes_eqb (WavHeader.wave header) WAVE) then
          lift (LOG LOGE_format) ;; lift (fclose file) ;; ret false
        else
          lift (LOG (LOGI_info (WavHeader.sample_rate header)
                       (WavHeader.num_channels header)
                       (WavHeader.bits_per_sample header)
                       (WavHeader.audio_format header))) ;;
          lift (modify (set_sample_rate (to_int (WavHeader.sample_rate header)))) ;;
          q <- lift (udiv (WavHeader.data_size header)
                       (WavHeader.bits_per_sample header / 8)) ;;
          let num_samples := Z.to_nat q in
          resize num_samples ;;
          if WavHeader.bits_per_sample header =? 16 then
            allocate num_samples 2 ;;
            r <- lift (fread 2 num_samples file) ;;
            if negb (Nat.eqb (fst r) num_samples) then
              lift (LOG LOGE_pcm) ;; lift (fclose file) ;; ret false
            else
              lift (convert norm16 (int_samples 2 num_samples (snd r)) num_samples) ;;
              finish file header num_samples
          else if WavHeader.bits_per_sample header =? 32 then
            allocate num_samples 4 ;;
            r <- lift (fread 4 num_samples file) ;;
            if negb (Nat.eqb (fst r) num_samples) then
              lift (LOG LOGE_pcm) ;; lift (fclose file) ;; ret false
            else
              lift (convert norm32 (int_samples 4 num_samples (snd r)) num_samples) ;;
              finish file header num_samples
          else
            lift (LOG (LOGE_bit_depth (WavHeader.bits_per_sample header))) ;;
            lift (fclose file) ;; ret false
  end.

(** ** The outcomes in closed form *)

(** The shape of the two sample-reading branches. *)
Definition read_pcm (file : nat) (header : WavHeader.t) (width : nat)
    (norm : Z -> f32) (num_samples : nat) : X bool :=
  allocate num_samples width ;;
  r <- lift (fread width num_samples file) ;;
  if negb (Nat.eqb (fst r) num_samples) then
    lift (LOG LOGE_pcm) ;; lift (fclose file) ;; ret false
  else
    lift (convert norm (int_samples width num_samples (snd r)) num_samples) ;;
    finish file header num_samples.

(** The process while the stream of the call is open at [pos]. *)
Definition opened (bytes : list byte) (pos : nat) (s : state) : state :=
  set_open_files ((fresh_fd (open_files s), mkFILE bytes pos) :: open_files s) s.

(** From the resized buffer on; [s] is the process without the stream. *)
Definition pcm_cases (header : WavHeader.t) (bytes : list byte) (width : nat)
    (norm : Z -> f32) (n : nat) (s : state) : X bool := fun w =>
  let payload := skipn 44 bytes in
  match allocate n width (set_proc (opened bytes 44 s) w) with
  | Done _ w1 =>
      if (length payload / width <? n)%nat then
        Done false (set_proc (push_log LOGE_pcm s) w1)
      else
        let normalized := map norm (int_samples width n payload) in
        if WavHeader.num_channels header =? 2 then
          match allocate (n / 2) 4
                  (set_proc (opened bytes (44 + n * width)
                               (push_log LOGI_stereo (set_pcm_data normalized s))) w1) with
          | Done _ w2 =>
              Done true
                (set_proc (push_log (LOGI_loaded (n / 2))
                             (set_pcm_data (downmixed normalized n)
                                (push_log LOGI_stereo s))) w2)
          | Thrown e w2 => Thrown e w2
          | Fault f w2 => Fault f w2
          end
        else
          Done true (set_proc (push_log (LOGI_loaded n) (set_pcm_data normalized s)) w1)
  | Thrown e w1 => Thrown e w1
  | Fault f w1 => Fault f w1
  end.

Definition read_wav_cases (filename : string) : X bool := fun w =>
  let s := proc w in
  match disk s filename with
  | None => Done false (set_proc (push_log (LOGE_open filename) s) w)
  | Some bytes =>
    let header := header_of bytes in
    let n := sample_count header in
    if (length bytes <? 44)%nat then Done false (set_proc (push_log LOGE_header s) w)
    else if negb (tags_ok header) then Done false (set_proc (push_log LOGE_format s) w)
    else if WavHeader.bits_per_sample header / 8 =? 0 then
      Fault DivisionByZero (set_proc (opened bytes 44 (with_rate header s)) w)
    else
      match (if (length (pcm_data s) <? n)%nat then allocate n 4 else ret tt)
              (set_proc (opened bytes 44 (with_rate header s)) w) with
      | Done _ w1 =>
          if WavHeader.bits_per_sample header =? 16 then
            pcm_cases header bytes 2 norm16 n (with_buffer header s) w1
          else if WavHeader.bits_per_sample header =? 32 then
            pcm_cases header bytes 4 norm32 n (with_buffer header s) w1
          else
            Done false
              (set_proc (push_log (LOGE_bit_depth (WavHeader.bits_per_sample header))
                           (with_buffer header s)) w1)
      | Thrown e w1 => Thrown e w1
      | Fault f w1 => Fault f w1
      end
  end.

(** The failure kind of a call that returned. *)
Definition failure (r : result bool) : option DecodeError :=
  match r with
  | Done b w => failure (Returns b (proc w))
  | _ => None
  end.


(** An allocator that grants exactly the requests of at most [limit] bytes. *)
Definition limited (limit : Z) : nat -> Z -> option exception :=
  fun _ request => if request <=? limit then None else Some bad_alloc.

End Heap.

(** A 48-byte file: mono, 16 bit, the header announcing 4294967295 bytes
    of samples, two samples present; and a process holding it in which the
    caller's vector is empty and no request above 1 GiB is granted. *)
Definition huge_example : list byte :=
  wav_header 1 16000 16 4294967295 ++ pcm16 [16384; -16384].

Definition starved : Heap.world :=
  Heap.mkWorld (boot (Some huge_example)) (Heap.limited (2 ^ 30)) 0.

(** * Auxiliary notions for the rounding proofs *)

(** The shift record: the mantissa halves at each step, and the two low
    flags together record whether anything nonzero was shifted out. *)
Definition inexact (mrs : shr_record) : bool := shr_r mrs || shr_s mrs.

Definition loc_inexact (l : location) : bool :=
  match l with loc_Exact => false | loc_Inexact _ => true end.

Definition shifted (m0 : Z) (i0 : bool) (k : Z) (mrs : shr_record) : Prop :=
  shr_m mrs = m0 / 2 ^ k /\
  (inexact mrs = false <-> (i0 = false /\ m0 mod 2 ^ k = 0)).

(** The mantissa of the canonical representation of a positive integer
    with [d] binary digits, when no nonzero bit is lost. *)
Definition mantissa24 (m : Z) : Z := m * 2 ^ 24 / 2 ^ Zdigits2 m.

Section Rounding.
Import F32.

Lemma digits2_pos_spec (p : positive) :
  2 ^ (Zpos (digits2_pos p) - 1) <= Zpos p < 2 ^ Zpos (digits2_pos p).
Proof.
  induction p as [p IH | p IH | ]; cbn [digits2_pos].
  - rewrite Pos2Z.inj_succ.
    replace (Z.succ (Zpos (digits2_pos p)) - 1) with (Z.succ (Zpos (digits2_pos p) - 1)) by lia.
    rewrite !Z.pow_succ_r by lia. lia.
  - rewrite Pos2Z.inj_succ.
    replace (Z.succ (Zpos (digits2_pos p)) - 1) with (Z.succ (Zpos (digits2_pos p) - 1)) by lia.
    rewrite !Z.pow_succ_r by lia. lia.
  - cbn. lia.
Qed.

Lemma Zdigits2_spec (m : Z) :
  0 < m -> 2 ^ (Zdigits2 m - 1) <= m < 2 ^ Zdigits2 m.
Proof.
  destruct m as [ | p | p]; try lia. intros _. apply digits2_pos_spec.
Qed.

Lemma Zdigits2_nonneg (m : Z) : 0 <= Zdigits2 m.
Proof. destruct m; cbn; lia. Qed.

Lemma pow2_le_inv (a b : Z) : 0 <= a -> 0 <= b -> 2 ^ a <= 2 ^ b -> a <= b.
Proof. intros Ha Hb H. apply (Z.pow_le_mono_r_iff 2); lia. Qed.

Lemma pow2_lt_inv (a b : Z) : 0 <= b -> 2 ^ a < 2 ^ b -> a < b.
Proof. intros Hb H. apply (Z.pow_lt_mono_r_iff 2); lia. Qed.

Lemma Zdigits2_le_bound (m k : Z) :
  0 < m -> 0 <= k -> m <= 2 ^ k -> Zdigits2 m - 1 <= k.
Proof.
  intros Hm Hk Hle. pose proof (Zdigits2_spec m Hm) as [Hlo _].
  pose proof (Zdigits2_nonneg m).
  destruct (Z.eq_dec (Zdigits2 m) 0) as [E | E]; [lia | ].
  apply pow2_le_inv; lia.
Qed.

Lemma Zdigits2_ge_bound (m k : Z) :
  0 <= k -> 2 ^ k <= m -> k + 1 <= Zdigits2 m.
Proof.
  intros Hk Hle.
  assert (0 < m) by (pose proof (Z.pow_pos_nonneg 2 k); lia).
  pose proof (Zdigits2_spec m H) as [_ Hhi].
  pose proof (Zdigits2_nonneg m).
  assert (k < Zdigits2 m) by (apply pow2_lt_inv; lia). lia.
Qed.


Lemma shr_1_m (mrs : shr_record) :
  0 <= shr_m mrs -> shr_m (shr_1 mrs) = shr_m mrs / 2.
Proof.
  destruct mrs as [m r s]; cbn [shr_m shr_1]. intros Hm.
  destruct m as [ | [p | p | ] | p]; cbn [shr_m]; try lia.
  - reflexivity.
  - rewrite Pos2Z.inj_xI. apply Z.div_unique with (r := 1); lia.
  - rewrite Pos2Z.inj_xO. apply Z.div_unique with (r := 0); lia.
  - reflexivity.
Qed.

Lemma shr_1_inexact (mrs : shr_record) :
  0 <= shr_m mrs ->
  inexact (shr_1 mrs) = negb (shr_m mrs mod 2 =? 0) || inexact mrs.
Proof.
  destruct mrs as [m r s]; unfold inexact; cbn [shr_m shr_r shr_s shr_1]. intros Hm.
  destruct m as [ | [p | p | ] | p]; cbn [shr_m shr_r shr_s]; try lia.
  - reflexivity.
  - rewrite Pos2Z.inj_xI.
    replace ((2 * Zpos p + 1) mod 2) with 1
      by (apply Z.mod_unique with (q := Zpos p); lia).
    reflexivity.
  - rewrite Pos2Z.inj_xO.
    replace ((2 * Zpos p) mod 2) with 0
      by (apply Z.mod_unique with (q := Zpos p); lia).
    reflexivity.
  - reflexivity.
Qed.

Lemma iter_pos_invariant {A : Type} (f : A -> A) (P : Z -> A -> Prop) :
  (forall k x, 0 <= k -> P k x -> P (k + 1) (f x)) ->
  forall p k x, 0 <= k -> P k x -> P (k + Zpos p) (iter_pos f p x).
Proof.
  intros Hstep. induction p as [p IH | p IH | ]; intros k x Hk HP; cbn [iter_pos].
  - rewrite Pos2Z.inj_xI.
    replace (k + (2 * Zpos p + 1)) with (k + 1 + Zpos p + Zpos p) by lia.
    apply IH; [lia | ]. apply IH; [lia | ]. apply Hstep; assumption.
  - rewrite Pos2Z.inj_xO.
    replace (k + 2 * Zpos p) with (k + Zpos p + Zpos p) by lia.
    apply IH; [lia | ]. apply IH; assumption.
  - apply Hstep; assumption.
Qed.


Lemma shifted_step (m0 : Z) (i0 : bool) (k : Z) (mrs : shr_record) :
  0 <= m0 -> 0 <= k -> shifted m0 i0 k mrs -> shifted m0 i0 (k + 1) (shr_1 mrs).
Proof.
  intros Hm0 Hk [Hm Hi].
  assert (Hpos : 0 < 2 ^ k) by (apply Z.pow_pos_nonneg; lia).
  assert (Hmm : 0 <= shr_m mrs) by (rewrite Hm; apply Z.div_pos; lia).
  assert (Hpow : 2 ^ (k + 1) = 2 ^ k * 2) by (rewrite Z.pow_add_r by lia; reflexivity).
  split.
  - rewrite shr_1_m by assumption. rewrite Hm, Hpow.
    rewrite Z.div_div by lia. reflexivity.
  - rewrite shr_1_inexact by assumption. rewrite Hpow.
    rewrite Z.rem_mul_r by lia. rewrite <- Hm.
    pose proof (Z.mod_pos_bound m0 (2 ^ k) Hpos).
    pose proof (Z.mod_pos_bound (shr_m mrs) 2 ltac:(lia)).
    destruct (inexact mrs).
    + rewrite orb_true_r. split; [discriminate | ].
      intros [Hi0 Hrem]. apply Hi. split; [assumption | nia].
    + rewrite orb_false_r. destruct Hi as [Hi _]. destruct (Hi eq_refl) as [-> Hz].
      destruct (Z.eqb_spec (shr_m mrs mod 2) 0) as [E | E]; cbn [negb].
      * split; [ | reflexivity]. intros _. split; [reflexivity | nia].
      * split; [discriminate | ]. intros [_ Hrem]. exfalso. nia.
Qed.

Lemma loc_of_shr_record_exact (mrs : shr_record) :
  loc_of_shr_record mrs = loc_Exact <-> inexact mrs = false.
Proof.
  destruct mrs as [m [ | ] [ | ]]; unfold inexact; cbn; split; intros H; try discriminate; reflexivity.
Qed.


Lemma shr_record_of_loc_m (m : Z) (l : location) : shr_m (shr_record_of_loc m l) = m.
Proof. destruct l as [ | [ | | ]]; reflexivity. Qed.

Lemma shr_record_of_loc_inexact (m : Z) (l : location) :
  inexact (shr_record_of_loc m l) = loc_inexact l.
Proof. destruct l as [ | [ | | ]]; reflexivity. Qed.

Lemma shr_spec (m : Z) (l : location) (e n : Z) :
  0 <= m -> 0 <= n ->
  let '(mrs, e') := shr (shr_record_of_loc m l) e n in
  e' = e + n /\ shifted m (loc_inexact l) n mrs.
Proof.
  intros Hm Hn. unfold shr. destruct n as [ | p | p]; try lia.
  - split; [lia | ]. split.
    + rewrite shr_record_of_loc_m. cbn. rewrite Z.div_1_r. reflexivity.
    + rewrite shr_record_of_loc_inexact, Z.mod_1_r. tauto.
  - split; [reflexivity | ].
    change (Zpos p) with (0 + Zpos p) at 1.
    apply (iter_pos_invariant shr_1 (shifted m (loc_inexact l))); [ | lia | ].
    + intros k x Hk HP. apply shifted_step; assumption.
    + split.
      * rewrite shr_record_of_loc_m. cbn. rewrite Z.div_1_r. reflexivity.
      * rewrite shr_record_of_loc_inexact, Z.mod_1_r. tauto.
Qed.

Lemma round_nearest_even_bounds (m : Z) (l : location) :
  m <= round_nearest_even m l <= m + 1 /\
  (loc_inexact l = false -> round_nearest_even m l = m).
Proof.
  destruct l as [ | [ | | ]]; cbn [round_nearest_even loc_inexact];
    try destruct (Z.even m); split; try lia; try discriminate; reflexivity.
Qed.


Lemma shr_nonpos (mrs : shr_record) (e n : Z) : n <= 0 -> shr mrs e n = (mrs, e).
Proof. destruct n; intros; try lia; reflexivity. Qed.

Lemma fexp_eq (e : Z) : fexp prec emax e = Z.max (e - 24) (-149).
Proof. reflexivity. Qed.

Lemma pow2_split (a b : Z) : 0 <= a -> 0 <= b -> 2 ^ (a + b) = 2 ^ a * 2 ^ b.
Proof. intros. apply Z.pow_add_r; assumption. Qed.

Lemma abs_le_pow2_finite (K : Z) (s : bool) (p : positive) (e : Z) :
  -149 <= e -> e <= K -> K <= 127 ->
  Zpos p <= 2 ^ (K - e) -> Zpos p < 2 ^ 24 -> (-149 < e -> 2 ^ 23 <= Zpos p) ->
  (if e <=? emax - prec then S754_finite s p e else S754_infinity s) = S754_finite s p e /\
  abs_le_pow2 K (S754_finite s p e) = true.
Proof.
  intros Hlo HeK HK Hle Hlt Hnorm.
  assert (Hd : Zdigits2 (Zpos p) <= 24).
  { pose proof (Zdigits2_spec (Zpos p) eq_refl) as [Hl _].
    pose proof (Zdigits2_nonneg (Zpos p)).
    assert (Zdigits2 (Zpos p) - 1 < 24) by (apply pow2_lt_inv; lia). lia. }
  assert (He104 : e <= 104).
  { destruct (Z.eq_dec e (-149)) as [-> | Hne]; [lia | ].
    assert (23 <= K - e) by (apply pow2_le_inv; lia). lia. }
  assert (Hcanon : fexp prec emax (Zpos (digits2_pos p) + e) = e).
  { rewrite fexp_eq. change (Zpos (digits2_pos p)) with (Zdigits2 (Zpos p)).
    destruct (Z.eq_dec e (-149)) as [-> | Hne]; [lia | ].
    assert (24 <= Zdigits2 (Zpos p)) by (apply (Zdigits2_ge_bound (Zpos p) 23); lia).
    lia. }
  change (emax - prec) with 104.
  split.
  - destruct (Z.leb_spec e 104); [reflexivity | lia].
  - unfold abs_le_pow2, bounded, canonical_mantissa. rewrite Hcanon.
    change (emax - prec) with 104.
    rewrite Z.eqb_refl. cbn [andb].
    repeat (apply andb_true_intro; split); apply Z.leb_le; lia.
Qed.

Lemma binary_round_aux_bound (s : bool) (m e : Z) (l : location) (K : Z) :
  0 <= m ->
  e <= fexp prec emax (Zdigits2 m + e) ->
  e <= K -> m <= 2 ^ (K - e) ->
  (loc_inexact l = true -> m < 2 ^ (K - e)) ->
  -126 <= K <= 127 ->
  abs_le_pow2 K (binary_round_aux prec emax s m e l) = true.
Proof.
  intros Hm Hprec HeK Hle Hstrict HK.
  unfold binary_round_aux, shr_fexp.
  set (n := fexp prec emax (Zdigits2 m + e) - e).
  assert (Hn : 0 <= n) by (unfold n; lia).
  pose proof (shr_spec m l e n Hm Hn) as Hshr.
  destruct (shr (shr_record_of_loc m l) e n) as [mrs1 e1].
  destruct Hshr as [He1 [Hm1 Hi1]].
  assert (Hfe : e1 = Z.max (Zdigits2 m + e - 24) (-149))
    by (rewrite He1; unfold n; rewrite fexp_eq; lia).
  assert (Hpn : 0 < 2 ^ n) by (apply Z.pow_pos_nonneg; lia).
  (* the shifted mantissa stays below the bound *)
  assert (He1K : e1 <= K).
  { destruct (Z.eq_dec m 0) as [-> | Hnz]; [change (Zdigits2 0) with 0 in Hfe; lia | ].
    assert (Zdigits2 m - 1 <= K - e) by (apply Zdigits2_le_bound; lia). lia. }
  assert (Hsplit : 2 ^ (K - e) = 2 ^ (K - e1) * 2 ^ n).
  { rewrite <- pow2_split by lia. f_equal. lia. }
  assert (Hpk : 0 < 2 ^ (K - e1)) by (apply Z.pow_pos_nonneg; lia).
  set (m1 := shr_m mrs1) in *.
  assert (Hm1nn : 0 <= m1) by (rewrite Hm1; apply Z.div_pos; lia).
  assert (Hm1le : m1 <= 2 ^ (K - e1)).
  { rewrite Hm1. apply Z.div_le_upper_bound; lia. }
  assert (Hm1lt : inexact mrs1 = true -> m1 < 2 ^ (K - e1)).
  { intros Hin. rewrite Hm1. apply Z.div_lt_upper_bound; [lia | ].
    destruct (loc_inexact l) eqn:El; [specialize (Hstrict eq_refl); lia | ].
    destruct (Z.eq_dec (m mod 2 ^ n) 0) as [Hz | Hnz].
    - destruct Hi1 as [_ Hi1]. rewrite Hi1 in Hin by (split; auto). discriminate.
    - assert (m <> 2 ^ (K - e1) * 2 ^ n).
      { intros Heq. apply Hnz. rewrite Heq. apply Z.mod_mul. lia. }
      lia. }
  assert (Hm1hi : m1 < 2 ^ 24).
  { rewrite Hm1. apply Z.div_lt_upper_bound; [lia | ].
    destruct (Z.eq_dec m 0) as [-> | Hnz]; [lia | ].
    pose proof (Zdigits2_spec m ltac:(lia)) as [_ Hhi].
    pose proof (Zdigits2_nonneg m).
    assert (2 ^ Zdigits2 m <= 2 ^ (n + 24)) by (apply Z.pow_le_mono_r; lia).
    rewrite pow2_split in H0 by lia. lia. }
  assert (Hm1lo : -149 < e1 -> 2 ^ 23 <= m1).
  { intros Hgt.
    assert (Hnz : 0 < m).
    { destruct (Z.eq_dec m 0) as [-> | Hnz]; [ | lia].
      change (Zdigits2 0) with 0 in Hfe. lia. }
    pose proof (Zdigits2_spec m Hnz) as [Hlo _].
    assert (Hd : Zdigits2 m - 1 = 23 + n) by lia.
    rewrite Hd, pow2_split in Hlo by lia.
    rewrite Hm1. apply Z.div_le_lower_bound; lia. }
  pose proof (round_nearest_even_bounds m1 (loc_of_shr_record mrs1)) as [Hr Hrex].
  set (m2 := round_nearest_even m1 (loc_of_shr_record mrs1)) in *.
  assert (Hm2le : m2 <= 2 ^ (K - e1)).
  { destruct (inexact mrs1) eqn:Ein; [specialize (Hm1lt eq_refl); lia | ].
    apply loc_of_shr_record_exact in Ein. rewrite Ein in Hrex.
    rewrite (Hrex eq_refl). assumption. }
  destruct (Z.eq_dec m2 0) as [Hz0 | Hnz0].
  { rewrite Hz0. rewrite shr_nonpos by (rewrite fexp_eq; cbn [Zdigits2]; lia).
    reflexivity. }
  destruct (Z_lt_le_dec m2 (2 ^ 24)) as [Hlt24 | Hge24].
  - assert (Hd2 : Zdigits2 m2 <= 24).
    { pose proof (Zdigits2_spec m2 ltac:(lia)) as [Hl _].
      pose proof (Zdigits2_nonneg m2).
      assert (Zdigits2 m2 - 1 < 24) by (apply pow2_lt_inv; lia). lia. }
    rewrite shr_nonpos by (rewrite fexp_eq; lia).
    cbn [shr_record_of_loc shr_m].
    destruct m2 as [ | p | p] eqn:Em2; try lia.
    destruct (abs_le_pow2_finite K s p e1) as [-> Habs]; try lia.
    exact Habs.
  - assert (Em2 : m2 = 2 ^ 24) by lia.
    rewrite Em2.
    assert (Hn2 : fexp prec emax (Zdigits2 (2 ^ 24) + e1) - e1 = 1)
      by (rewrite fexp_eq; cbn [Zdigits2 Z.pow Z.pow_pos Pos.iter Z.mul Pos.mul digits2_pos Pos.succ]; lia).
    rewrite Hn2. cbn [shr shr_record_of_loc Z.pow Z.pow_pos Pos.iter Z.mul Pos.mul iter_pos shr_1 shr_m].
    assert (24 <= K - e1) by (apply pow2_le_inv; lia).
    destruct (abs_le_pow2_finite K s 8388608 (e1 + 1)) as [-> Habs]; try lia.
    + assert (2 ^ 23 <= 2 ^ (K - (e1 + 1))) by (apply Z.pow_le_mono_r; lia). lia.
    + exact Habs.
Qed.


Lemma iter_xO_spec (d mx : positive) :
  Zpos (Pos.iter xO mx d) = Zpos mx * 2 ^ Zpos d /\
  Zpos (digits2_pos (Pos.iter xO mx d)) = Zpos (digits2_pos mx) + Zpos d.
Proof.
  induction d as [ | d IH] using Pos.peano_ind.
  - cbn [Pos.iter digits2_pos]. rewrite Pos2Z.inj_xO, Pos2Z.inj_succ. lia.
  - rewrite Pos.iter_succ. cbn [digits2_pos].
    rewrite Pos2Z.inj_xO, !Pos2Z.inj_succ, Z.pow_succ_r by lia.
    destruct IH as [-> ->]. lia.
Qed.

Lemma shl_align_spec (mx : positive) (ex ex' : Z) :
  let '(mz, ez) := shl_align mx ex ex' in
  ez = Z.min ex ex' /\
  Zpos mz = Zpos mx * 2 ^ (ex - ez) /\
  Zdigits2 (Zpos mz) = Zdigits2 (Zpos mx) + (ex - ez).
Proof.
  unfold shl_align. destruct (ex' - ex) as [ | d | d] eqn:Ed.
  - replace (ex - ex) with 0 by lia. cbn [Z.pow]. lia.
  - replace (ex - ex) with 0 by lia. cbn [Z.pow]. lia.
  - replace (ex - ex') with (Zpos d) by lia.
    destruct (iter_xO_spec d mx) as [H1 H2]. cbn [Zdigits2]. lia.
Qed.

Lemma binary_round_bound (s : bool) (mx : positive) (ex K : Z) :
  ex <= K -> Zpos mx <= 2 ^ (K - ex) -> -126 <= K <= 127 ->
  abs_le_pow2 K (binary_round prec emax s mx ex) = true.
Proof.
  intros HeK Hle HK. unfold binary_round.
  pose proof (shl_align_spec mx ex (fexp prec emax (Zpos (digits2_pos mx) + ex))) as Hal.
  destruct (shl_align mx ex (fexp prec emax (Zpos (digits2_pos mx) + ex))) as [mz ez].
  destruct Hal as [Hez [Hmz Hdz]]. cbn [Zdigits2] in Hdz.
  apply binary_round_aux_bound; try lia.
  - cbn [Zdigits2]. rewrite Hdz.
    replace (Zpos (digits2_pos mx) + (ex - ez) + ez) with (Zpos (digits2_pos mx) + ex) by lia.
    lia.
  - rewrite Hmz. replace (K - ez) with ((K - ex) + (ex - ez)) by lia.
    rewrite pow2_split by lia.
    apply Z.mul_le_mono_nonneg_r; [apply Z.pow_nonneg; lia | assumption].
  - discriminate.
Qed.

Lemma binary_normalize_bound (m e K : Z) :
  e <= K -> Z.abs m <= 2 ^ (K - e) -> -126 <= K <= 127 ->
  abs_le_pow2 K (binary_normalize prec emax m e false) = true.
Proof.
  intros HeK Hle HK. destruct m as [ | p | p]; cbn [binary_normalize].
  - reflexivity.
  - apply binary_round_bound; assumption.
  - apply binary_round_bound; assumption.
Qed.

Lemma abs_le_pow2_mono (K K' : Z) (f : f32) :
  K <= K' -> abs_le_pow2 K f = true -> abs_le_pow2 K' f = true.
Proof.
  intros HK. destruct f as [s | s | | s m e]; cbn [abs_le_pow2]; auto.
  rewrite !andb_true_iff, !Z.leb_le. intros [[Hb He] Hm].
  repeat split; auto; try lia.
  assert (2 ^ (K - e) <= 2 ^ (K' - e)) by (apply Z.pow_le_mono_r; lia). lia.
Qed.

Lemma abs_le_pow2_inv (K : Z) (s : bool) (m : positive) (e : Z) :
  abs_le_pow2 K (S754_finite s m e) = true ->
  bounded prec emax m e = true /\ e <= K /\ Zpos m <= 2 ^ (K - e).
Proof.
  cbn [abs_le_pow2]. rewrite !andb_true_iff, !Z.leb_le. tauto.
Qed.

Lemma add_bound (K : Z) (a b : f32) :
  -126 <= K <= 126 ->
  abs_le_pow2 K a = true -> abs_le_pow2 K b = true ->
  abs_le_pow2 (K + 1) (add a b) = true.
Proof.
  intros HK Ha Hb. unfold add.
  destruct a as [sa | sa | | sa ma ea]; try discriminate;
  destruct b as [sb | sb | | sb mb eb]; try discriminate.
  - destruct sa, sb; reflexivity.
  - cbn [SFadd]. apply abs_le_pow2_mono with (K := K); [lia | assumption].
  - cbn [SFadd]. apply abs_le_pow2_mono with (K := K); [lia | assumption].
  - cbn [SFadd].
    apply abs_le_pow2_inv in Ha, Hb.
    destruct Ha as [_ [Hea Hma]], Hb as [_ [Heb Hmb]].
    pose proof (shl_align_spec ma ea (Z.min ea eb)) as Hxa.
    pose proof (shl_align_spec mb eb (Z.min ea eb)) as Hxb.
    destruct (shl_align ma ea (Z.min ea eb)) as [za eza].
    destruct (shl_align mb eb (Z.min ea eb)) as [zb ezb].
    cbn [fst].
    destruct Hxa as [Heza [Hza _]], Hxb as [Hezb [Hzb _]].
    set (ez := Z.min ea eb) in *.
    assert (Eza : eza = ez) by lia. assert (Ezb : ezb = ez) by lia.
    rewrite Eza in Hza. rewrite Ezb in Hzb.
    assert (Ba : Zpos za <= 2 ^ (K - ez)).
    { rewrite Hza. replace (K - ez) with ((K - ea) + (ea - ez)) by lia.
      rewrite pow2_split by lia.
      apply Z.mul_le_mono_nonneg_r; [apply Z.pow_nonneg; lia | assumption]. }
    assert (Bb : Zpos zb <= 2 ^ (K - ez)).
    { rewrite Hzb. replace (K - ez) with ((K - eb) + (eb - ez)) by lia.
      rewrite pow2_split by lia.
      apply Z.mul_le_mono_nonneg_r; [apply Z.pow_nonneg; lia | assumption]. }
    apply binary_normalize_bound; try lia.
    replace (K + 1 - ez) with (Z.succ (K - ez)) by lia.
    rewrite Z.pow_succ_r by lia.
    unfold cond_Zopp. destruct sa, sb; lia.
Qed.


Lemma new_location_pow23 (r : Z) :
  loc_inexact (new_location 8388608 r) = negb (r =? 0).
Proof.
  unfold new_location. change (Z.even 8388608) with true. cbv iota.
  unfold new_location_even. destruct (r =? 0); reflexivity.
Qed.

Lemma div_core_pow2 (m1 : positive) (e1 j K : Z) :
  e1 <= K -> Zpos m1 <= 2 ^ (K - e1) -> -149 <= K - j ->
  let '(q, e', l) := SFdiv_core_binary prec emax (Zpos m1) e1 8388608 (j - 23) in
  0 <= q /\ e' <= fexp prec emax (Zdigits2 q + e') /\
  e' <= K - j /\ q <= 2 ^ (K - j - e') /\
  (loc_inexact l = true -> q < 2 ^ (K - j - e')).
Proof.
  intros HeK Hle HKj. unfold SFdiv_core_binary.
  change (Zdigits2 8388608) with 24.
  set (d1 := Zdigits2 (Zpos m1)).
  set (e' := Z.min (fexp prec emax (d1 + e1 - (24 + (j - 23)))) (e1 - (j - 23))).
  set (s := e1 - (j - 23) - e').
  assert (Hs : 0 <= s) by (unfold s, e'; lia).
  set (m' := match s with Z.pos _ => Z.shiftl (Z.pos m1) s | 0 => Z.pos m1 | Z.neg _ => 0 end).
  assert (Hm' : m' = Zpos m1 * 2 ^ s).
  { unfold m'. destruct s as [ | p | p] eqn:Es; try lia.
    rewrite Z.shiftl_mul_pow2 by lia. reflexivity. }
  pose proof (Z_div_mod m' 8388608 eq_refl) as Hdiv.
  destruct (Z.div_eucl m' 8388608) as [q r]. destruct Hdiv as [Hq Hr].
  assert (Hps : 0 < 2 ^ s) by (apply Z.pow_pos_nonneg; lia).
  assert (Hd1 : d1 - 1 <= K - e1) by (apply Zdigits2_le_bound; lia).
  pose proof (Zdigits2_spec (Zpos m1) eq_refl) as [Hlo1 _]. fold d1 in Hlo1.
  assert (Hd1pos : 1 <= d1) by (unfold d1; cbn [Zdigits2]; lia).
  assert (He'K : e' <= K - j).
  { unfold e'. rewrite fexp_eq. lia. }
  assert (Hq0 : 0 <= q) by nia.
  assert (Hbig : 2 ^ (K - e1 + s) = 2 ^ (K - j - e') * 8388608).
  { change 8388608 with (2 ^ 23). rewrite <- pow2_split by lia. f_equal. unfold s. lia. }
  assert (Hm'le : m' <= 2 ^ (K - e1 + s)).
  { rewrite Hm', pow2_split by lia. apply Z.mul_le_mono_nonneg_r; lia. }
  assert (Hpk : 0 < 2 ^ (K - j - e')) by (apply Z.pow_pos_nonneg; lia).
  repeat split.
  - exact Hq0.
  - rewrite fexp_eq. destruct (Z_le_gt_dec e' (-149)) as [Hsub | Hnorm]; [lia | ].
    assert (He'2 : e' <= d1 + e1 - j - 25) by (unfold e' in *; rewrite fexp_eq in *; lia).
    assert (Hs48 : 48 - d1 <= s) by (unfold s; lia).
    assert (Hm'47 : 2 ^ 47 <= m').
    { rewrite Hm'.
      assert (2 ^ 47 <= 2 ^ (d1 - 1 + s)) by (apply Z.pow_le_mono_r; lia).
      rewrite pow2_split in H by lia.
      assert (0 < 2 ^ (d1 - 1)) by (apply Z.pow_pos_nonneg; lia).
      nia. }
    assert (Hq24 : 2 ^ 24 <= q).
    { change (2 ^ 47) with (2 ^ 24 * 8388608) in Hm'47. nia. }
    pose proof (Zdigits2_ge_bound q 24 ltac:(lia) Hq24). lia.
  - exact He'K.
  - nia.
  - rewrite new_location_pow23. intros Hin.
    destruct (Z.eqb_spec r 0) as [E | E]; [discriminate | ]. nia.
Qed.

Lemma div_pow2_bound (K j : Z) (a : f32) :
  -126 <= K - j <= 127 ->
  abs_le_pow2 K a = true -> abs_le_pow2 (K - j) (div a (pow2 j)) = true.
Proof.
  intros HKj Ha. unfold div, pow2.
  destruct a as [sa | sa | | sa m1 e1]; try discriminate.
  - reflexivity.
  - cbn [SFdiv].
    apply abs_le_pow2_inv in Ha. destruct Ha as [_ [He1 Hm1]].
    pose proof (div_core_pow2 m1 e1 j K He1 Hm1 ltac:(lia)) as Hcore.
    destruct (SFdiv_core_binary prec emax (Zpos m1) e1 8388608 (j - 23)) as [[q e'] l].
    destruct Hcore as [Hq [Hprec [He' [Hle Hlt]]]].
    apply binary_round_aux_bound; assumption.
Qed.

Lemma in_unit_of_abs_le (f : f32) : abs_le_pow2 0 f = true -> in_unit f = true.
Proof.
  intros Hf. unfold in_unit, one, pow2. cbn [SFopp negb].
  destruct f as [s | s | | s m e]; try discriminate.
  - reflexivity.
  - apply abs_le_pow2_inv in Hf. destruct Hf as [Hb [He Hm]].
    unfold bounded, canonical_mantissa in Hb.
    apply andb_true_iff in Hb. destruct Hb as [Hc _].
    apply Z.eqb_eq in Hc. rewrite fexp_eq in Hc.
    change (Zpos (digits2_pos m)) with (Zdigits2 (Zpos m)) in Hc.
    pose proof (Zdigits2_spec (Zpos m) eq_refl) as [Hlo Hhi].
    assert (Hd : Zdigits2 (Zpos m) - 1 <= 0 - e) by (apply Zdigits2_le_bound; lia).
    assert (Hcases : e < -23 \/ (e = -23 /\ m = 8388608%positive)).
    { destruct (Z_lt_le_dec e (-23)) as [Hl | Hg]; [left; assumption | right].
      assert (e = -23) by lia. subst e. split; [reflexivity | ].
      assert (Zdigits2 (Zpos m) = 24) by lia.
      rewrite H in Hlo. change (0 - -23) with 23 in Hm. change (24 - 1) with 23 in Hlo.
      assert (Zpos m = 2 ^ 23) by lia. change (2 ^ 23) with (Zpos 8388608) in H0.
      congruence. }
    unfold SFleb, SFcompare. change (0 - 23) with (-23).
    destruct Hcases as [Hl | [-> ->]].
    + destruct s.
      * destruct (Z.compare_spec (-23) e); try lia; reflexivity.
      * destruct (Z.compare_spec e (-23)); try lia; reflexivity.
    + destruct s; reflexivity.
Qed.

End Rounding.


Section Handles.

Lemma lookup_fd_head (fd : nat) (f : FILE) (t : list (nat * FILE)) :
  lookup_fd fd ((fd, f) :: t) = Some f.
Proof. cbn [lookup_fd]. rewrite Nat.eqb_refl. reflexivity. Qed.

Lemma fresh_fd_above (t : list (nat * FILE)) (k : nat) (f : FILE) :
  In (k, f) t -> (k < fresh_fd t)%nat.
Proof.
  unfold fresh_fd. induction t as [ | [k' f'] t IH]; cbn [In map fold_right fst].
  - intros [].
  - intros [E | Hin].
    + inversion E; subst. lia.
    + specialize (IH Hin). lia.
Qed.

Lemma remove_fd_absent (fd : nat) (t : list (nat * FILE)) :
  (forall k f, In (k, f) t -> k <> fd) -> remove_fd fd t = t.
Proof.
  unfold remove_fd. induction t as [ | [k f] t IH]; intros Hne; cbn [filter fst].
  - reflexivity.
  - destruct (Nat.eqb_spec k fd) as [E | E]; cbn [negb].
    + exfalso. apply (Hne k f); [left; reflexivity | assumption].
    + f_equal. apply IH. intros k' f' Hin. apply (Hne k' f'). right. assumption.
Qed.

Lemma remove_fd_fresh (t : list (nat * FILE)) : remove_fd (fresh_fd t) t = t.
Proof.
  apply remove_fd_absent. intros k f Hin. pose proof (fresh_fd_above t k f Hin). lia.
Qed.

Lemma remove_fd_head (fd : nat) (f : FILE) (t : list (nat * FILE)) :
  remove_fd fd ((fd, f) :: t) = remove_fd fd t.
Proof. unfold remove_fd. cbn [filter fst]. rewrite Nat.eqb_refl. reflexivity. Qed.

Lemma remove_fd_fresh_head (f : FILE) (t : list (nat * FILE)) :
  remove_fd (fresh_fd t) ((fresh_fd t, f) :: t) = t.
Proof. rewrite remove_fd_head. apply remove_fd_fresh. Qed.

End Handles.

Section Loops.

Lemma vec_set_app (pre : list f32) (y x : f32) (post : list f32) :
  vec_set (length pre) x (pre ++ y :: post) = pre ++ x :: post.
Proof. induction pre as [ | a pre IH]; cbn; [reflexivity | rewrite IH; reflexivity]. Qed.

Lemma fill_loop (g : nat -> f32) (c : nat) :
  forall (i : nat) (pre post : list f32),
    length pre = i -> length post = c ->
    for_loop i c (fun i v => vec_set i (g i) v) (pre ++ post) = pre ++ map g (seq i c).
Proof.
  induction c as [ | c IH]; intros i pre post Hpre Hpost; cbn [for_loop seq map].
  - destruct post; [reflexivity | discriminate].
  - destruct post as [ | y post]; [discriminate | ].
    rewrite <- Hpre at 2. rewrite vec_set_app.
    change (pre ++ g i :: post) with (pre ++ [g i] ++ post). rewrite app_assoc.
    rewrite IH.
    + rewrite <- app_assoc. reflexivity.
    + rewrite length_app. cbn. lia.
    + cbn in Hpost. lia.
Qed.

Lemma fill_loop_0 (g : nat -> f32) (v : list f32) :
  for_loop 0 (length v) (fun i v => vec_set i (g i) v) v = map g (seq 0 (length v)).
Proof. apply (fill_loop g (length v) 0%nat [] v); reflexivity. Qed.

Lemma map_nth_seq {A B} (f : A -> B) (d : A) (l : list A) :
  map (fun i => f (nth i l d)) (seq 0 (length l)) = map f l.
Proof.
  induction l as [ | a l IH]; cbn [length seq map]; [reflexivity | ].
  cbn [nth]. f_equal. rewrite <- seq_shift, map_map. exact IH.
Qed.

Lemma length_int_samples (width count : nat) (raw : list byte) :
  length (int_samples width count raw) = count.
Proof. revert raw. induction count; intros; cbn; [reflexivity | rewrite IHcount; reflexivity]. Qed.

Lemma int_samples_firstn (width count : nat) (raw : list byte) :
  int_samples width count (firstn (count * width) raw) = int_samples width count raw.
Proof.
  revert raw. induction count as [ | c IH]; intros raw; cbn [int_samples]; [reflexivity | ].
  f_equal.
  - rewrite firstn_firstn, Nat.min_l by (cbn [Nat.mul]; lia). reflexivity.
  - cbn [Nat.mul]. rewrite skipn_firstn_comm.
    replace (width + c * width - width)%nat with (c * width)%nat by lia.
    apply IH.
Qed.

Lemma length_vec_resize (n : nat) (v : list f32) : length (vec_resize n v) = n.
Proof.
  unfold vec_resize. rewrite length_app, length_firstn, repeat_length. lia.
Qed.

End Loops.

Section Execution.

Lemma downmix_loop (pcm : list f32) (num_samples : nat) :
  for_loop 0 (length (repeat F32.zero (num_samples / 2)))
    (fun i mono => vec_set i (mean (vec_get (i * 2) pcm) (vec_get (i * 2 + 1) pcm)) mono)
    (repeat F32.zero (num_samples / 2))
  = downmixed pcm num_samples.
Proof.
  rewrite (fill_loop_0 (fun i => mean (vec_get (i * 2) pcm) (vec_get (i * 2 + 1) pcm))).
  rewrite repeat_length. reflexivity.
Qed.

Lemma convert_loop (norm : Z -> f32) (samples : list Z) (v : list f32) :
  length v = length samples ->
  for_loop 0 (length samples) (fun i pcm => vec_set i (norm (nth i samples 0)) pcm) v
  = map norm samples.
Proof.
  intros Hlen. rewrite <- Hlen.
  rewrite (fill_loop_0 (fun i => norm (nth i samples 0))).
  rewrite Hlen. apply map_nth_seq.
Qed.

Lemma length_downmixed (pcm : list f32) (n : nat) : length (downmixed pcm n) = (n / 2)%nat.
Proof. unfold downmixed. rewrite length_map, length_seq. reflexivity. Qed.

Lemma finish_eq (fd : nat) (header : WavHeader.t) (n : nat)
    (d : string -> option (list byte)) (f : FILE) (t : list (nat * FILE))
    (l : list log_line) (pcm : list f32) (r : Z) :
  length pcm = n ->
  finish fd header n (mkState d ((fd, f) :: t) l pcm r) =
  if WavHeader.num_channels header =? 2 then
    Returns true (mkState d (remove_fd fd t) (LOGI_loaded (n / 2) :: LOGI_stereo :: l)
                    (downmixed pcm n) r)
  else Returns true (mkState d (remove_fd fd t) (LOGI_loaded n :: l) pcm r).
Proof.
  intros Hlen.
  cbv beta iota zeta delta [finish bind LOG fclose downmix modify ret push_log set_pcm_data
    set_open_files disk open_files logcat pcm_data sample_rate].
  destruct (WavHeader.num_channels header =? 2).
  - rewrite downmix_loop, length_downmixed, remove_fd_head. reflexivity.
  - rewrite remove_fd_head, Hlen. reflexivity.
Qed.

Lemma read_pcm_eq (header : WavHeader.t) (width : nat) (norm : Z -> f32) (n : nat)
    (d : string -> option (list byte)) (bytes : list byte) (t : list (nat * FILE))
    (l : list log_line) (pcm : list f32) (r : Z) :
  width <> 0%nat -> length pcm = n ->
  read_pcm (fresh_fd t) header width norm n
    (mkState d ((fresh_fd t, mkFILE bytes 44) :: t) l pcm r) =
  pcm_cases header (skipn 44 bytes) width norm n (mkState d t l pcm r).
Proof.
  intros Hw Hlen.
  cbv beta iota zeta delta [read_pcm pcm_cases bind fread LOG fclose modify ret convert
    push_log set_pcm_data set_open_files disk open_files logcat pcm_data sample_rate
    contents position fst snd].
  rewrite lookup_fd_head.
  destruct (Nat.eqb_spec width 0) as [E | _]; [contradiction | ].
  rewrite length_skipn.
  destruct (Nat.ltb_spec ((length bytes - 44) / width) n) as [Hshort | Hfull].
  - destruct (Nat.eqb_spec (Nat.min n ((length bytes - 44) / width)) n) as [E | _]; [lia | ].
    cbn [negb]. rewrite !remove_fd_head, !remove_fd_fresh. reflexivity.
  - rewrite Nat.min_l by assumption. rewrite Nat.eqb_refl. cbn [negb].
    rewrite remove_fd_head, remove_fd_fresh.
    unfold slice. rewrite int_samples_firstn.
    pose proof (convert_loop norm (int_samples width n (skipn 44 bytes)) pcm) as Hloop.
    rewrite length_int_samples in Hloop. rewrite (Hloop Hlen).
    rewrite finish_eq by (rewrite length_map, length_int_samples; reflexivity).
    rewrite remove_fd_fresh. reflexivity.
Qed.

Lemma fread_head (size count fd : nat) (d : string -> option (list byte))
    (f : FILE) (t : list (nat * FILE)) (l : list log_line) (p : list f32) (r : Z) :
  fread size count fd (mkState d ((fd, f) :: t) l p r) =
  let avail := (length (contents f) - position f)%nat in
  let items := if Nat.eqb size 0 then 0%nat else Nat.min count (avail / size) in
  Returns (items, slice (position f) (items * size) (contents f))
    (mkState d ((fd, mkFILE (contents f) (position f + Nat.min (count * size) avail))
                :: remove_fd fd t) l p r).
Proof.
  unfold fread. cbn [open_files]. rewrite lookup_fd_head.
  cbv zeta. cbn [set_open_files disk open_files logcat pcm_data sample_rate].
  rewrite remove_fd_head. reflexivity.
Qed.

Theorem read_wav_eq (filename : string) (s : state) :
  read_wav filename s = read_wav_cases filename s.
Proof.
  destruct s as [d t l p r].
  cbv beta iota zeta delta [read_wav read_wav_cases bind fopen LOG fclose modify ret
    udiv push_log set_pcm_data set_open_files set_sample_rate disk open_files logcat
    pcm_data sample_rate WavHeader.sizeof header_of sample_count with_rate with_buffer].
  destruct (d filename) as [bytes | ]; [ | reflexivity].
  rewrite fread_head.
  cbv beta iota zeta delta [fst snd contents position].
  change (Nat.eqb 44 0) with false. cbv iota.
  rewrite Nat.sub_0_r.
  destruct (Nat.ltb_spec (length bytes) 44) as [Hshort | Hfull].
  - rewrite Nat.div_small by assumption. cbn [Nat.min Nat.eqb negb].
    rewrite !remove_fd_head, !remove_fd_fresh. reflexivity.
  - assert (Hdiv : (1 <= length bytes / 44)%nat)
      by (apply Nat.div_le_lower_bound; lia).
    rewrite (Nat.min_l 1) by assumption. cbn [Nat.eqb negb].
    rewrite (Nat.min_l (1 * 44)) by lia.
    rewrite !remove_fd_fresh.
    change (slice 0 (1 * 44) bytes) with (firstn 44 bytes).
    change (0 + 1 * 44)%nat with 44%nat.
    set (header := WavHeader.load (firstn 44 bytes)).
    unfold tags_ok. rewrite negb_andb.
    destruct (negb (bytes_eqb (WavHeader.riff header) RIFF)
              || negb (bytes_eqb (WavHeader.wave header) WAVE)).
    + rewrite !remove_fd_head, !remove_fd_fresh. reflexivity.
    + destruct (WavHeader.bits_per_sample header / 8 =? 0); [reflexivity | ].
      set (n := Z.to_nat (WavHeader.data_size header / (WavHeader.bits_per_sample header / 8))).
      destruct (WavHeader.bits_per_sample header =? 16).
      * exact (read_pcm_eq header 2 norm16 n d bytes t _ (vec_resize n p) _
                 ltac:(discriminate) (length_vec_resize n p)).
      * destruct (WavHeader.bits_per_sample header =? 32).
        -- exact (read_pcm_eq header 4 norm32 n d bytes t _ (vec_resize n p) _
                    ltac:(discriminate) (length_vec_resize n p)).
        -- rewrite !remove_fd_head, !remove_fd_fresh. reflexivity.
Qed.

End Execution.

Section Inversion.

Lemma pcm_cases_true (header : WavHeader.t) (payload : list byte) (width : nat)
    (norm : Z -> f32) (n : nat) (s s' : state) :
  pcm_cases header payload width norm n s = Returns true s' ->
  (n <= length payload / width)%nat /\
  open_files s' = open_files s /\ sample_rate s' = sample_rate s /\ disk s' = disk s /\
  pcm_data s' =
    (if WavHeader.num_channels header =? 2
     then downmixed (map norm (int_samples width n payload)) n
     else map norm (int_samples width n payload)).
Proof.
  unfold pcm_cases.
  destruct (Nat.ltb_spec (length payload / width) n) as [Hlt | Hge]; [discriminate | ].
  destruct (WavHeader.num_channels header =? 2); intros H; inversion H; subst s';
    cbn; repeat split; auto.
Qed.

Lemma read_wav_true_inv (filename : string) (s s' : state) (bytes : list byte) :
  disk s filename = Some bytes ->
  read_wav filename s = Returns true s' ->
  let header := header_of bytes in
  (44 <= length bytes)%nat /\ tags_ok header = true /\
  (WavHeader.bits_per_sample header = 16 \/ WavHeader.bits_per_sample header = 32) /\
  (sample_count header <= length (skipn 44 bytes) / Z.to_nat (WavHeader.bits_per_sample header / 8))%nat /\
  open_files s' = open_files s /\
  sample_rate s' = to_int (WavHeader.sample_rate header) /\
  pcm_data s' =
    (if WavHeader.num_channels header =? 2
     then downmixed (normalized header (skipn 44 bytes)) (sample_count header)
     else normalized header (skipn 44 bytes)).
Proof.
  intros Hdisk. rewrite read_wav_eq. unfold read_wav_cases. rewrite Hdisk.
  unfold normalized. cbv zeta.
  destruct (Nat.ltb_spec (length bytes) 44) as [Hshort | Hfull]; [discriminate | ].
  destruct (tags_ok (header_of bytes)); cbn [negb]; [ | discriminate].
  destruct (WavHeader.bits_per_sample (header_of bytes) / 8 =? 0); [discriminate | ].
  destruct (Z.eqb_spec (WavHeader.bits_per_sample (header_of bytes)) 16) as [E16 | N16].
  - intros H. apply pcm_cases_true in H. cbn in H. rewrite E16.
    change (Z.to_nat (16 / 8)) with 2%nat. intuition.
  - destruct (Z.eqb_spec (WavHeader.bits_per_sample (header_of bytes)) 32) as [E32 | N32];
      [ | discriminate].
    intros H. apply pcm_cases_true in H. cbn in H. rewrite E32.
    change (Z.to_nat (32 / 8)) with 4%nat. intuition.
Qed.

End Inversion.

Section Bytes.

Lemma byte_val_range (b : byte) : 0 <= byte_val b < 256.
Proof.
  unfold byte_val. pose proof (Byte.to_N_bounded b). lia.
Qed.

Lemma le_unsigned_range (bs : list byte) :
  0 <= le_unsigned bs < 2 ^ (8 * Z.of_nat (length bs)).
Proof.
  induction bs as [ | b bs IH]; cbn [le_unsigned length].
  - cbn. lia.
  - pose proof (byte_val_range b).
    rewrite Nat2Z.inj_succ.
    replace (8 * Z.succ (Z.of_nat (length bs))) with (8 + 8 * Z.of_nat (length bs)) by lia.
    rewrite Z.pow_add_r by lia. change (2 ^ 8) with 256. lia.
Qed.

Lemma le_signed_range (bs : list byte) (k : nat) :
  (length bs <= k)%nat -> (1 <= k)%nat ->
  - 2 ^ (8 * Z.of_nat k - 1) <= le_signed bs < 2 ^ (8 * Z.of_nat k - 1).
Proof.
  intros Hlen Hk. unfold le_signed.
  pose proof (le_unsigned_range bs) as Hu.
  assert (Hbig : 0 < 2 ^ (8 * Z.of_nat k - 1)) by (apply Z.pow_pos_nonneg; lia).
  destruct bs as [ | b bs].
  - change (le_unsigned []) with 0. change (Z.of_nat (length (@nil byte))) with 0.
    change (0 <? 2 ^ (8 * 0 - 1)) with false. cbv iota.
    change (2 ^ (8 * 0)) with 1. lia.
  - set (w := 8 * Z.of_nat (length (b :: bs))) in *.
    assert (Hw : 8 <= w) by (unfold w; cbn [length]; lia).
    assert (Hsplit : 2 ^ w = 2 * 2 ^ (w - 1)).
    { rewrite <- Z.pow_succ_r by lia. f_equal. lia. }
    assert (Hmono : 2 ^ (w - 1) <= 2 ^ (8 * Z.of_nat k - 1)).
    { apply Z.pow_le_mono_r; [lia | ]. unfold w. lia. }
    destruct (Z.ltb_spec (le_unsigned (b :: bs)) (2 ^ (w - 1))); lia.
Qed.

Lemma int_samples_range (width count : nat) (raw : list byte) :
  (1 <= width)%nat ->
  Forall (fun x => - 2 ^ (8 * Z.of_nat width - 1) <= x < 2 ^ (8 * Z.of_nat width - 1))
         (int_samples width count raw).
Proof.
  intros Hw. revert raw. induction count as [ | c IH]; intros raw; cbn [int_samples].
  - constructor.
  - constructor; [ | apply IH].
    apply le_signed_range; [apply firstn_le_length | assumption].
Qed.

Lemma slice_firstn (off len n : nat) (bs : list byte) :
  (off + len <= n)%nat -> slice off len (firstn n bs) = slice off len bs.
Proof.
  intros H. unfold slice. rewrite skipn_firstn_comm, firstn_firstn.
  rewrite Nat.min_l by lia. reflexivity.
Qed.

Lemma bytes_eqb_eq (a b : list byte) : bytes_eqb a b = true <-> a = b.
Proof.
  unfold bytes_eqb. destruct (list_eq_dec Byte.byte_eq_dec a b); split; congruence.
Qed.

End Bytes.

Section UnitInterval.

Lemma of_int_bound (K x : Z) :
  0 <= K <= 127 -> Z.abs x <= 2 ^ K -> F32.abs_le_pow2 K (F32.of_int x) = true.
Proof.
  intros HK Hx. unfold F32.of_int. apply binary_normalize_bound; try lia.
  rewrite Z.sub_0_r. assumption.
Qed.

Lemma norm16_bound (x : Z) :
  - 2 ^ 15 <= x < 2 ^ 15 -> F32.abs_le_pow2 0 (norm16 x) = true.
Proof.
  intros Hx. unfold norm16. change 0 with (15 - 15) at 1.
  apply div_pow2_bound; [lia | ]. apply of_int_bound; lia.
Qed.

Lemma norm32_bound (x : Z) :
  - 2 ^ 31 <= x < 2 ^ 31 -> F32.abs_le_pow2 0 (norm32 x) = true.
Proof.
  intros Hx. unfold norm32. change 0 with (31 - 31) at 1.
  apply div_pow2_bound; [lia | ]. apply of_int_bound; lia.
Qed.

Lemma mean_bound (a b : f32) :
  F32.abs_le_pow2 0 a = true -> F32.abs_le_pow2 0 b = true ->
  F32.abs_le_pow2 0 (mean a b) = true.
Proof.
  intros Ha Hb. unfold mean. change 0 with (1 - 1) at 1.
  apply div_pow2_bound; [lia | ].
  change 1 with (0 + 1) at 1. apply add_bound; [lia | assumption | assumption].
Qed.

Lemma vec_get_bound (i : nat) (pcm : list f32) :
  Forall (fun x => F32.abs_le_pow2 0 x = true) pcm ->
  F32.abs_le_pow2 0 (vec_get i pcm) = true.
Proof.
  intros Hall. unfold vec_get.
  destruct (Nat.lt_ge_cases i (length pcm)) as [Hlt | Hge].
  - rewrite Forall_forall in Hall. apply Hall. apply nth_In. assumption.
  - rewrite nth_overflow by assumption. reflexivity.
Qed.

Lemma downmixed_bound (pcm : list f32) (n : nat) :
  Forall (fun x => F32.abs_le_pow2 0 x = true) pcm ->
  Forall (fun x => F32.abs_le_pow2 0 x = true) (downmixed pcm n).
Proof.
  intros Hall. unfold downmixed. rewrite Forall_map.
  rewrite Forall_forall. intros i _.
  apply mean_bound; apply vec_get_bound; assumption.
Qed.

Lemma normalized_bound (header : WavHeader.t) (payload : list byte) :
  Forall (fun x => F32.abs_le_pow2 0 x = true) (normalized header payload).
Proof.
  unfold normalized. destruct (WavHeader.bits_per_sample header =? 16).
  - rewrite Forall_map.
    eapply Forall_impl; [ | apply (int_samples_range 2); lia].
    intros x Hx. apply norm16_bound. exact Hx.
  - rewrite Forall_map.
    eapply Forall_impl; [ | apply (int_samples_range 4); lia].
    intros x Hx. apply norm32_bound. exact Hx.
Qed.

End UnitInterval.

(** * Exact results on the 16-bit path *)
Section Exact.
Import F32.

Lemma binary_round_aux_exact (s : bool) (m e : Z) :
  0 < m ->
  24 <= Zdigits2 m ->
  -149 <= e + (Zdigits2 m - 24) <= 104 ->
  m mod 2 ^ (Zdigits2 m - 24) = 0 ->
  binary_round_aux prec emax s m e loc_Exact
  = S754_finite s (Z.to_pos (m / 2 ^ (Zdigits2 m - 24))) (e + (Zdigits2 m - 24)).
Proof.
  intros Hm Hd Hrange Hmod.
  unfold binary_round_aux, shr_fexp.
  set (n := Zdigits2 m - 24) in *.
  assert (Hfe : fexp prec emax (Zdigits2 m + e) - e = n) by (rewrite fexp_eq; lia).
  rewrite Hfe.
  pose proof (shr_spec m loc_Exact e n ltac:(lia) ltac:(lia)) as Hshr.
  destruct (shr (shr_record_of_loc m loc_Exact) e n) as [mrs1 e1].
  destruct Hshr as [He1 [Hm1 Hi1]].
  assert (Hex : inexact mrs1 = false) by (apply Hi1; split; [reflexivity | exact Hmod]).
  apply loc_of_shr_record_exact in Hex. rewrite Hex.
  cbn [round_nearest_even]. rewrite Hm1.
  pose proof (Zdigits2_spec m Hm) as [Hlo Hhi].
  assert (Hpn : 0 < 2 ^ n) by (apply Z.pow_pos_nonneg; lia).
  assert (Hsplit : 2 ^ (Zdigits2 m - 1) = 2 ^ 23 * 2 ^ n).
  { rewrite <- pow2_split by lia. f_equal. lia. }
  assert (Hsplit' : 2 ^ (Zdigits2 m) = 2 ^ 24 * 2 ^ n).
  { rewrite <- pow2_split by lia. f_equal. lia. }
  assert (Hq_lo : 2 ^ 23 <= m / 2 ^ n) by (apply Z.div_le_lower_bound; lia).
  assert (Hq_hi : m / 2 ^ n < 2 ^ 24) by (apply Z.div_lt_upper_bound; lia).
  set (q := m / 2 ^ n) in *.
  assert (Hdq : Zdigits2 q = 24).
  { pose proof (Zdigits2_ge_bound q 23 ltac:(lia) Hq_lo).
    pose proof (Zdigits2_spec q ltac:(lia)) as [Hl _].
    pose proof (Zdigits2_nonneg q).
    assert (Zdigits2 q - 1 < 24) by (apply pow2_lt_inv; lia). lia. }
  rewrite shr_nonpos by (rewrite fexp_eq, Hdq; lia).
  cbn [shr_record_of_loc shr_m].
  destruct q as [ | p | p] eqn:Eq; try lia.
  change (emax - prec) with 104.
  destruct (Z.leb_spec e1 104); [ | lia].
  rewrite He1. reflexivity.
Qed.


Lemma Zdigits2_unique (m d : Z) :
  0 < m -> 2 ^ (d - 1) <= m < 2 ^ d -> Zdigits2 m = d.
Proof.
  intros Hm [Hlo Hhi].
  pose proof (Zdigits2_spec m Hm) as [Hlo' Hhi'].
  pose proof (Zdigits2_nonneg m) as Hnn.
  assert (Hd : 0 < d).
  { destruct (Z_lt_le_dec 0 d) as [H | H]; [exact H | exfalso].
    assert (2 ^ d <= 2 ^ 0) by (apply Z.pow_le_mono_r; lia).
    change (2 ^ 0) with 1 in H0. lia. }
  assert (Hz : 0 < Zdigits2 m).
  { destruct (Z.eq_dec (Zdigits2 m) 0) as [E | E]; [ | lia].
    rewrite E in Hhi'. change (2 ^ 0) with 1 in Hhi'. lia. }
  assert (d - 1 < Zdigits2 m) by (apply pow2_lt_inv; lia).
  assert (Zdigits2 m - 1 < d) by (apply pow2_lt_inv; lia).
  lia.
Qed.

Lemma Zdigits2_shift (m j : Z) :
  0 < m -> 0 <= j -> Zdigits2 (m * 2 ^ j) = Zdigits2 m + j.
Proof.
  intros Hm Hj.
  pose proof (Zdigits2_spec m Hm) as [Hlo Hhi].
  assert (Hpj : 0 < 2 ^ j) by (apply Z.pow_pos_nonneg; lia).
  assert (Hd : 1 <= Zdigits2 m).
  { destruct m as [ | p | p]; try lia. cbn [Zdigits2]. lia. }
  apply Zdigits2_unique; [nia | ].
  replace (Zdigits2 m + j - 1) with ((Zdigits2 m - 1) + j) by lia.
  rewrite !pow2_split by lia. nia.
Qed.


Lemma binary_round_exact (s : bool) (p : positive) (e : Z) :
  -149 <= Zdigits2 (Zpos p) + e - 24 <= 104 ->
  (24 < Zdigits2 (Zpos p) -> Zpos p mod 2 ^ (Zdigits2 (Zpos p) - 24) = 0) ->
  binary_round prec emax s p e
  = S754_finite s (Z.to_pos (mantissa24 (Zpos p))) (Zdigits2 (Zpos p) + e - 24).
Proof.
  intros Hrange Hmod. unfold binary_round, mantissa24.
  set (D := Zdigits2 (Zpos p)) in *.
  assert (HD : 1 <= D) by (unfold D; cbn [Zdigits2]; lia).
  pose proof (shl_align_spec p e (fexp prec emax (Zpos (digits2_pos p) + e))) as Hal.
  destruct (shl_align p e (fexp prec emax (Zpos (digits2_pos p) + e))) as [mz ez].
  destruct Hal as [Hez [Hmz Hdz]].
  change (Zpos (digits2_pos p)) with D in Hez.
  rewrite fexp_eq in Hez. fold D in Hdz.
  destruct (Z_le_gt_dec D 24) as [Hle | Hgt].
  - assert (Eez : ez = D + e - 24) by lia.
    assert (Edz : Zdigits2 (Zpos mz) = 24) by lia.
    assert (Hm0 : Zpos mz mod 2 ^ (Zdigits2 (Zpos mz) - 24) = 0).
    { rewrite Edz. change (24 - 24) with 0. rewrite Z.pow_0_r. apply Z.mod_1_r. }
    rewrite (binary_round_aux_exact s (Zpos mz) ez eq_refl) by (first [exact Hm0 | rewrite Edz; lia]).
    rewrite Edz. change (24 - 24) with 0. rewrite Z.pow_0_r, Z.div_1_r.
    f_equal; [ | lia]. f_equal. rewrite Hmz.
    replace (e - ez) with (24 - D) by lia.
    replace (2 ^ 24) with (2 ^ (24 - D) * 2 ^ D) by (rewrite <- pow2_split by lia; f_equal; lia).
    rewrite Z.mul_assoc, Z.div_mul; [reflexivity | ].
    apply Z.pow_nonzero; lia.
  - assert (Eez : ez = e) by lia.
    assert (Emz : Zpos mz = Zpos p) by (rewrite Hmz, Eez, Z.sub_diag; cbn; lia).
    rewrite Emz.
    rewrite (binary_round_aux_exact s (Zpos p) ez eq_refl) by (fold D; first [lia | apply Hmod; lia]).
    fold D. f_equal; [ | lia]. f_equal.
    replace (2 ^ D) with (2 ^ 24 * 2 ^ (D - 24)) by (rewrite <- pow2_split by lia; f_equal; lia).
    rewrite (Z.mul_comm (Zpos p)).
    rewrite Z.div_mul_cancel_l; [reflexivity | | ]; apply Z.pow_nonzero; lia.
Qed.


Lemma Zdigits2_small (m : Z) : 0 < m -> m < 2 ^ 24 -> Zdigits2 m <= 24.
Proof.
  intros Hm Hlt. pose proof (Zdigits2_spec m Hm) as [Hlo _].
  pose proof (Zdigits2_nonneg m).
  assert (Zdigits2 m - 1 < 24) by (apply pow2_lt_inv; lia). lia.
Qed.

Lemma mantissa24_shift (m j : Z) :
  0 < m -> 0 <= j -> mantissa24 (m * 2 ^ j) = mantissa24 m.
Proof.
  intros Hm Hj. unfold mantissa24. rewrite Zdigits2_shift by assumption.
  pose proof (Zdigits2_nonneg m).
  rewrite pow2_split by lia.
  replace (m * 2 ^ j * 2 ^ 24) with (m * 2 ^ 24 * 2 ^ j) by ring.
  apply Z.div_mul_cancel_r; apply Z.pow_nonzero; lia.
Qed.

Lemma binary_round_shift (s : bool) (p q : positive) (k j : Z) :
  0 <= j -> Zpos q = Zpos p * 2 ^ j -> Zpos p < 2 ^ 24 ->
  -149 <= Zdigits2 (Zpos p) + k - 24 <= 104 ->
  binary_round prec emax s q (k - j) = binary_round prec emax s p k.
Proof.
  intros Hj Hq Hp Hrange.
  pose proof (Zdigits2_small (Zpos p) eq_refl Hp) as Hd.
  assert (HD : 1 <= Zdigits2 (Zpos p)) by (cbn [Zdigits2]; lia).
  assert (Hdq : Zdigits2 (Zpos q) = Zdigits2 (Zpos p) + j)
    by (rewrite Hq; apply Zdigits2_shift; lia).
  rewrite (binary_round_exact s p k) by lia.
  rewrite (binary_round_exact s q (k - j)).
  - rewrite Hdq, Hq, mantissa24_shift by lia. f_equal. lia.
  - rewrite Hdq. lia.
  - rewrite Hdq. intros Hbig. rewrite Hq.
    replace j with ((j - (Zdigits2 (Zpos p) + j - 24)) + (Zdigits2 (Zpos p) + j - 24)) at 1 by lia.
    rewrite pow2_split by lia. rewrite Z.mul_assoc. apply Z.mod_mul.
    apply Z.pow_nonzero; lia.
Qed.

Lemma dyadic_shift (z k j : Z) :
  0 <= j -> Z.abs z < 2 ^ 24 ->
  -149 <= Zdigits2 (Z.abs z) + k - 24 <= 104 ->
  F32.dyadic (z * 2 ^ j) (k - j) = F32.dyadic z k.
Proof.
  intros Hj Hz Hrange. unfold F32.dyadic.
  assert (Hpj : 0 < 2 ^ j) by (apply Z.pow_pos_nonneg; lia).
  destruct z as [ | p | p].
  - reflexivity.
  - destruct (Zpos p * 2 ^ j) as [ | q | q] eqn:E; try lia.
    cbn [binary_normalize]. apply binary_round_shift; auto.
  - destruct (Zneg p * 2 ^ j) as [ | q | q] eqn:E; try lia.
    cbn [binary_normalize]. apply binary_round_shift; auto.
    change (Zneg p) with (- Zpos p) in E. lia.
Qed.

Lemma dyadic_finite (z k : Z) :
  z <> 0 -> Z.abs z < 2 ^ 24 ->
  -149 <= Zdigits2 (Z.abs z) + k - 24 <= 104 ->
  F32.dyadic z k = S754_finite (z <? 0) (Z.to_pos (mantissa24 (Z.abs z)))
                 (Zdigits2 (Z.abs z) + k - 24).
Proof.
  intros Hnz Hz Hrange. unfold F32.dyadic.
  destruct z as [ | p | p]; [contradiction | | ]; cbn [binary_normalize Z.abs Z.ltb Z.compare] in *.
  - apply binary_round_exact; [lia | ].
    pose proof (Zdigits2_small (Zpos p) eq_refl Hz). lia.
  - apply binary_round_exact; [lia | ].
    pose proof (Zdigits2_small (Zpos p) eq_refl Hz). lia.
Qed.

Lemma mantissa24_digits (m : Z) :
  0 < m -> m < 2 ^ 24 ->
  2 ^ 23 <= mantissa24 m < 2 ^ 24 /\
  mantissa24 m = m * 2 ^ (24 - Zdigits2 m).
Proof.
  intros Hm Hlt. unfold mantissa24.
  pose proof (Zdigits2_small m Hm Hlt) as Hd.
  pose proof (Zdigits2_spec m Hm) as [Hlo Hhi].
  assert (HD : 1 <= Zdigits2 m).
  { destruct m as [ | p | p]; try lia. cbn [Zdigits2]. lia. }
  assert (E : m * 2 ^ 24 / 2 ^ Zdigits2 m = m * 2 ^ (24 - Zdigits2 m)).
  { replace (2 ^ 24) with (2 ^ (24 - Zdigits2 m) * 2 ^ Zdigits2 m)
      by (rewrite <- pow2_split by lia; f_equal; lia).
    rewrite Z.mul_assoc. apply Z.div_mul. apply Z.pow_nonzero; lia. }
  rewrite E. split; [ | reflexivity].
  assert (H23 : 2 ^ 23 = 2 ^ (Zdigits2 m - 1) * 2 ^ (24 - Zdigits2 m))
    by (rewrite <- pow2_split by lia; f_equal; lia).
  assert (H24 : 2 ^ 24 = 2 ^ Zdigits2 m * 2 ^ (24 - Zdigits2 m))
    by (rewrite <- pow2_split by lia; f_equal; lia).
  assert (0 < 2 ^ (24 - Zdigits2 m)) by (apply Z.pow_pos_nonneg; lia).
  rewrite H23, H24. nia.
Qed.


Lemma div_eucl_exact (a b q : Z) : 0 < b -> a = b * q -> Z.div_eucl a b = (q, 0).
Proof.
  intros Hb Ha. pose proof (Z_div_mod a b ltac:(lia)) as H.
  destruct (Z.div_eucl a b) as [q' r']. destruct H as [Heq Hr].
  assert (q' = q) by nia. subst q'. f_equal. nia.
Qed.

Lemma div_pow2_exact (s : bool) (m : positive) (e j : Z) :
  Zdigits2 (Zpos m) = 24 -> -149 <= e - j <= 104 ->
  div (S754_finite s m e) (pow2 j) = S754_finite s m (e - j).
Proof.
  intros Hd Hrange. unfold div, pow2. cbn [SFdiv]. unfold SFdiv_core_binary.
  change (Zdigits2 8388608) with 24. rewrite Hd, fexp_eq, xorb_false_r.
  destruct (Z_le_gt_dec (-148) (e - j)) as [Hnorm | Hsub].
  - replace (Z.min (Z.max (24 + e - (24 + (j - 23)) - 24) (-149)) (e - (j - 23)))
      with (e - j - 1) by lia.
    replace (e - (j - 23) - (e - j - 1)) with 24 by lia.
    rewrite (div_eucl_exact (Z.shiftl (Zpos m) 24) 8388608 (2 * Zpos m))
      by (rewrite ?Z.shiftl_mul_pow2 by lia; change (2 ^ 24) with 16777216; lia).
    change (new_location 8388608 0) with loc_Exact.
    assert (Hd2 : Zdigits2 (2 * Zpos m) = 25).
    { replace (2 * Zpos m) with (Zpos m * 2 ^ 1) by (change (2 ^ 1) with 2; lia).
      rewrite Zdigits2_shift by lia. lia. }
    rewrite binary_round_aux_exact; rewrite ?Hd2; try lia.
    + change (25 - 24) with 1. change (2 ^ 1) with 2.
      rewrite (Z.mul_comm 2), Z.div_mul by lia. cbn [Z.to_pos]. f_equal. lia.
    + change (25 - 24) with 1. change (2 ^ 1) with 2.
      rewrite (Z.mul_comm 2). apply Z.mod_mul. lia.
  - replace (Z.min (Z.max (24 + e - (24 + (j - 23)) - 24) (-149)) (e - (j - 23)))
      with (-149) by lia.
    replace (e - (j - 23) - -149) with 23 by lia.
    rewrite (div_eucl_exact (Z.shiftl (Zpos m) 23) 8388608 (Zpos m))
      by (rewrite ?Z.shiftl_mul_pow2 by lia; change (2 ^ 23) with 8388608; lia).
    change (new_location 8388608 0) with loc_Exact.
    rewrite binary_round_aux_exact; rewrite ?Hd; try lia.
    + change (24 - 24) with 0. rewrite Z.pow_0_r, Z.div_1_r. cbn [Z.to_pos]. f_equal. lia.
    + change (24 - 24) with 0. rewrite Z.pow_0_r. apply Z.mod_1_r.
Qed.

Lemma dyadic_digits (z k : Z) :
  z <> 0 -> Z.abs z < 2 ^ 24 ->
  Zdigits2 (Zpos (Z.to_pos (mantissa24 (Z.abs z)))) = 24.
Proof.
  intros Hnz Hz.
  destruct (mantissa24_digits (Z.abs z) ltac:(lia) Hz) as [[Hlo Hhi] _].
  rewrite Z2Pos.id by lia.
  apply Zdigits2_unique; [lia | ]. change (24 - 1) with 23. lia.
Qed.

Lemma div_dyadic (z k j : Z) :
  Z.abs z < 2 ^ 24 ->
  -149 <= Zdigits2 (Z.abs z) + k - 24 <= 104 ->
  -149 <= Zdigits2 (Z.abs z) + (k - j) - 24 <= 104 ->
  div (F32.dyadic z k) (pow2 j) = F32.dyadic z (k - j).
Proof.
  intros Hz Hk Hkj.
  destruct (Z.eq_dec z 0) as [-> | Hnz]; [reflexivity | ].
  rewrite !dyadic_finite by assumption.
  rewrite div_pow2_exact; [f_equal; lia | apply (dyadic_digits z k); assumption | lia].
Qed.


Lemma dyadic_range (z k : Z) :
  Z.abs z < 2 ^ 24 -> -125 <= k <= 80 ->
  -149 <= Zdigits2 (Z.abs z) + k - 24 <= 104.
Proof.
  intros Hz Hk. pose proof (Zdigits2_nonneg (Z.abs z)).
  destruct (Z.eq_dec z 0) as [-> | Hnz]; [cbn; lia | ].
  pose proof (Zdigits2_small (Z.abs z) ltac:(lia) Hz). lia.
Qed.

Lemma aligned_mantissa (z k ez : Z) :
  z <> 0 -> Z.abs z < 2 ^ 24 ->
  ez <= Zdigits2 (Z.abs z) + k - 24 ->
  cond_Zopp (z <? 0)
    (Zpos (fst (shl_align (Z.to_pos (mantissa24 (Z.abs z)))
                  (Zdigits2 (Z.abs z) + k - 24) ez)))
  = z * 2 ^ (k - ez).
Proof.
  intros Hnz Hz Hez.
  pose proof (shl_align_spec (Z.to_pos (mantissa24 (Z.abs z)))
                (Zdigits2 (Z.abs z) + k - 24) ez) as Hal.
  destruct (shl_align _ _ ez) as [mz ez'] eqn:E. cbn [fst].
  destruct Hal as [Hez' [Hmz _]].
  destruct (mantissa24_digits (Z.abs z) ltac:(lia) Hz) as [[Hlo Hhi] Hman].
  rewrite Z2Pos.id in Hmz by lia.
  pose proof (Zdigits2_small (Z.abs z) ltac:(lia) Hz) as Hd.
  rewrite Hmz, Hman, <- Z.mul_assoc, <- pow2_split by lia.
  replace (24 - Zdigits2 (Z.abs z) + (Zdigits2 (Z.abs z) + k - 24 - ez')) with (k - ez) by lia.
  unfold cond_Zopp. destruct (Z.ltb_spec z 0); lia.
Qed.

Lemma add_dyadic (z1 z2 k : Z) :
  Z.abs z1 < 2 ^ 24 -> Z.abs z2 < 2 ^ 24 -> Z.abs (z1 + z2) < 2 ^ 24 ->
  -125 <= k <= 80 ->
  add (F32.dyadic z1 k) (F32.dyadic z2 k) = F32.dyadic (z1 + z2) k.
Proof.
  intros H1 H2 H12 Hk.
  pose proof (dyadic_range z1 k H1 Hk) as R1.
  pose proof (dyadic_range z2 k H2 Hk) as R2.
  pose proof (dyadic_range (z1 + z2) k H12 Hk) as R12.
  destruct (Z.eq_dec z1 0) as [-> | N1].
  { rewrite Z.add_0_l. destruct (Z.eq_dec z2 0) as [-> | N2]; [reflexivity | ].
    rewrite (dyadic_finite z2 k) by assumption. reflexivity. }
  destruct (Z.eq_dec z2 0) as [-> | N2].
  { rewrite Z.add_0_r. rewrite (dyadic_finite z1 k) by assumption. reflexivity. }
  rewrite (dyadic_finite z1 k), (dyadic_finite z2 k) by assumption.
  unfold add. cbn [SFadd].
  set (ez := Z.min (Zdigits2 (Z.abs z1) + k - 24) (Zdigits2 (Z.abs z2) + k - 24)).
  rewrite (aligned_mantissa z1 k ez) by (assumption || (unfold ez; lia)).
  rewrite (aligned_mantissa z2 k ez) by (assumption || (unfold ez; lia)).
  rewrite <- Z.mul_add_distr_r.
  pose proof (Zdigits2_small (Z.abs z1) ltac:(lia) H1).
  replace ez with (k - (k - ez)) at 2 by lia.
  apply dyadic_shift; [unfold ez; lia | assumption | assumption].
Qed.


Lemma to_Q_dyadic (z k : Z) :
  Z.abs z < 2 ^ 24 -> -125 <= k <= 80 ->
  (F32.to_Q (F32.dyadic z k) == inject_Z z * 2 ^ k)%Q.
Proof.
  intros Hz Hk.
  destruct (Z.eq_dec z 0) as [-> | Hnz].
  { cbn [F32.dyadic binary_normalize F32.to_Q]. rewrite Qmult_0_l. reflexivity. }
  pose proof (dyadic_range z k Hz Hk) as Hr.
  rewrite dyadic_finite by assumption. cbn [F32.to_Q].
  destruct (mantissa24_digits (Z.abs z) ltac:(lia) Hz) as [[Hlo Hhi] Hman].
  pose proof (Zdigits2_small (Z.abs z) ltac:(lia) Hz) as Hd.
  rewrite Z2Pos.id by lia. rewrite Hman, inject_Z_mult.
  rewrite (Zpower_Qpower 2 (24 - Zdigits2 (Z.abs z))) by lia.
  change (inject_Z 2) with 2%Q.
  assert (H2 : ~ (2 == 0)%Q) by discriminate.
  replace k with ((24 - Zdigits2 (Z.abs z)) + (Zdigits2 (Z.abs z) + k - 24)) at 2 by lia.
  rewrite (Qpower_plus 2 _ _ H2).
  assert (Hs : ((if z <? 0 then -1 else 1) * inject_Z (Z.abs z) == inject_Z z)%Q).
  { destruct (Z.ltb_spec z 0).
    - replace (Z.abs z) with (- z) by lia. rewrite inject_Z_opp. ring.
    - replace (Z.abs z) with z by lia. ring. }
  rewrite <- Hs. ring.
Qed.

End Exact.

Section Sixteen.

Lemma norm16_dyadic (x : Z) :
  - 2 ^ 15 <= x < 2 ^ 15 -> norm16 x = F32.dyadic x (-15).
Proof.
  intros Hx. unfold norm16.
  change (F32.of_int x) with (F32.dyadic x 0).
  assert (Hz : Z.abs x < 2 ^ 24) by lia.
  change (-15) with (0 - 15).
  apply div_dyadic; [exact Hz | | ].
  - apply dyadic_range; [exact Hz | lia].
  - apply dyadic_range; [exact Hz | lia].
Qed.

Lemma mean_norm16 (x y : Z) :
  - 2 ^ 15 <= x < 2 ^ 15 -> - 2 ^ 15 <= y < 2 ^ 15 ->
  mean (norm16 x) (norm16 y) = F32.dyadic (x + y) (-16).
Proof.
  intros Hx Hy. unfold mean. rewrite !norm16_dyadic by assumption.
  rewrite add_dyadic by lia.
  change (-16) with (-15 - 1).
  apply div_dyadic; [lia | | ]; apply dyadic_range; lia.
Qed.

Lemma norm16_value (x : Z) :
  - 2 ^ 15 <= x < 2 ^ 15 -> (F32.to_Q (norm16 x) == x # 32768)%Q.
Proof.
  intros Hx. rewrite norm16_dyadic by assumption.
  rewrite to_Q_dyadic by lia.
  change (2 ^ (-15))%Q with (1 # 32768)%Q.
  unfold Qeq. cbn. lia.
Qed.

Lemma mean_norm16_value (x y : Z) :
  - 2 ^ 15 <= x < 2 ^ 15 -> - 2 ^ 15 <= y < 2 ^ 15 ->
  (F32.to_Q (mean (norm16 x) (norm16 y)) == (x + y) # 65536)%Q.
Proof.
  intros Hx Hy. rewrite mean_norm16 by assumption.
  rewrite to_Q_dyadic by lia.
  change (2 ^ (-16))%Q with (1 # 65536)%Q.
  unfold Qeq. cbn. lia.
Qed.

End Sixteen.

(** * The exit paths of [read_wav], one lemma per path *)

(** Run [read_wav] on a file known to be on disk, up to the header read
    ([open_file]) or past a header known to be complete ([past_header]). *)
Ltac open_file Hdisk :=
  rewrite read_wav_eq; unfold read_wav_cases; rewrite Hdisk; cbv zeta.
Ltac past_header Hdisk :=
  open_file Hdisk;
  match goal with
  | |- context [(length ?b <? 44)%nat] =>
      destruct (Nat.ltb_spec (length b) 44); [lia | ]
  end.

Section Paths.

Variable filename : string.
Variable s : state.

Lemma path_open :
  disk s filename = None ->
  read_wav filename s = Returns false (push_log (LOGE_open filename) s).
Proof. intros Hd. rewrite read_wav_eq. unfold read_wav_cases. rewrite Hd. reflexivity. Qed.

Variable bytes : list byte.
Hypothesis Hdisk : disk s filename = Some bytes.

Lemma path_header :
  (length bytes < 44)%nat ->
  read_wav filename s = Returns false (push_log LOGE_header s).
Proof.
  intros Hlen. open_file Hdisk.
  destruct (Nat.ltb_spec (length bytes) 44); [reflexivity | lia].
Qed.

Hypothesis Hlen : (44 <= length bytes)%nat.

Lemma path_format :
  tags_ok (header_of bytes) = false ->
  read_wav filename s = Returns false (push_log LOGE_format s).
Proof.
  intros Htags. past_header Hdisk.
  rewrite Htags. reflexivity.
Qed.

Hypothesis Htags : tags_ok (header_of bytes) = true.

Lemma path_division :
  WavHeader.bits_per_sample (header_of bytes) / 8 = 0 ->
  read_wav filename s = Undefined DivisionByZero.
Proof.
  intros Hz. past_header Hdisk.
  rewrite Htags, Hz. reflexivity.
Qed.


Lemma path_pcm16 :
  WavHeader.bits_per_sample (header_of bytes) = 16 ->
  read_wav filename s =
  pcm_cases (header_of bytes) (skipn 44 bytes) 2 norm16
    (sample_count (header_of bytes)) (with_buffer (header_of bytes) s).
Proof.
  intros H16. past_header Hdisk.
  rewrite Htags, H16. reflexivity.
Qed.

Lemma path_pcm32 :
  WavHeader.bits_per_sample (header_of bytes) = 32 ->
  read_wav filename s =
  pcm_cases (header_of bytes) (skipn 44 bytes) 4 norm32
    (sample_count (header_of bytes)) (with_buffer (header_of bytes) s).
Proof.
  intros H32. past_header Hdisk.
  rewrite Htags, H32. reflexivity.
Qed.

End Paths.

(** * Downmix *)
Section Downmix.

Lemma nth_map_seq {A} (g : nat -> A) (m i : nat) (d : A) :
  (i < m)%nat -> nth i (map g (seq 0 m)) d = g i.
Proof.
  intros Hi. rewrite (nth_indep _ d (g 0%nat)) by (rewrite length_map, length_seq; exact Hi).
  rewrite map_nth, seq_nth by exact Hi. reflexivity.
Qed.

Lemma length_normalized (header : WavHeader.t) (payload : list byte) :
  length (normalized header payload) = sample_count header.
Proof.
  unfold normalized. destruct (WavHeader.bits_per_sample header =? 16);
    rewrite length_map, length_int_samples; reflexivity.
Qed.

End Downmix.

(** C1: for every successful decode of a file whose header declares two
    channels, the returned sequence has length [sample_count / 2] and its
    element [i] is the mean [(a + b) / 2.0f] of the normalized samples at
    interleaved positions [2i] and [2i+1]; with one channel the normalized
    sequence is returned as it is.  On the 16-bit path no rounding occurs:
    as rational numbers, a mono sample is [x / 32768] and a downmixed
    sample is [(l + r) / 65536].  The stereo 16-bit file with samples
    16384, -16384, 8192, 8192 at 16000 Hz decodes to rate 16000 and the two
    samples 0.0 and 0.25. *)
Theorem downmix_correct (filename : string) (s s' : state) (bytes : list byte) :
  disk s filename = Some bytes ->
  read_wav filename s = Returns true s' ->
  let header := header_of bytes in
  let interleaved := normalized header (skipn 44 bytes) in
  let samples := int_samples 2 (sample_count header) (skipn 44 bytes) in
  length interleaved = sample_count header /\
  (WavHeader.num_channels header = 2 ->
     length (pcm_data s') = (sample_count header / 2)%nat /\
     forall i, (i < sample_count header / 2)%nat ->
       nth i (pcm_data s') F32.zero =
       mean (nth (2 * i) interleaved F32.zero) (nth (2 * i + 1) interleaved F32.zero)) /\
  (WavHeader.num_channels header = 1 -> pcm_data s' = interleaved) /\
  (WavHeader.bits_per_sample header = 16 ->
     (WavHeader.num_channels header = 2 ->
        forall i, (i < sample_count header / 2)%nat ->
          (F32.to_Q (nth i (pcm_data s') F32.zero)
           == (nth (2 * i) samples 0 + nth (2 * i + 1) samples 0)%Z # 65536)%Q) /\
     (WavHeader.num_channels header = 1 ->
        forall i, (i < sample_count header)%nat ->
          (F32.to_Q (nth i (pcm_data s') F32.zero) == nth i samples 0%Z # 32768)%Q)) /\
  result_of (read_wav "stereo.wav" (boot (Some stereo_example)))
    = Some (true, 16000, [F32.zero; F32.pow2 (-2)]).
Proof.
  intros Hdisk Hret header interleaved samples.
  destruct (read_wav_true_inv filename s s' bytes Hdisk Hret)
    as (_ & _ & _ & _ & _ & _ & Hpcm).
  fold header in Hpcm. fold interleaved in Hpcm.
  assert (Hstereo : WavHeader.num_channels header = 2 ->
            length (pcm_data s') = (sample_count header / 2)%nat /\
            forall i, (i < sample_count header / 2)%nat ->
              nth i (pcm_data s') F32.zero =
              mean (nth (2 * i) interleaved F32.zero)
                   (nth (2 * i + 1) interleaved F32.zero)).
  { intros H2. rewrite H2 in Hpcm. cbn [Z.eqb Pos.eqb] in Hpcm. rewrite Hpcm.
    split; [apply length_downmixed | ].
    intros i Hi. unfold downmixed. rewrite nth_map_seq by exact Hi.
    unfold vec_get. rewrite (Nat.mul_comm i 2). reflexivity. }
  assert (Hmono : WavHeader.num_channels header = 1 -> pcm_data s' = interleaved).
  { intros H1. rewrite H1 in Hpcm. exact Hpcm. }
  split; [apply length_normalized | ].
  split; [exact Hstereo | ]. split; [exact Hmono | ].
  split; [ | vm_compute; reflexivity].
  intros H16.
  assert (Hint : interleaved = map norm16 samples).
  { unfold interleaved, normalized. rewrite H16. reflexivity. }
  assert (Hnth : forall j, nth j interleaved F32.zero = norm16 (nth j samples 0)).
  { intros j. rewrite Hint. change F32.zero with (norm16 0). apply map_nth. }
  assert (Hrange : forall j, (j < sample_count header)%nat ->
            - 2 ^ 15 <= nth j samples 0 < 2 ^ 15).
  { intros j Hj.
    pose proof (int_samples_range 2 (sample_count header) (skipn 44 bytes) ltac:(lia)) as Hall.
    rewrite Forall_forall in Hall. apply Hall. apply nth_In.
    unfold samples. rewrite length_int_samples. exact Hj. }
  split.
  - intros H2 i Hi. destruct (Hstereo H2) as [_ Hel].
    rewrite (Hel i Hi), !Hnth.
    assert (Hdiv : (2 * (sample_count header / 2) <= sample_count header)%nat)
      by (apply Nat.Div0.mul_div_le).
    apply mean_norm16_value; apply Hrange; lia.
  - intros H1 i Hi. rewrite (Hmono H1), Hnth.
    apply norm16_value. apply Hrange. exact Hi.
Qed.

Lemma downmix_correct_witness :
  disk (boot (Some stereo_example)) "stereo.wav" = Some stereo_example /\
  read_wav "stereo.wav" (boot (Some stereo_example)) = Returns true stereo_decoded /\
  length (pcm_data stereo_decoded) = (sample_count (header_of stereo_example) / 2)%nat /\
  nth 1 (pcm_data stereo_decoded) F32.zero =
    mean (nth 2 (normalized (header_of stereo_example) (skipn 44 stereo_example)) F32.zero)
         (nth 3 (normalized (header_of stereo_example) (skipn 44 stereo_example)) F32.zero).
Proof.
  assert (Hd : disk (boot (Some stereo_example)) "stereo.wav" = Some stereo_example)
    by reflexivity.
  assert (Hr : read_wav "stereo.wav" (boot (Some stereo_example)) = Returns true stereo_decoded)
    by (vm_compute; reflexivity).
  pose proof (downmix_correct "stereo.wav" _ _ _ Hd Hr) as (_ & Hstereo & _).
  destruct (Hstereo eq_refl) as [Hlen Hnth].
  split; [exact Hd | ]. split; [exact Hr | ]. split; [exact Hlen | ].
  apply (Hnth 1%nat). vm_compute. lia.
Defined.

(** * Normalization range *)

(** C2, as stated, fails for 32-bit input: the integer maximum 2147483647
    has no float32 representation, the conversion rounds it to 2147483648.0f
    and the quotient is exactly 1.0f, not strictly less. *)
Lemma full_scale_reaches_one :
  F32.of_int 2147483647 = F32.pow2 31 /\
  norm32 2147483647 = F32.one /\
  SFltb (norm32 2147483647) F32.one = false /\
  read_wav "full.wav" (boot (Some full_scale_example)) = Returns true full_scale_decoded /\
  pcm_data full_scale_decoded = [F32.one].
Proof. vm_compute. repeat split; reflexivity. Qed.

(** C2 (amended): every sample of a successfully decoded output lies in
    the closed interval [-1.0, 1.0]; 16-bit samples are divided by 32768.0f
    and 32-bit samples by 2147483648.0f; the integer minimum maps to exactly
    -1.0 for both depths; the 16-bit maximum maps strictly below +1.0, the
    32-bit maximum maps to exactly +1.0. *)
Theorem samples_in_unit_interval (filename : string) (s s' : state) :
  read_wav filename s = Returns true s' ->
  Forall (fun x => F32.in_unit x = true) (pcm_data s') /\
  (forall x, norm16 x = F32.div (F32.of_int x) (F32.of_int 32768)) /\
  (forall x, norm32 x = F32.div (F32.of_int x) (F32.of_int 2147483648)) /\
  norm16 (-32768) = SFopp F32.one /\
  norm32 (-2147483648) = SFopp F32.one /\
  SFltb (norm16 32767) F32.one = true /\
  norm32 2147483647 = F32.one.
Proof.
  intros Hret. split; [ | repeat split; vm_compute; reflexivity].
  destruct (disk s filename) as [bytes | ] eqn:Hdisk.
  - destruct (read_wav_true_inv filename s s' bytes Hdisk Hret)
      as (_ & _ & _ & _ & _ & _ & Hpcm).
    rewrite Hpcm.
    assert (Hall : Forall (fun x => F32.abs_le_pow2 0 x = true)
                     (if WavHeader.num_channels (header_of bytes) =? 2
                      then downmixed (normalized (header_of bytes) (skipn 44 bytes))
                             (sample_count (header_of bytes))
                      else normalized (header_of bytes) (skipn 44 bytes))).
    { destruct (WavHeader.num_channels (header_of bytes) =? 2).
      - apply downmixed_bound, normalized_bound.
      - apply normalized_bound. }
    eapply Forall_impl; [ | exact Hall].
    intros x Hx. apply in_unit_of_abs_le. exact Hx.
  - rewrite (path_open filename s Hdisk) in Hret. discriminate.
Qed.

Lemma samples_in_unit_interval_witness :
  read_wav "full.wav" (boot (Some full_scale_example)) = Returns true full_scale_decoded /\
  Forall (fun x => F32.in_unit x = true) (pcm_data full_scale_decoded).
Proof.
  assert (Hr : read_wav "full.wav" (boot (Some full_scale_example))
               = Returns true full_scale_decoded) by (vm_compute; reflexivity).
  split; [exact Hr | ].
  exact (proj1 (samples_in_unit_interval "full.wav" _ _ Hr)).
Defined.

(** * Bit-depth dispatch *)



Example depth8_rejected :
  failure (read_wav "depth8.wav" (boot (Some depth8_example)))
  = Some (UnsupportedBitDepthError 8).
Proof. vm_compute. reflexivity. Qed.

(** * Truncated payload *)


(** * Header validation *)
Section Validation.

Lemma tags_ok_spec (bytes : list byte) :
  (44 <= length bytes)%nat ->
  tags_ok (header_of bytes) = false <->
  (slice 0 4 bytes <> RIFF \/ slice 8 4 bytes <> WAVE).
Proof.
  intros _. unfold tags_ok, header_of, WavHeader.load; cbn [WavHeader.riff WavHeader.wave].
  rewrite !slice_firstn by lia.
  rewrite andb_false_iff.
  split; (intros [H | H]; [left | right]).
  - intros E. apply bytes_eqb_eq in E. congruence.
  - intros E. apply bytes_eqb_eq in E. congruence.
  - destruct (bytes_eqb (slice 0 4 bytes) RIFF) eqn:E; [ | reflexivity].
    apply bytes_eqb_eq in E. contradiction.
  - destruct (bytes_eqb (slice 8 4 bytes) WAVE) eqn:E; [ | reflexivity].
    apply bytes_eqb_eq in E. contradiction.
Qed.

Lemma pcm_cases_not_format (header : WavHeader.t) (payload : list byte) (width : nat)
    (norm : Z -> f32) (n : nat) (s : state) :
  failure (pcm_cases header payload width norm n s) <> Some InvalidFormatError.
Proof.
  unfold pcm_cases. destruct (length payload / width <? n)%nat; [cbn; discriminate | ].
  destruct (WavHeader.num_channels header =? 2); cbn; discriminate.
Qed.

Lemma with_buffer_pcm (header : WavHeader.t) (s : state) :
  pcm_data (with_buffer header s) = vec_resize (sample_count header) (pcm_data s).
Proof. reflexivity. Qed.

Lemma with_buffer_rate (header : WavHeader.t) (s : state) :
  sample_rate (with_buffer header s) = to_int (WavHeader.sample_rate header).
Proof. reflexivity. Qed.

Lemma with_buffer_files (header : WavHeader.t) (s : state) :
  open_files (with_buffer header s) = open_files s.
Proof. reflexivity. Qed.

Lemma pcm_cases_observable (h1 h2 : WavHeader.t) (payload : list byte) (width : nat)
    (norm : Z -> f32) (n : nat) (s1 s2 : state) :
  WavHeader.num_channels h1 = WavHeader.num_channels h2 ->
  pcm_data s1 = pcm_data s2 -> sample_rate s1 = sample_rate s2 ->
  open_files s1 = open_files s2 ->
  observable (pcm_cases h1 payload width norm n s1)
  = observable (pcm_cases h2 payload width norm n s2).
Proof.
  intros Hch Hp Hr Ho. unfold pcm_cases. rewrite Hch.
  destruct (length payload / width <? n)%nat.
  - unfold observable. cbn. rewrite Hp, Hr, Ho. reflexivity.
  - destruct (WavHeader.num_channels h2 =? 2); unfold observable; cbn;
      rewrite Hr, Ho; reflexivity.
Qed.

End Validation.

(** C5: among files whose 44-byte header can be read, the call fails on
    the "Invalid WAV file format" exit exactly when bytes 0-3 differ from
    "RIFF" or bytes 8-11 differ from "WAVE".  No other field is validated:
    two files that agree on both tags, on channel count, sample rate, bits
    per sample, data size and on the payload are decoded alike, whatever
    the file size, "fmt " tag, format size, audio format, byte rate, block
    align and "data" tag contain. *)
Theorem format_check_exact (filename : string) (s : state) (bytes : list byte) :
  disk s filename = Some bytes ->
  (44 <= length bytes)%nat ->
  (failure (read_wav filename s) = Some InvalidFormatError <->
   (slice 0 4 bytes <> RIFF \/ slice 8 4 bytes <> WAVE)) /\
  (forall (s2 : state) (bytes2 : list byte),
     disk s2 filename = Some bytes2 ->
     (44 <= length bytes2)%nat ->
     pcm_data s2 = pcm_data s -> sample_rate s2 = sample_rate s ->
     open_files s2 = open_files s ->
     WavHeader.riff (header_of bytes2) = WavHeader.riff (header_of bytes) ->
     WavHeader.wave (header_of bytes2) = WavHeader.wave (header_of bytes) ->
     WavHeader.num_channels (header_of bytes2) = WavHeader.num_channels (header_of bytes) ->
     WavHeader.sample_rate (header_of bytes2) = WavHeader.sample_rate (header_of bytes) ->
     WavHeader.bits_per_sample (header_of bytes2) = WavHeader.bits_per_sample (header_of bytes) ->
     WavHeader.data_size (header_of bytes2) = WavHeader.data_size (header_of bytes) ->
     skipn 44 bytes2 = skipn 44 bytes ->
     observable (read_wav filename s2) = observable (read_wav filename s)).
Proof.
  intros Hdisk Hlen. split.
  - rewrite <- (tags_ok_spec bytes Hlen).
    destruct (tags_ok (header_of bytes)) eqn:Htags.
    + split; [ | discriminate]. intros Hfail. exfalso. revert Hfail.
      rewrite read_wav_eq. unfold read_wav_cases. rewrite Hdisk. cbv zeta.
      destruct (Nat.ltb_spec (length bytes) 44); [lia | ].
      rewrite Htags. cbn [negb].
      destruct (WavHeader.bits_per_sample (header_of bytes) / 8 =? 0); [cbn; discriminate | ].
      destruct (WavHeader.bits_per_sample (header_of bytes) =? 16);
        [apply pcm_cases_not_format | ].
      destruct (WavHeader.bits_per_sample (header_of bytes) =? 32);
        [apply pcm_cases_not_format | ].
      cbn. discriminate.
    + rewrite (path_format filename s bytes Hdisk Hlen Htags).
      split; reflexivity.
  - intros s2 bytes2 Hdisk2 Hlen2 Hp Hr Ho Hriff Hwave Hch Hrate Hbits Hsize Hpay.
    rewrite !read_wav_eq. unfold read_wav_cases. rewrite Hdisk, Hdisk2. cbv zeta.
    destruct (Nat.ltb_spec (length bytes) 44); [lia | ].
    destruct (Nat.ltb_spec (length bytes2) 44); [lia | ].
    assert (Htags : tags_ok (header_of bytes2) = tags_ok (header_of bytes))
      by (unfold tags_ok; rewrite Hriff, Hwave; reflexivity).
    assert (Hn : sample_count (header_of bytes2) = sample_count (header_of bytes))
      by (unfold sample_count; rewrite Hbits, Hsize; reflexivity).
    assert (Hbp : pcm_data (with_buffer (header_of bytes2) s2)
                  = pcm_data (with_buffer (header_of bytes) s))
      by (rewrite !with_buffer_pcm, Hn, Hp; reflexivity).
    assert (Hbr : sample_rate (with_buffer (header_of bytes2) s2)
                  = sample_rate (with_buffer (header_of bytes) s))
      by (rewrite !with_buffer_rate, Hrate; reflexivity).
    assert (Hbo : open_files (with_buffer (header_of bytes2) s2)
                  = open_files (with_buffer (header_of bytes) s))
      by (rewrite !with_buffer_files; exact Ho).
    rewrite Htags, Hbits, Hn, Hpay.
    destruct (tags_ok (header_of bytes)); cbn [negb].
    + destruct (WavHeader.bits_per_sample (header_of bytes) / 8 =? 0); [reflexivity | ].
      destruct (WavHeader.bits_per_sample (header_of bytes) =? 16);
        [apply pcm_cases_observable; assumption | ].
      destruct (WavHeader.bits_per_sample (header_of bytes) =? 32);
        [apply pcm_cases_observable; assumption | ].
      unfold observable, failure. cbn [logcat push_log error_of_log].
      cbn [pcm_data sample_rate open_files push_log]. rewrite Hbp, Hbr, Hbo. reflexivity.
    + unfold observable. cbn. rewrite Hp, Hr, Ho. reflexivity.
Qed.

Lemma format_check_exact_witness :
  disk (boot (Some rifx_example)) "rifx.wav" = Some rifx_example /\
  (44 <= length rifx_example)%nat /\
  failure (read_wav "rifx.wav" (boot (Some rifx_example))) = Some InvalidFormatError.
Proof.
  assert (Hd : disk (boot (Some rifx_example)) "rifx.wav" = Some rifx_example)
    by reflexivity.
  assert (Hl : (44 <= length rifx_example)%nat) by (vm_compute; lia).
  split; [exact Hd | ]. split; [exact Hl | ].
  apply (proj1 (format_check_exact "rifx.wav" _ _ Hd Hl)).
  left. vm_compute. discriminate.
Defined.

(** * Out-parameters on failure *)
Section Failure.

Lemma pcm_cases_false (header : WavHeader.t) (payload : list byte) (width : nat)
    (norm : Z -> f32) (n : nat) (s s' : state) :
  pcm_cases header payload width norm n s = Returns false s' ->
  s' = push_log LOGE_pcm s.
Proof.
  unfold pcm_cases. destruct (length payload / width <? n)%nat.
  - intros H. inversion H. reflexivity.
  - destruct (WavHeader.num_channels header =? 2); discriminate.
Qed.

End Failure.

(** C6, as stated, fails: after a truncated payload the caller's vector
    holds two zero samples and the caller's rate holds 16000, although the
    call returned false and both were empty and zero before the call. *)
Lemma failure_leaves_partial_output :
  pcm_data (boot (Some cut_example)) = [] /\
  sample_rate (boot (Some cut_example)) = 0 /\
  result_of (read_wav "cut.wav" (boot (Some cut_example)))
    = Some (false, 16000, [F32.zero; F32.zero]).
Proof. vm_compute. repeat split; reflexivity. Qed.

(** C6 (amended): a failing call returns false on exactly one failure
    exit.  On open error, truncated header and invalid tags both
    out-parameters are left as the caller passed them.  On unsupported bit
    depth and truncated payload the rate out-parameter already holds the
    header's sample rate and the sample vector has already been resized to
    [sample_count] entries (old prefix kept, the rest zero). *)
Theorem failure_out_params (filename : string) (s s' : state) :
  read_wav filename s = Returns false s' ->
  match failure (Returns false s') with
  | Some OpenError | Some TruncatedHeaderError | Some InvalidFormatError =>
      pcm_data s' = pcm_data s /\ sample_rate s' = sample_rate s
  | Some (UnsupportedBitDepthError _) | Some TruncatedPayloadError =>
      exists bytes, disk s filename = Some bytes /\
        sample_rate s' = to_int (WavHeader.sample_rate (header_of bytes)) /\
        pcm_data s' = vec_resize (sample_count (header_of bytes)) (pcm_data s)
  | None => False
  end.
Proof.
  rewrite read_wav_eq. unfold read_wav_cases.
  destruct (disk s filename) as [bytes | ] eqn:Hdisk.
  - cbv zeta. destruct (length bytes <? 44)%nat.
    { intros H. inversion H. cbn. auto. }
    destruct (tags_ok (header_of bytes)); cbn [negb].
    2: { intros H. inversion H. cbn. auto. }
    destruct (WavHeader.bits_per_sample (header_of bytes) / 8 =? 0); [discriminate | ].
    destruct (WavHeader.bits_per_sample (header_of bytes) =? 16).
    { intros H. apply pcm_cases_false in H. subst s'. cbn [failure logcat push_log error_of_log].
      exists bytes. repeat split; reflexivity. }
    destruct (WavHeader.bits_per_sample (header_of bytes) =? 32).
    { intros H. apply pcm_cases_false in H. subst s'. cbn [failure logcat push_log error_of_log].
      exists bytes. repeat split; reflexivity. }
    intros H. inversion H. cbn [failure logcat push_log error_of_log].
    exists bytes. repeat split; reflexivity.
  - intros H. inversion H. cbn. auto.
Qed.

Lemma failure_out_params_witness :
  read_wav "cut.wav" (boot (Some cut_example))
    = Returns false
        (push_log LOGE_pcm (with_buffer (header_of cut_example) (boot (Some cut_example)))) /\
  exists bytes, disk (boot (Some cut_example)) "cut.wav" = Some bytes /\
    sample_rate (push_log LOGE_pcm (with_buffer (header_of cut_example) (boot (Some cut_example))))
      = to_int (WavHeader.sample_rate (header_of bytes)) /\
    pcm_data (push_log LOGE_pcm (with_buffer (header_of cut_example) (boot (Some cut_example))))
      = vec_resize (sample_count (header_of bytes)) (pcm_data (boot (Some cut_example))).
Proof.
  assert (Hr : read_wav "cut.wav" (boot (Some cut_example))
               = Returns false
                   (push_log LOGE_pcm
                      (with_buffer (header_of cut_example) (boot (Some cut_example)))))
    by (vm_compute; reflexivity).
  split; [exact Hr | ].
  exact (failure_out_params "cut.wav" _ _ Hr).
Defined.

(** * Truncated header *)

(** C7: when the opened file holds fewer than 44 bytes the single header
    read yields no record and the call fails on the "Failed to read WAV
    header" exit; nothing of the partial header is interpreted, the
    outcome is the same for every content. *)
Theorem truncated_header_rejected (filename : string) (s : state) (bytes : list byte) :
  disk s filename = Some bytes ->
  (length bytes < 44)%nat ->
  read_wav filename s = Returns false (push_log LOGE_header s) /\
  failure (read_wav filename s) = Some TruncatedHeaderError.
Proof.
  intros Hdisk Hlen. rewrite (path_header filename s bytes Hdisk Hlen).
  split; reflexivity.
Qed.

Lemma truncated_header_rejected_witness :
  disk (boot (Some short_example)) "short.wav" = Some short_example /\
  length short_example = 43%nat /\
  failure (read_wav "short.wav" (boot (Some short_example))) = Some TruncatedHeaderError.
Proof.
  split; [reflexivity | ]. split; [reflexivity | ].
  apply (truncated_header_rejected "short.wav" (boot (Some short_example)) short_example).
  - reflexivity.
  - vm_compute. lia.
Defined.

(** * Empty payload *)

(** C8: a file with matching tags, a bit depth of 16 or 32 and a data size
    of zero decodes successfully to the empty sequence together with its
    sample rate, for every channel count. *)
Theorem empty_payload_decodes (filename : string) (s : state) (bytes : list byte) :
  disk s filename = Some bytes ->
  (44 <= length bytes)%nat ->
  tags_ok (header_of bytes) = true ->
  WavHeader.bits_per_sample (header_of bytes) = 16 \/
  WavHeader.bits_per_sample (header_of bytes) = 32 ->
  WavHeader.data_size (header_of bytes) = 0 ->
  result_of (read_wav filename s)
  = Some (true, to_int (WavHeader.sample_rate (header_of bytes)), []) /\
  failure (read_wav filename s) = None.
Proof.
  intros Hdisk Hlen Htags Hbits Hsize.
  assert (Hn : sample_count (header_of bytes) = 0%nat).
  { unfold sample_count. rewrite Hsize. rewrite Z.div_0_l; [reflexivity | ].
    destruct Hbits as [E | E]; rewrite E; discriminate. }
  destruct Hbits as [E | E].
  - rewrite (path_pcm16 filename s bytes Hdisk Hlen Htags E).
    unfold pcm_cases. rewrite Hn. cbn [Nat.ltb Nat.leb int_samples map].
    destruct (WavHeader.num_channels (header_of bytes) =? 2); split; reflexivity.
  - rewrite (path_pcm32 filename s bytes Hdisk Hlen Htags E).
    unfold pcm_cases. rewrite Hn. cbn [Nat.ltb Nat.leb int_samples map].
    destruct (WavHeader.num_channels (header_of bytes) =? 2); split; reflexivity.
Qed.

Lemma empty_payload_decodes_witness :
  disk (boot (Some empty_example)) "empty.wav" = Some empty_example /\
  WavHeader.num_channels (header_of empty_example) = 2 /\
  result_of (read_wav "empty.wav" (boot (Some empty_example))) = Some (true, 16000, []).
Proof.
  split; [reflexivity | ]. split; [reflexivity | ].
  apply (empty_payload_decodes "empty.wav" (boot (Some empty_example)) empty_example).
  - reflexivity.
  - vm_compute. lia.
  - reflexivity.
  - right. reflexivity.
  - reflexivity.
Defined.

(** * Sample rate *)

(** C10, as stated, fails for fields of 2^31 and more: the out-parameter
    is a signed 32-bit [int], and the field 0x80000000 comes back as
    -2147483648. *)
Lemma high_rate_wraps :
  WavHeader.sample_rate (header_of high_rate_example) = 2147483648 /\
  result_of (read_wav "high.wav" (boot (Some high_rate_example)))
    = Some (true, -2147483648, []).
Proof. vm_compute. split; reflexivity. Qed.

(** C10 (amended): on success the returned sample rate is the signed
    32-bit conversion of the unsigned little-endian field at header bytes
    24-27: the field itself up to 2^31 - 1, the field minus 2^32 from 2^31
    on, always congruent to the field modulo 2^32. *)
Theorem sample_rate_conversion (filename : string) (s s' : state) (bytes : list byte) :
  disk s filename = Some bytes ->
  read_wav filename s = Returns true s' ->
  let field := le_unsigned (slice 24 4 bytes) in
  0 <= field < 2 ^ 32 /\
  sample_rate s' = (if field <? 2 ^ 31 then field else field - 2 ^ 32) /\
  (field < 2 ^ 31 -> sample_rate s' = field) /\
  sample_rate s' mod 2 ^ 32 = field.
Proof.
  intros Hdisk Hret field.
  destruct (read_wav_true_inv filename s s' bytes Hdisk Hret)
    as (Hlen & _ & _ & _ & _ & Hrate & _).
  assert (Hfield : WavHeader.sample_rate (header_of bytes) = field).
  { unfold header_of, WavHeader.load; cbn [WavHeader.sample_rate].
    rewrite slice_firstn by lia. reflexivity. }
  rewrite Hfield in Hrate.
  assert (Hrange : 0 <= field < 2 ^ 32).
  { pose proof (le_unsigned_range (slice 24 4 bytes)) as Hu. fold field in Hu.
    assert (Hl : (length (slice 24 4 bytes) <= 4)%nat) by (apply firstn_le_length).
    assert (2 ^ (8 * Z.of_nat (length (slice 24 4 bytes))) <= 2 ^ 32)
      by (apply Z.pow_le_mono_r; lia).
    lia. }
  unfold to_int in Hrate. rewrite Z.mod_small in Hrate by exact Hrange.
  split; [exact Hrange | ]. split; [exact Hrate | ]. split.
  - intros Hlt. rewrite Hrate. destruct (Z.ltb_spec field (2 ^ 31)); [reflexivity | lia].
  - rewrite Hrate. destruct (Z.ltb_spec field (2 ^ 31)).
    + apply Z.mod_small. exact Hrange.
    + replace (field - 2 ^ 32) with (field + (-1) * 2 ^ 32) by lia.
      rewrite Z.mod_add by lia. apply Z.mod_small. exact Hrange.
Qed.

Lemma sample_rate_conversion_witness :
  disk (boot (Some stereo_example)) "stereo.wav" = Some stereo_example /\
  read_wav "stereo.wav" (boot (Some stereo_example)) = Returns true stereo_decoded /\
  le_unsigned (slice 24 4 stereo_example) = 16000 /\
  sample_rate stereo_decoded = 16000.
Proof.
  assert (Hd : disk (boot (Some stereo_example)) "stereo.wav" = Some stereo_example)
    by reflexivity.
  assert (Hr : read_wav "stereo.wav" (boot (Some stereo_example)) = Returns true stereo_decoded)
    by (vm_compute; reflexivity).
  split; [exact Hd | ]. split; [exact Hr | ]. split; [reflexivity | ].
  pose proof (sample_rate_conversion "stereo.wav" _ _ _ Hd Hr) as (_ & _ & Hsmall & _).
  apply Hsmall. vm_compute. reflexivity.
Defined.

(** * Further properties of [read_wav] *)
Section Outcomes.

Lemma pcm_cases_returns (header : WavHeader.t) (payload : list byte) (width : nat)
    (norm : Z -> f32) (n : nat) (s : state) :
  exists b s', pcm_cases header payload width norm n s = Returns b s' /\
    open_files s' = open_files s /\ disk s' = disk s.
Proof.
  unfold pcm_cases. destruct (length payload / width <? n)%nat.
  - eexists; eexists; split; [reflexivity | split; reflexivity].
  - destruct (WavHeader.num_channels header =? 2);
      eexists; eexists; (split; [reflexivity | split; reflexivity]).
Qed.

Lemma read_wav_returns_inv (filename : string) (s s' : state) (b : bool) :
  read_wav filename s = Returns b s' ->
  open_files s' = open_files s /\ disk s' = disk s.
Proof.
  rewrite read_wav_eq. unfold read_wav_cases.
  destruct (disk s filename) as [bytes | ].
  - cbv zeta. destruct (length bytes <? 44)%nat.
    { intros H. inversion H. split; reflexivity. }
    destruct (negb (tags_ok (header_of bytes))).
    { intros H. inversion H. split; reflexivity. }
    destruct (WavHeader.bits_per_sample (header_of bytes) / 8 =? 0); [discriminate | ].
    destruct (WavHeader.bits_per_sample (header_of bytes) =? 16).
    { destruct (pcm_cases_returns (header_of bytes) (skipn 44 bytes) 2 norm16
                  (sample_count (header_of bytes)) (with_buffer (header_of bytes) s))
        as (b0 & s0 & E & Ho & Hd).
      rewrite E. intros H. inversion H. subst. split; assumption. }
    destruct (WavHeader.bits_per_sample (header_of bytes) =? 32).
    { destruct (pcm_cases_returns (header_of bytes) (skipn 44 bytes) 4 norm32
                  (sample_count (header_of bytes)) (with_buffer (header_of bytes) s))
        as (b0 & s0 & E & Ho & Hd).
      rewrite E. intros H. inversion H. subst. split; assumption. }
    intros H. inversion H. split; reflexivity.
  - intros H. inversion H. split; reflexivity.
Qed.

Lemma read_wav_true_intro (filename : string) (s : state) (bytes : list byte) :
  disk s filename = Some bytes ->
  (44 <= length bytes)%nat ->
  tags_ok (header_of bytes) = true ->
  WavHeader.bits_per_sample (header_of bytes) = 16 \/
  WavHeader.bits_per_sample (header_of bytes) = 32 ->
  (sample_count (header_of bytes)
   <= length (skipn 44 bytes) / Z.to_nat (WavHeader.bits_per_sample (header_of bytes) / 8))%nat ->
  exists s', read_wav filename s = Returns true s' /\
    pcm_data s' = decoded (header_of bytes) (skipn 44 bytes) /\
    sample_rate s' = to_int (WavHeader.sample_rate (header_of bytes)).
Proof.
  intros Hdisk Hlen Htags Hbits Hfull. unfold decoded, normalized.
  destruct Hbits as [E | E]; rewrite E in Hfull |- *.
  - rewrite (path_pcm16 filename s bytes Hdisk Hlen Htags E). unfold pcm_cases.
    change (Z.to_nat (16 / 8)) with 2%nat in Hfull.
    destruct (Nat.ltb_spec (length (skipn 44 bytes) / 2) (sample_count (header_of bytes)));
      [lia | ].
    cbn [Z.eqb Pos.eqb].
    destruct (WavHeader.num_channels (header_of bytes) =? 2);
      eexists; (split; [reflexivity | split; reflexivity]).
  - rewrite (path_pcm32 filename s bytes Hdisk Hlen Htags E). unfold pcm_cases.
    change (Z.to_nat (32 / 8)) with 4%nat in Hfull.
    destruct (Nat.ltb_spec (length (skipn 44 bytes) / 4) (sample_count (header_of bytes)));
      [lia | ].
    cbn [Z.eqb Pos.eqb].
    destruct (WavHeader.num_channels (header_of bytes) =? 2);
      eexists; (split; [reflexivity | split; reflexivity]).
Qed.

End Outcomes.

(** * Execution with the allocator *)
Section HeapExecution.

Lemma heap_allocate_cases (count size : nat) (p : state)
    (al : nat -> Z -> option Heap.exception) (k : nat) :
  (exists k', Heap.allocate count size (Heap.mkWorld p al k)
              = Heap.Done tt (Heap.mkWorld p al k')) \/
  (exists e, Heap.allocate count size (Heap.mkWorld p al k)
             = Heap.Thrown e (Heap.mkWorld p al k)).
Proof.
  unfold Heap.allocate. cbv beta iota zeta delta [Heap.proc Heap.allocator Heap.requests].
  destruct (Nat.eqb count 0); [left; exists k; reflexivity | ].
  destruct (al k (Z.of_nat count * Z.of_nat size)) as [e | ].
  - right. exists e. reflexivity.
  - left. exists (S k). reflexivity.
Qed.

Lemma heap_finish_eq (fd : nat) (header : WavHeader.t) (n : nat)
    (d : string -> option (list byte)) (f : FILE) (t : list (nat * FILE))
    (l : list log_line) (pcm : list f32) (r : Z)
    (al : nat -> Z -> option Heap.exception) (k : nat) :
  length pcm = n ->
  Heap.finish fd header n (Heap.mkWorld (mkState d ((fd, f) :: t) l pcm r) al k) =
  if WavHeader.num_channels header =? 2 then
    match Heap.allocate (n / 2) 4
            (Heap.mkWorld (mkState d ((fd, f) :: t) (LOGI_stereo :: l) pcm r) al k) with
    | Heap.Done _ w =>
        Heap.Done true
          (Heap.set_proc
             (mkState d (remove_fd fd t) (LOGI_loaded (n / 2) :: LOGI_stereo :: l)
                (downmixed pcm n) r) w)
    | Heap.Thrown e w => Heap.Thrown e w
    | Heap.Fault g w => Heap.Fault g w
    end
  else
    Heap.Done true
      (Heap.mkWorld (mkState d (remove_fd fd t) (LOGI_loaded n :: l) pcm r) al k).
Proof.
  intros Hlen.
  cbv beta iota zeta delta [Heap.finish Heap.bind Heap.lift Heap.ret Heap.set_proc
    Heap.proc Heap.allocator Heap.requests LOG fclose downmix modify push_log
    set_pcm_data set_open_files disk open_files logcat pcm_data sample_rate].
  destruct (WavHeader.num_channels header =? 2).
  - unfold Heap.allocate.
    cbv beta iota zeta delta [Heap.proc Heap.allocator Heap.requests].
    destruct (Nat.eqb (n / 2) 0);
      [ | destruct (al k (Z.of_nat (n / 2) * Z.of_nat 4)); [reflexivity | ] ];
      cbv beta iota zeta delta [Heap.proc Heap.allocator Heap.requests
        disk open_files logcat pcm_data sample_rate];
      rewrite downmix_loop, length_downmixed, remove_fd_head; reflexivity.
  - rewrite remove_fd_head, Hlen. reflexivity.
Qed.

Lemma heap_read_pcm_eq (header : WavHeader.t) (width : nat) (norm : Z -> f32) (n : nat)
    (d : string -> option (list byte)) (bytes : list byte) (t : list (nat * FILE))
    (l : list log_line) (pcm : list f32) (r : Z)
    (al : nat -> Z -> option Heap.exception) (k : nat) (p0 : state) :
  width <> 0%nat -> length pcm = n ->
  Heap.read_pcm (fresh_fd t) header width norm n
    (Heap.mkWorld (mkState d ((fresh_fd t, mkFILE bytes 44) :: t) l pcm r) al k) =
  Heap.pcm_cases header bytes width norm n (mkState d t l pcm r) (Heap.mkWorld p0 al k).
Proof.
  intros Hw Hlen.
  unfold Heap.read_pcm, Heap.pcm_cases.
  unfold Heap.bind at 1.
  change (Heap.set_proc (Heap.opened bytes 44 (mkState d t l pcm r))
            (Heap.mkWorld p0 al k))
    with (Heap.mkWorld (mkState d ((fresh_fd t, mkFILE bytes 44) :: t) l pcm r) al k).
  assert (Hstep : forall k',
    Heap.bind (Heap.lift (fread width n (fresh_fd t)))
      (fun r0 =>
         if negb (Nat.eqb (fst r0) n)
         then Heap.bind (Heap.lift (LOG LOGE_pcm))
                (fun _ => Heap.bind (Heap.lift (fclose (fresh_fd t)))
                            (fun _ => Heap.ret false))
         else Heap.bind (Heap.lift (convert norm (int_samples width n (snd r0)) n))
                (fun _ => Heap.finish (fresh_fd t) header n))
      (Heap.mkWorld (mkState d ((fresh_fd t, mkFILE bytes 44) :: t) l pcm r) al k')
    = (if (length (skipn 44 bytes) / width <? n)%nat
       then Heap.Done false (Heap.mkWorld (mkState d t (LOGE_pcm :: l) pcm r) al k')
       else
         if WavHeader.num_channels header =? 2
         then
           match Heap.allocate (n / 2) 4
                   (Heap.mkWorld
                      (mkState d ((fresh_fd t, mkFILE bytes (44 + n * width)) :: t)
                         (LOGI_stereo :: l)
                         (map norm (int_samples width n (skipn 44 bytes))) r) al k') with
           | Heap.Done _ w2 =>
               Heap.Done true
                 (Heap.set_proc
                    (mkState d t (LOGI_loaded (n / 2) :: LOGI_stereo :: l)
                       (downmixed (map norm (int_samples width n (skipn 44 bytes))) n) r)
                    w2)
           | Heap.Thrown e w2 => Heap.Thrown e w2
           | Heap.Fault g w2 => Heap.Fault g w2
           end
         else
           Heap.Done true
             (Heap.mkWorld
                (mkState d t (LOGI_loaded n :: l)
                   (map norm (int_samples width n (skipn 44 bytes))) r) al k'))).
  { intros k'.
    unfold Heap.bind at 1. unfold Heap.lift at 1.
    cbv beta iota zeta delta [Heap.proc]. rewrite fread_head.
    cbv beta iota zeta delta [fst snd contents position Heap.set_proc Heap.allocator
      Heap.requests].
    destruct (Nat.eqb_spec width 0) as [E | _]; [contradiction | ].
    rewrite length_skipn.
    destruct (Nat.ltb_spec ((length bytes - 44) / width) n) as [Hshort | Hfull].
    - destruct (Nat.eqb_spec (Nat.min n ((length bytes - 44) / width)) n) as [E | _];
        [lia | ].
      cbv beta iota zeta delta [negb Heap.bind Heap.lift Heap.ret Heap.set_proc Heap.proc
        Heap.allocator Heap.requests LOG fclose modify push_log set_open_files
        disk open_files logcat pcm_data sample_rate].
      rewrite !remove_fd_head, !remove_fd_fresh. reflexivity.
    - rewrite Nat.min_l by assumption. rewrite Nat.eqb_refl.
      assert (Hbytes : (n * width <= length bytes - 44)%nat).
      { pose proof (Nat.Div0.mul_div_le (length bytes - 44) width) as Hd. nia. }
      rewrite (Nat.min_l (n * width)) by assumption.
      cbv beta iota zeta delta [negb].
      unfold Heap.bind at 1. unfold Heap.lift at 1.
      cbv beta iota zeta delta [Heap.proc Heap.set_proc Heap.allocator Heap.requests
        convert modify set_pcm_data disk open_files logcat pcm_data sample_rate].
      rewrite remove_fd_fresh.
      unfold slice. rewrite int_samples_firstn.
      pose proof (convert_loop norm (int_samples width n (skipn 44 bytes)) pcm) as Hloop.
      rewrite length_int_samples in Hloop. rewrite (Hloop Hlen).
      rewrite heap_finish_eq by (rewrite length_map, length_int_samples; reflexivity).
      rewrite remove_fd_fresh. reflexivity. }
  destruct (heap_allocate_cases n width
              (mkState d ((fresh_fd t, mkFILE bytes 44) :: t) l pcm r) al k)
    as [[k' Hgrant] | [e Hrefuse]].
  - rewrite Hgrant, Hstep.
    cbv beta iota zeta delta [Heap.set_proc Heap.opened Heap.proc Heap.allocator
      Heap.requests push_log set_pcm_data set_open_files disk open_files logcat
      pcm_data sample_rate].
    reflexivity.
  - rewrite Hrefuse. reflexivity.
Qed.

Theorem heap_read_wav_eq (filename : string) (w : Heap.world) :
  Heap.read_wav filename w = Heap.read_wav_cases filename w.
Proof.
  destruct w as [[d t l p r] al k].
  cbv beta iota zeta delta [Heap.read_wav Heap.read_wav_cases Heap.bind Heap.lift Heap.ret
    Heap.resize Heap.set_proc Heap.proc Heap.allocator Heap.requests Heap.opened
    fopen LOG fclose modify udiv push_log set_pcm_data set_open_files set_sample_rate
    disk open_files logcat pcm_data sample_rate WavHeader.sizeof header_of sample_count
    with_rate with_buffer].
  destruct (d filename) as [bytes | ]; [ | reflexivity].
  rewrite fread_head.
  cbv beta iota zeta delta [fst snd contents position].
  change (Nat.eqb 44 0) with false. cbv iota.
  rewrite Nat.sub_0_r.
  destruct (Nat.ltb_spec (length bytes) 44) as [Hshort | Hfull].
  - rewrite Nat.div_small by assumption. cbn [Nat.min Nat.eqb negb].
    rewrite !remove_fd_head, !remove_fd_fresh. reflexivity.
  - assert (Hdiv : (1 <= length bytes / 44)%nat)
      by (apply Nat.div_le_lower_bound; lia).
    rewrite (Nat.min_l 1) by assumption. cbn [Nat.eqb negb].
    rewrite (Nat.min_l (1 * 44)) by lia.
    rewrite !remove_fd_fresh.
    change (slice 0 (1 * 44) bytes) with (firstn 44 bytes).
    change (0 + 1 * 44)%nat with 44%nat.
    set (header := WavHeader.load (firstn 44 bytes)).
    unfold tags_ok. rewrite negb_andb.
    destruct (negb (bytes_eqb (WavHeader.riff header) RIFF)
              || negb (bytes_eqb (WavHeader.wave header) WAVE)).
    + rewrite !remove_fd_head, !remove_fd_fresh. reflexivity.
    + destruct (WavHeader.bits_per_sample header / 8 =? 0); [reflexivity | ].
      set (n := Z.to_nat (WavHeader.data_size header / (WavHeader.bits_per_sample header / 8))).
      set (l1 := LOGI_info (WavHeader.sample_rate header) (WavHeader.num_channels header)
                   (WavHeader.bits_per_sample header) (WavHeader.audio_format header) :: l).
      set (r1 := to_int (WavHeader.sample_rate header)).
      assert (Hgrow :
        (exists k', (if (length p <? n)%nat then Heap.allocate n 4 else (fun w => Heap.Done tt w))
                      (Heap.mkWorld (mkState d ((fresh_fd t, mkFILE bytes 44) :: t) l1 p r1) al k)
                    = Heap.Done tt
                        (Heap.mkWorld (mkState d ((fresh_fd t, mkFILE bytes 44) :: t) l1 p r1)
                           al k')) \/
        (exists e, (if (length p <? n)%nat then Heap.allocate n 4 else (fun w => Heap.Done tt w))
                     (Heap.mkWorld (mkState d ((fresh_fd t, mkFILE bytes 44) :: t) l1 p r1) al k)
                   = Heap.Thrown e
                       (Heap.mkWorld (mkState d ((fresh_fd t, mkFILE bytes 44) :: t) l1 p r1)
                          al k))).
      { destruct (length p <? n)%nat; [apply heap_allocate_cases | ].
        left. exists k. reflexivity. }
      destruct Hgrow as [[k' Hgrant] | [e Hrefuse]].
      * rewrite Hgrant. cbv beta iota.
        destruct (WavHeader.bits_per_sample header =? 16).
        -- exact (heap_read_pcm_eq header 2 norm16 n d bytes t _ (vec_resize n p) _ al k' _
                    ltac:(discriminate) (length_vec_resize n p)).
        -- destruct (WavHeader.bits_per_sample header =? 32).
           ++ exact (heap_read_pcm_eq header 4 norm32 n d bytes t _ (vec_resize n p) _ al k' _
                       ltac:(discriminate) (length_vec_resize n p)).
           ++ rewrite !remove_fd_head, !remove_fd_fresh. reflexivity.
      * rewrite Hrefuse. reflexivity.
Qed.

End HeapExecution.

(** * What the outcomes with the allocator have in common with [read_wav] *)
Section HeapOutcomes.

Lemma heap_allocate_inv (count size : nat) (w : Heap.world) :
  match Heap.allocate count size w with
  | Heap.Done _ w' =>
      Heap.proc w' = Heap.proc w /\ Heap.allocator w' = Heap.allocator w /\
      (count <> 0%nat ->
       Heap.allocator w (Heap.requests w) (Z.of_nat count * Z.of_nat size) = None)
  | Heap.Thrown e w' =>
      w' = w /\ count <> 0%nat /\
      Heap.allocator w (Heap.requests w) (Z.of_nat count * Z.of_nat size) = Some e
  | Heap.Fault _ _ => False
  end.
Proof.
  unfold Heap.allocate.
  destruct (Nat.eqb_spec count 0) as [E | E].
  - repeat split. intros H. contradiction.
  - destruct (Heap.allocator w (Heap.requests w) (Z.of_nat count * Z.of_nat size)) eqn:Ha.
    + repeat split. exact E.
    + repeat split.
Qed.

Lemma heap_pcm_cases_done (header : WavHeader.t) (bytes : list byte) (width : nat)
    (norm : Z -> f32) (n : nat) (s : state) (w w' : Heap.world) (b : bool) :
  Heap.pcm_cases header bytes width norm n s w = Heap.Done b w' ->
  pcm_cases header (skipn 44 bytes) width norm n s = Returns b (Heap.proc w') /\
  Heap.allocator w' = Heap.allocator w.
Proof.
  unfold Heap.pcm_cases, pcm_cases. cbv zeta.
  pose proof (heap_allocate_inv n width (Heap.set_proc (Heap.opened bytes 44 s) w)) as H1.
  destruct (Heap.allocate n width (Heap.set_proc (Heap.opened bytes 44 s) w))
    as [[] w1 | e w1 | f w1]; [ | discriminate | discriminate].
  destruct H1 as (_ & Hal1 & _). cbn [Heap.set_proc Heap.allocator] in Hal1.
  destruct (length (skipn 44 bytes) / width <? n)%nat.
  { intros H. inversion H. split; [reflexivity | exact Hal1]. }
  destruct (WavHeader.num_channels header =? 2).
  - match goal with
    | |- context [Heap.allocate ?c ?z ?v] =>
        pose proof (heap_allocate_inv c z v) as H2; destruct (Heap.allocate c z v)
          as [[] w2 | e w2 | f w2]; [ | discriminate | discriminate]
    end.
    destruct H2 as (_ & Hal2 & _). cbn [Heap.set_proc Heap.allocator] in Hal2.
    intros H. inversion H. split; [reflexivity | ].
    cbn [Heap.set_proc Heap.allocator]. congruence.
  - intros H. inversion H. split; [reflexivity | exact Hal1].
Qed.

Lemma heap_pcm_cases_thrown (header : WavHeader.t) (bytes : list byte) (width : nat)
    (norm : Z -> f32) (n : nat) (s : state) (w w' : Heap.world) (e : Heap.exception) :
  Heap.pcm_cases header bytes width norm n s w = Heap.Thrown e w' ->
  (exists pos, open_files (Heap.proc w')
               = (fresh_fd (open_files s), mkFILE bytes pos) :: open_files s) /\
  disk (Heap.proc w') = disk s /\
  exists k request,
    request <= Z.of_nat (Nat.max width 2) * Z.of_nat n /\
    Heap.allocator w k request = Some e.
Proof.
  unfold Heap.pcm_cases. cbv zeta.
  pose proof (heap_allocate_inv n width (Heap.set_proc (Heap.opened bytes 44 s) w)) as H1.
  destruct (Heap.allocate n width (Heap.set_proc (Heap.opened bytes 44 s) w))
    as [[] w1 | e1 w1 | f w1]; [ | | discriminate].
  - destruct H1 as (_ & Hal1 & _). cbn [Heap.set_proc Heap.allocator] in Hal1.
    destruct (length (skipn 44 bytes) / width <? n)%nat; [discriminate | ].
    destruct (WavHeader.num_channels header =? 2); [ | discriminate].
    match goal with
    | |- context [Heap.allocate ?c ?z ?v] =>
        pose proof (heap_allocate_inv c z v) as H2; destruct (Heap.allocate c z v)
          as [[] w2 | e2 w2 | f w2]; [discriminate | | discriminate]
    end.
    destruct H2 as (Hw2 & _ & Hrefused).
    intros H. inversion H. subst e2 w'. rewrite Hw2.
    cbn [Heap.set_proc Heap.proc Heap.allocator Heap.requests] in *.
    split; [eexists; destruct s; reflexivity | ].
    split; [destruct s; reflexivity | ].
    rewrite Hal1 in Hrefused.
    eexists; eexists; split; [ | exact Hrefused].
    pose proof (Nat.Div0.mul_div_le n 2). nia.
  - destruct H1 as (Hw1 & _ & Hrefused).
    intros H. inversion H. subst e1 w'. rewrite Hw1.
    cbn [Heap.set_proc Heap.proc Heap.allocator Heap.requests] in *.
    split; [eexists; destruct s; reflexivity | ].
    split; [destruct s; reflexivity | ].
    eexists; eexists; split; [ | exact Hrefused]. nia.
Qed.

(** Whenever the call returns, it returns what [read_wav] returns. *)
Lemma heap_read_wav_done (filename : string) (w w' : Heap.world) (b : bool) :
  Heap.read_wav filename w = Heap.Done b w' ->
  read_wav filename (Heap.proc w) = Returns b (Heap.proc w') /\
  Heap.allocator w' = Heap.allocator w.
Proof.
  rewrite heap_read_wav_eq, read_wav_eq. unfold Heap.read_wav_cases, read_wav_cases.
  cbv zeta. set (s := Heap.proc w).
  destruct (disk s filename) as [bytes | ].
  2:{ intros H. inversion H. split; reflexivity. }
  destruct (length bytes <? 44)%nat.
  { intros H. inversion H. split; reflexivity. }
  destruct (negb (tags_ok (header_of bytes))).
  { intros H. inversion H. split; reflexivity. }
  destruct (WavHeader.bits_per_sample (header_of bytes) / 8 =? 0); [discriminate | ].
  set (w0 := Heap.set_proc (Heap.opened bytes 44 (with_rate (header_of bytes) s)) w).
  assert (Hgrow :
    match (if (length (pcm_data s) <? sample_count (header_of bytes))%nat
           then Heap.allocate (sample_count (header_of bytes)) 4
           else Heap.ret tt) w0 with
    | Heap.Done _ w1 => Heap.allocator w1 = Heap.allocator w
    | _ => True
    end).
  { destruct (length (pcm_data s) <? sample_count (header_of bytes))%nat.
    - pose proof (heap_allocate_inv (sample_count (header_of bytes)) 4 w0) as H.
      destruct (Heap.allocate (sample_count (header_of bytes)) 4 w0); [ | exact I | exact I].
      destruct H as (_ & H & _). exact H.
    - reflexivity. }
  destruct ((if (length (pcm_data s) <? sample_count (header_of bytes))%nat
             then Heap.allocate (sample_count (header_of bytes)) 4
             else Heap.ret tt) w0) as [[] w1 | e w1 | f w1];
    [ | discriminate | discriminate].
  destruct (WavHeader.bits_per_sample (header_of bytes) =? 16).
  { intros H. apply heap_pcm_cases_done in H. destruct H as [H1 H2].
    split; [exact H1 | congruence]. }
  destruct (WavHeader.bits_per_sample (header_of bytes) =? 32).
  { intros H. apply heap_pcm_cases_done in H. destruct H as [H1 H2].
    split; [exact H1 | congruence]. }
  intros H. inversion H. split; [reflexivity | exact Hgrow].
Qed.

(** Where the call leaves by an exception: an allocation was refused, and
    the stream of the call is open. *)
Lemma heap_read_wav_thrown (filename : string) (w w' : Heap.world) (e : Heap.exception) :
  Heap.read_wav filename w = Heap.Thrown e w' ->
  exists bytes,
    disk (Heap.proc w) filename = Some bytes /\
    (44 <= length bytes)%nat /\ tags_ok (header_of bytes) = true /\
    WavHeader.bits_per_sample (header_of bytes) / 8 <> 0 /\
    (exists pos, open_files (Heap.proc w')
                 = (fresh_fd (open_files (Heap.proc w)), mkFILE bytes pos)
                   :: open_files (Heap.proc w)) /\
    disk (Heap.proc w') = disk (Heap.proc w) /\
    exists k request,
      request <= 4 * Z.of_nat (sample_count (header_of bytes)) /\
      Heap.allocator w k request = Some e.
Proof.
  rewrite heap_read_wav_eq. unfold Heap.read_wav_cases.
  cbv zeta. set (s := Heap.proc w).
  destruct (disk s filename) as [bytes | ]; [ | discriminate].
  destruct (Nat.ltb_spec (length bytes) 44) as [ | Hlen]; [discriminate | ].
  destruct (tags_ok (header_of bytes)) eqn:Htags; [ | discriminate]. cbn [negb].
  destruct (Z.eqb_spec (WavHeader.bits_per_sample (header_of bytes) / 8) 0) as [ | Hnz];
    [discriminate | ].
  set (n := sample_count (header_of bytes)).
  set (w0 := Heap.set_proc (Heap.opened bytes 44 (with_rate (header_of bytes) s)) w).
  assert (Hgrow :
    match (if (length (pcm_data s) <? n)%nat then Heap.allocate n 4 else Heap.ret tt) w0 with
    | Heap.Done _ w1 => Heap.allocator w1 = Heap.allocator w
    | Heap.Thrown e1 w1 =>
        w1 = w0 /\ Heap.allocator w (Heap.requests w) (Z.of_nat n * Z.of_nat 4) = Some e1
    | Heap.Fault _ _ => False
    end).
  { destruct (length (pcm_data s) <? n)%nat.
    - pose proof (heap_allocate_inv n 4 w0) as H.
      destruct (Heap.allocate n 4 w0); [ | | exact H].
      + destruct H as (_ & H & _). exact H.
      + destruct H as (H1 & _ & H2). split; [exact H1 | exact H2].
    - reflexivity. }
  destruct ((if (length (pcm_data s) <? n)%nat then Heap.allocate n 4 else Heap.ret tt) w0)
    as [[] w1 | e1 w1 | f w1]; [ | | contradiction].
  - assert (Hpcm : forall width norm, (width <= 4)%nat ->
              Heap.pcm_cases (header_of bytes) bytes width norm n
                (with_buffer (header_of bytes) s) w1 = Heap.Thrown e w' ->
              exists bytes0,
                Some bytes = Some bytes0 /\ (44 <= length bytes0)%nat /\
                tags_ok (header_of bytes0) = true /\
                WavHeader.bits_per_sample (header_of bytes0) / 8 <> 0 /\
                (exists pos, open_files (Heap.proc w')
                             = (fresh_fd (open_files s), mkFILE bytes0 pos) :: open_files s) /\
                disk (Heap.proc w') = disk s /\
                exists k request,
                  request <= 4 * Z.of_nat (sample_count (header_of bytes0)) /\
                  Heap.allocator w k request = Some e).
    { intros width norm Hwidth H. apply heap_pcm_cases_thrown in H.
      destruct H as (Hopen & Hdisk & k & request & Hbound & Hrefused).
      exists bytes.
      split; [reflexivity | ]. split; [exact Hlen | ]. split; [exact Htags | ].
      split; [exact Hnz | ].
      split.
      { destruct Hopen as [pos Hpos]. exists pos. rewrite Hpos.
        destruct s; reflexivity. }
      split.
      { rewrite Hdisk. destruct s; reflexivity. }
      exists k, request. split; [fold n; nia | congruence]. }
    destruct (WavHeader.bits_per_sample (header_of bytes) =? 16);
      [apply Hpcm; lia | ].
    destruct (WavHeader.bits_per_sample (header_of bytes) =? 32);
      [apply Hpcm; lia | ].
    discriminate.
  - destruct Hgrow as [Hw1 Hrefused]. intros H. inversion H. subst e1 w'. rewrite Hw1.
    exists bytes.
    split; [reflexivity | ]. split; [exact Hlen | ]. split; [exact Htags | ].
    split; [exact Hnz | ].
    split; [exists 44%nat; unfold w0; destruct s; reflexivity | ].
    split; [unfold w0; destruct s; reflexivity | ].
    exists (Heap.requests w), (Z.of_nat n * Z.of_nat 4). split; [lia | exact Hrefused].
Qed.

(** Where the call is undefined: the division of line 62, with the stream
    of the call open. *)
Lemma heap_read_wav_fault (filename : string) (w w' : Heap.world) (f : fault) :
  Heap.read_wav filename w = Heap.Fault f w' ->
  f = DivisionByZero /\
  exists bytes,
    disk (Heap.proc w) filename = Some bytes /\
    (44 <= length bytes)%nat /\ tags_ok (header_of bytes) = true /\
    WavHeader.bits_per_sample (header_of bytes) / 8 = 0 /\
    open_files (Heap.proc w')
    = (fresh_fd (open_files (Heap.proc w)), mkFILE bytes 44) :: open_files (Heap.proc w).
Proof.
  rewrite heap_read_wav_eq. unfold Heap.read_wav_cases.
  cbv zeta. set (s := Heap.proc w).
  destruct (disk s filename) as [bytes | ]; [ | discriminate].
  destruct (Nat.ltb_spec (length bytes) 44) as [ | Hlen]; [discriminate | ].
  destruct (tags_ok (header_of bytes)) eqn:Htags; [ | discriminate]. cbn [negb].
  destruct (Z.eqb_spec (WavHeader.bits_per_sample (header_of bytes) / 8) 0) as [Hz | Hnz].
  { intros H. inversion H. split; [reflexivity | ].
    exists bytes.
    split; [reflexivity | ]. split; [exact Hlen | ]. split; [exact Htags | ].
    split; [exact Hz | ]. destruct s; reflexivity. }
  set (n := sample_count (header_of bytes)).
  set (w0 := Heap.set_proc (Heap.opened bytes 44 (with_rate (header_of bytes) s)) w).
  assert (Hgrow :
    match (if (length (pcm_data s) <? n)%nat then Heap.allocate n 4 else Heap.ret tt) w0 with
    | Heap.Fault _ _ => False
    | _ => True
    end).
  { destruct (length (pcm_data s) <? n)%nat; [ | exact I].
    pose proof (heap_allocate_inv n 4 w0) as H.
    destruct (Heap.allocate n 4 w0); [exact I | exact I | exact H]. }
  destruct ((if (length (pcm_data s) <? n)%nat then Heap.allocate n 4 else Heap.ret tt) w0)
    as [[] w1 | e1 w1 | f1 w1]; [ | discriminate | contradiction].
  assert (Hpcm : forall width norm,
            Heap.pcm_cases (header_of bytes) bytes width norm n
              (with_buffer (header_of bytes) s) w1 <> Heap.Fault f w').
  { intros width norm. unfold Heap.pcm_cases. cbv zeta.
    match goal with
    | |- context [Heap.allocate ?c ?z ?v] =>
        pose proof (heap_allocate_inv c z v) as H1; destruct (Heap.allocate c z v)
          as [[] w2 | e2 w2 | f2 w2]; [ | discriminate | contradiction]
    end.
    destruct (length (skipn 44 bytes) / width <? n)%nat; [discriminate | ].
    destruct (WavHeader.num_channels (header_of bytes) =? 2); [ | discriminate].
    match goal with
    | |- context [Heap.allocate ?c ?z ?v] =>
        pose proof (heap_allocate_inv c z v) as H2; destruct (Heap.allocate c z v)
          as [[] w3 | e3 w3 | f3 w3]; [discriminate | discriminate | contradiction]
    end. }
  destruct (WavHeader.bits_per_sample (header_of bytes) =? 16);
    [intros H; destruct (Hpcm _ _ H) | ].
  destruct (WavHeader.bits_per_sample (header_of bytes) =? 32);
    [intros H; destruct (Hpcm _ _ H) | ].
  discriminate.
Qed.

(** The refused resize of line 63. *)
Lemma heap_resize_refused (filename : string) (w : Heap.world) (bytes : list byte)
    (e : Heap.exception) :
  disk (Heap.proc w) filename = Some bytes ->
  (44 <= length bytes)%nat -> tags_ok (header_of bytes) = true ->
  WavHeader.bits_per_sample (header_of bytes) / 8 <> 0 ->
  (length (pcm_data (Heap.proc w)) < sample_count (header_of bytes))%nat ->
  Heap.allocator w (Heap.requests w) (4 * Z.of_nat (sample_count (header_of bytes))) = Some e ->
  Heap.read_wav filename w
  = Heap.Thrown e
      (Heap.set_proc (Heap.opened bytes 44 (with_rate (header_of bytes) (Heap.proc w))) w).
Proof.
  intros Hdisk Hlen Htags Hnz Hgrow Hrefused.
  rewrite heap_read_wav_eq. unfold Heap.read_wav_cases. cbv zeta. rewrite Hdisk.
  destruct (Nat.ltb_spec (length bytes) 44); [lia | ].
  rewrite Htags. cbn [negb].
  destruct (Z.eqb_spec (WavHeader.bits_per_sample (header_of bytes) / 8) 0);
    [contradiction | ].
  destruct (Nat.ltb_spec (length (pcm_data (Heap.proc w))) (sample_count (header_of bytes)));
    [ | lia].
  unfold Heap.allocate.
  destruct (Nat.eqb_spec (sample_count (header_of bytes)) 0); [lia | ].
  cbn [Heap.set_proc Heap.allocator Heap.requests].
  replace (Z.of_nat (sample_count (header_of bytes)) * Z.of_nat 4)
    with (4 * Z.of_nat (sample_count (header_of bytes))) by lia.
  rewrite Hrefused. reflexivity.
Qed.


(** With every request granted the call returns what [read_wav] returns,
    and only then. *)
Lemma heap_read_wav_agrees (filename : string) (w : Heap.world) (b : bool) (s' : state) :
  (forall k request, Heap.allocator w k request = None) ->
  read_wav filename (Heap.proc w) = Returns b s' ->
  exists w', Heap.read_wav filename w = Heap.Done b w' /\ Heap.proc w' = s'.
Proof.
  intros Hgenerous Hold.
  destruct (Heap.read_wav filename w) as [b1 w1 | e w1 | f w1] eqn:Hrun.
  - apply heap_read_wav_done in Hrun. destruct Hrun as [Hrun _].
    rewrite Hold in Hrun. inversion Hrun. subst b1. exists w1. split; reflexivity.
  - apply heap_read_wav_thrown in Hrun.
    destruct Hrun as (bytes & _ & _ & _ & _ & _ & _ & k & request & _ & Hrefused).
    rewrite Hgenerous in Hrefused. discriminate.
  - apply heap_read_wav_fault in Hrun.
    destruct Hrun as (_ & bytes & Hdisk & Hlen & Htags & Hz & _).
    rewrite (path_division filename (Heap.proc w) bytes Hdisk Hlen Htags Hz) in Hold.
    discriminate.
Qed.

End HeapOutcomes.

(** * Truncated payload, with the allocator *)

Lemma huge_example_header :
  length huge_example = 48%nat /\
  tags_ok (header_of huge_example) = true /\
  WavHeader.bits_per_sample (header_of huge_example) = 16 /\
  WavHeader.data_size (header_of huge_example) = 4294967295.
Proof. repeat split; vm_compute; reflexivity. Qed.

Lemma huge_example_count :
  sample_count (header_of huge_example) = Z.to_nat 2147483647.
Proof.
  unfold sample_count.
  destruct huge_example_header as (_ & _ & Hbits & Hsize). rewrite Hbits, Hsize.
  reflexivity.
Qed.




(** * Stream lifetime *)

(** C9: whenever the call returns, on the success exit or on any failure
    exit, the table of open streams is what it was before the call.  The
    call does not return on two more exits, and on both the stream opened
    at line 33 is still open: where an allocation is refused (lines 63, 67,
    79 and 99), the exception leaves the function past every [fclose]; and
    where the sample count divides by zero.  In particular a refused resize
    at line 63 leaves the stream open at position 44. *)
Theorem stream_closed_unless_thrown (filename : string) (w : Heap.world) :
  match Heap.read_wav filename w with
  | Heap.Done _ w' =>
      open_files (Heap.proc w') = open_files (Heap.proc w) /\
      disk (Heap.proc w') = disk (Heap.proc w)
  | Heap.Thrown e w' =>
      exists bytes pos,
        disk (Heap.proc w) filename = Some bytes /\
        open_files (Heap.proc w')
        = (fresh_fd (open_files (Heap.proc w)), mkFILE bytes pos)
          :: open_files (Heap.proc w) /\
        exists k request,
          request <= 4 * Z.of_nat (sample_count (header_of bytes)) /\
          Heap.allocator w k request = Some e
  | Heap.Fault f w' =>
      f = DivisionByZero /\
      exists bytes,
        disk (Heap.proc w) filename = Some bytes /\ (44 <= length bytes)%nat /\
        tags_ok (header_of bytes) = true /\
        WavHeader.bits_per_sample (header_of bytes) / 8 = 0 /\
        open_files (Heap.proc w')
        = (fresh_fd (open_files (Heap.proc w)), mkFILE bytes 44)
          :: open_files (Heap.proc w)
  end /\
  forall (bytes : list byte) (e : Heap.exception),
    disk (Heap.proc w) filename = Some bytes ->
    (44 <= length bytes)%nat -> tags_ok (header_of bytes) = true ->
    WavHeader.bits_per_sample (header_of bytes) / 8 <> 0 ->
    (length (pcm_data (Heap.proc w)) < sample_count (header_of bytes))%nat ->
    Heap.allocator w (Heap.requests w) (4 * Z.of_nat (sample_count (header_of bytes)))
    = Some e ->
    exists w',
      Heap.read_wav filename w = Heap.Thrown e w' /\
      open_files (Heap.proc w')
      = (fresh_fd (open_files (Heap.proc w)), mkFILE bytes 44)
        :: open_files (Heap.proc w).
Proof.
  split.
  - destruct (Heap.read_wav filename w) as [b w' | e w' | f w'] eqn:Hrun.
    + apply heap_read_wav_done in Hrun. destruct Hrun as [Hold _].
      exact (read_wav_returns_inv filename (Heap.proc w) (Heap.proc w') b Hold).
    + apply heap_read_wav_thrown in Hrun.
      destruct Hrun as (bytes & Hdisk & _ & _ & _ & [pos Hopen] & _ & Hrefused).
      exists bytes, pos. split; [exact Hdisk | ]. split; [exact Hopen | exact Hrefused].
    + exact (heap_read_wav_fault filename w w' f Hrun).
  - intros bytes e Hdisk Hlen Htags Hnz Hgrow Hrefused.
    eexists. split.
    + exact (heap_resize_refused filename w bytes e Hdisk Hlen Htags Hnz Hgrow Hrefused).
    + destruct w as [[d t l p r] al k]. reflexivity.
Qed.

Lemma stream_closed_unless_thrown_witness :
  open_files (Heap.proc starved) = [] /\
  fresh_fd (open_files (Heap.proc starved)) = 1%nat /\
  exists w',
    Heap.read_wav "huge.wav" starved = Heap.Thrown Heap.bad_alloc w' /\
    open_files (Heap.proc w')
    = (fresh_fd (open_files (Heap.proc starved)), mkFILE huge_example 44)
      :: open_files (Heap.proc starved).
Proof.
  split; [reflexivity | ]. split; [reflexivity | ].
  destruct huge_example_header as (Hlen & Htags & Hbits & Hsize).
  assert (H1 : disk (Heap.proc starved) "huge.wav" = Some huge_example) by reflexivity.
  assert (H2 : (44 <= length huge_example)%nat) by (rewrite Hlen; lia).
  assert (H4 : WavHeader.bits_per_sample (header_of huge_example) / 8 <> 0)
    by (rewrite Hbits; discriminate).
  assert (H5 : (length (pcm_data (Heap.proc starved))
                < sample_count (header_of huge_example))%nat).
  { rewrite huge_example_count.
    change (length (pcm_data (Heap.proc starved))) with 0%nat. lia. }
  assert (H6 : Heap.allocator starved (Heap.requests starved)
                 (4 * Z.of_nat (sample_count (header_of huge_example)))
               = Some Heap.bad_alloc).
  { rewrite huge_example_count. rewrite Z2Nat.id by lia. reflexivity. }
  pose proof (stream_closed_unless_thrown "huge.wav" starved) as [_ Hleak].
  specialize (Hleak huge_example Heap.bad_alloc).
  specialize (Hleak H1). specialize (Hleak H2). specialize (Hleak Htags).
  specialize (Hleak H4). specialize (Hleak H5). specialize (Hleak H6).
  exact Hleak.
Defined.

(** * Logging, independence and the extent of what is read *)


(** X1: the log tells the exits apart.  A call that returns keeps the
    earlier log lines; it has written exactly one LOGE line when it returns
    false and none when it returns true, and that line, or on success the
    line reporting the number of samples returned, is the newest. *)
Theorem exit_log_discipline (filename : string) (s s' : state) (b : bool) :
  read_wav filename s = Returns b s' ->
  exists new,
    logcat s' = new ++ logcat s /\
    length (filter is_error new) = (if b then 0 else 1)%nat /\
    match new with
    | newest :: _ =>
        if b then newest = LOGI_loaded (length (pcm_data s')) else is_error newest = true
    | [] => False
    end.
Proof.
  assert (Hpcm : forall header payload width norm n s0 info,
            logcat s0 = info :: logcat s -> is_error info = false ->
            length (pcm_data s0) = n ->
            pcm_cases header payload width norm n s0 = Returns b s' ->
            exists new,
              logcat s' = new ++ logcat s /\
              length (filter is_error new) = (if b then 0 else 1)%nat /\
              match new with
              | newest :: _ =>
                  if b then newest = LOGI_loaded (length (pcm_data s'))
                  else is_error newest = true
              | [] => False
              end).
  { intros header payload width norm n s0 info Hlog Hinfo Hlen. unfold pcm_cases.
    destruct (length payload / width <? n)%nat.
    - intros H. inversion H. subst b s'. exists [LOGE_pcm; info].
      cbn [logcat push_log app filter is_error error_of_log length].
      rewrite Hlog, Hinfo. repeat split.
    - destruct (WavHeader.num_channels header =? 2); intros H; inversion H; subst b s'.
      + exists [LOGI_loaded (n / 2); LOGI_stereo; info].
        cbn [logcat push_log set_pcm_data pcm_data app filter is_error error_of_log length].
        rewrite Hlog, Hinfo, length_downmixed. repeat split.
      + exists [LOGI_loaded n; info].
        cbn [logcat push_log set_pcm_data pcm_data app filter is_error error_of_log length].
        rewrite Hlog, Hinfo, length_map, length_int_samples. repeat split. }
  rewrite read_wav_eq. unfold read_wav_cases.
  destruct (disk s filename) as [bytes | ].
  - cbv zeta. destruct (length bytes <? 44)%nat.
    { intros H. inversion H. exists [LOGE_header]. repeat split. }
    destruct (negb (tags_ok (header_of bytes))).
    { intros H. inversion H. exists [LOGE_format]. repeat split. }
    destruct (WavHeader.bits_per_sample (header_of bytes) / 8 =? 0); [discriminate | ].
    destruct (WavHeader.bits_per_sample (header_of bytes) =? 16).
    { apply Hpcm with (info := LOGI_info (WavHeader.sample_rate (header_of bytes))
                                 (WavHeader.num_channels (header_of bytes))
                                 (WavHeader.bits_per_sample (header_of bytes))
                                 (WavHeader.audio_format (header_of bytes)));
        [reflexivity | reflexivity | apply length_vec_resize]. }
    destruct (WavHeader.bits_per_sample (header_of bytes) =? 32).
    { apply Hpcm with (info := LOGI_info (WavHeader.sample_rate (header_of bytes))
                                 (WavHeader.num_channels (header_of bytes))
                                 (WavHeader.bits_per_sample (header_of bytes))
                                 (WavHeader.audio_format (header_of bytes)));
        [reflexivity | reflexivity | apply length_vec_resize]. }
    intros H. inversion H.
    exists [LOGE_bit_depth (WavHeader.bits_per_sample (header_of bytes));
            LOGI_info (WavHeader.sample_rate (header_of bytes))
              (WavHeader.num_channels (header_of bytes))
              (WavHeader.bits_per_sample (header_of bytes))
              (WavHeader.audio_format (header_of bytes))].
    repeat split.
  - intros H. inversion H. exists [LOGE_open filename]. repeat split.
Qed.

Lemma exit_log_discipline_witness :
  read_wav "stereo.wav" (boot (Some stereo_example)) = Returns true stereo_decoded /\
  exists new,
    logcat stereo_decoded = new ++ logcat (boot (Some stereo_example)) /\
    length (filter is_error new) = 0%nat /\
    match new with
    | newest :: _ => newest = LOGI_loaded (length (pcm_data stereo_decoded))
    | [] => False
    end.
Proof.
  assert (Hr : read_wav "stereo.wav" (boot (Some stereo_example)) = Returns true stereo_decoded)
    by (vm_compute; reflexivity).
  split; [exact Hr | ].
  exact (exit_log_discipline "stereo.wav" _ _ true Hr).
Defined.

(** X2: the channel count is not validated.  A file with matching tags,
    16 or 32 bits per sample and enough payload decodes successfully for
    every channel count; unless the count is exactly 2, the interleaved
    sequence is returned as it is, one output sample per input sample. *)
Theorem channel_count_not_validated (filename : string) (s : state) (bytes : list byte) :
  disk s filename = Some bytes ->
  (44 <= length bytes)%nat ->
  tags_ok (header_of bytes) = true ->
  WavHeader.bits_per_sample (header_of bytes) = 16 \/
  WavHeader.bits_per_sample (header_of bytes) = 32 ->
  (sample_count (header_of bytes)
   <= length (skipn 44 bytes) / Z.to_nat (WavHeader.bits_per_sample (header_of bytes) / 8))%nat ->
  WavHeader.num_channels (header_of bytes) <> 2 ->
  result_of (read_wav filename s)
  = Some (true, to_int (WavHeader.sample_rate (header_of bytes)),
          normalized (header_of bytes) (skipn 44 bytes)) /\
  length (normalized (header_of bytes) (skipn 44 bytes)) = sample_count (header_of bytes).
Proof.
  intros Hdisk Hlen Htags Hbits Hfull Hch.
  destruct (read_wav_true_intro filename s bytes Hdisk Hlen Htags Hbits Hfull)
    as (s' & Hret & Hpcm & Hrate).
  split; [ | apply length_normalized].
  rewrite Hret. cbn [result_of]. rewrite Hpcm, Hrate. unfold decoded.
  destruct (Z.eqb_spec (WavHeader.num_channels (header_of bytes)) 2); [contradiction | ].
  reflexivity.
Qed.

Lemma channel_count_not_validated_witness :
  WavHeader.num_channels (header_of three_channel_example) = 3 /\
  result_of (read_wav "three.wav" (boot (Some three_channel_example)))
  = Some (true, 16000, [F32.pow2 (-1); SFopp (F32.pow2 (-1)); F32.pow2 (-2)]).
Proof.
  split; [reflexivity | ].
  refine (eq_trans (proj1 (channel_count_not_validated "three.wav"
                             (boot (Some three_channel_example)) three_channel_example
                             eq_refl _ eq_refl (or_introl eq_refl) _ _)) _).
  - vm_compute. lia.
  - vm_compute. lia.
  - vm_compute. discriminate.
  - vm_compute. reflexivity.
Defined.

(** X3: a successful call never yields more samples than the payload
    holds: the samples returned, times the channels folded into each,
    times the bytes per sample, fit in the bytes that follow the header. *)
Theorem output_fits_payload (filename : string) (s s' : state) (bytes : list byte) :
  disk s filename = Some bytes ->
  read_wav filename s = Returns true s' ->
  let header := header_of bytes in
  let width := Z.to_nat (WavHeader.bits_per_sample header / 8) in
  let folded := if WavHeader.num_channels header =? 2 then 2%nat else 1%nat in
  (length (pcm_data s') * folded * width <= length bytes - 44)%nat.
Proof.
  intros Hdisk Hret header width folded.
  destruct (read_wav_true_inv filename s s' bytes Hdisk Hret)
    as (Hlen & _ & Hbits & Hfull & _ & _ & Hpcm).
  fold header in Hbits, Hfull, Hpcm. fold width in Hfull.
  rewrite length_skipn in Hfull.
  assert (Hw : (0 < width)%nat).
  { unfold width. destruct Hbits as [E | E]; rewrite E; vm_compute; lia. }
  assert (Hn : (sample_count header * width <= length bytes - 44)%nat).
  { pose proof (Nat.Div0.mul_div_le (length bytes - 44) width) as Hd. nia. }
  assert (Hout : (length (pcm_data s') * folded <= sample_count header)%nat).
  { rewrite Hpcm. unfold folded.
    destruct (WavHeader.num_channels header =? 2).
    - rewrite length_downmixed.
      pose proof (Nat.Div0.mul_div_le (sample_count header) 2). lia.
    - rewrite length_normalized. lia. }
  nia.
Qed.

Lemma output_fits_payload_witness :
  read_wav "stereo.wav" (boot (Some stereo_example)) = Returns true stereo_decoded /\
  (length (pcm_data stereo_decoded) * 2 * 2 <= length stereo_example - 44)%nat.
Proof.
  assert (Hr : read_wav "stereo.wav" (boot (Some stereo_example)) = Returns true stereo_decoded)
    by (vm_compute; reflexivity).
  split; [exact Hr | ].
  exact (output_fits_payload "stereo.wav" (boot (Some stereo_example)) _ stereo_example
           eq_refl Hr).
Defined.

(** X4: a successful decode depends on the file alone.  From any other
    state that holds the same file under the name, whatever the caller's
    vector and rate contain, whatever is logged or open, the call succeeds
    too and returns the same samples and the same rate; in particular a
    second call right after the first repeats its result. *)
Theorem decode_depends_on_file_only (filename : string) (s s' : state) :
  read_wav filename s = Returns true s' ->
  (forall t, disk t filename = disk s filename ->
     exists t', read_wav filename t = Returns true t' /\
       pcm_data t' = pcm_data s' /\ sample_rate t' = sample_rate s') /\
  (exists s'', read_wav filename s' = Returns true s'' /\
     pcm_data s'' = pcm_data s' /\ sample_rate s'' = sample_rate s').
Proof.
  intros Hret.
  assert (Hany : forall t, disk t filename = disk s filename ->
            exists t', read_wav filename t = Returns true t' /\
              pcm_data t' = pcm_data s' /\ sample_rate t' = sample_rate s').
  { intros t Hsame.
    destruct (disk s filename) as [bytes | ] eqn:Hdisk.
    - destruct (read_wav_true_inv filename s s' bytes Hdisk Hret)
        as (Hlen & Htags & Hbits & Hfull & _ & Hrate & Hpcm).
      destruct (read_wav_true_intro filename t bytes Hsame Hlen Htags Hbits Hfull)
        as (t' & Ht & Hp & Hr).
      exists t'. split; [exact Ht | ]. split.
      + rewrite Hp, Hpcm. reflexivity.
      + rewrite Hr, Hrate. reflexivity.
    - rewrite (path_open filename s Hdisk) in Hret. discriminate. }
  split; [exact Hany | ].
  apply Hany. destruct (read_wav_returns_inv filename s s' true Hret) as [_ Hd].
  rewrite Hd. reflexivity.
Qed.

Lemma decode_depends_on_file_only_witness :
  read_wav "stereo.wav" (boot (Some stereo_example)) = Returns true stereo_decoded /\
  exists s'', read_wav "stereo.wav" stereo_decoded = Returns true s'' /\
    pcm_data s'' = pcm_data stereo_decoded /\ sample_rate s'' = sample_rate stereo_decoded.
Proof.
  assert (Hr : read_wav "stereo.wav" (boot (Some stereo_example)) = Returns true stereo_decoded)
    by (vm_compute; reflexivity).
  split; [exact Hr | ].
  exact (proj2 (decode_depends_on_file_only "stereo.wav" _ _ Hr)).
Defined.

Section Prefixes.

Lemma header_of_app (hdr payload : list byte) :
  length hdr = 44%nat -> header_of (hdr ++ payload) = header_of hdr.
Proof.
  intros Hlen. unfold header_of. rewrite firstn_app, Hlen, Nat.sub_diag.
  cbn [firstn]. rewrite app_nil_r. reflexivity.
Qed.

Lemma skipn_header_app (hdr payload : list byte) :
  length hdr = 44%nat -> skipn 44 (hdr ++ payload) = payload.
Proof.
  intros Hlen. rewrite skipn_app, Hlen, Nat.sub_diag.
  rewrite <- Hlen, skipn_all. reflexivity.
Qed.

Lemma prefix_same_count (w n : nat) (p1 p2 : list byte) :
  w <> 0%nat -> firstn (n * w) p1 = firstn (n * w) p2 ->
  (length p1 / w <? n)%nat = (length p2 / w <? n)%nat.
Proof.
  intros Hw Heq.
  assert (Hlen : Nat.min (n * w) (length p1) = Nat.min (n * w) (length p2))
    by (rewrite <- !length_firstn, Heq; reflexivity).
  destruct (Nat.le_gt_cases (n * w) (length p1)) as [Hge | Hlt].
  - assert (Hge2 : (n * w <= length p2)%nat) by lia.
    assert (n <= length p1 / w)%nat by (apply Nat.div_le_lower_bound; lia).
    assert (n <= length p2 / w)%nat by (apply Nat.div_le_lower_bound; lia).
    destruct (Nat.ltb_spec (length p1 / w) n); [lia | ].
    destruct (Nat.ltb_spec (length p2 / w) n); [lia | reflexivity].
  - assert (length p2 = length p1) by lia. congruence.
Qed.

Lemma prefix_same_samples (w n : nat) (p1 p2 : list byte) :
  firstn (n * w) p1 = firstn (n * w) p2 -> int_samples w n p1 = int_samples w n p2.
Proof.
  intros Heq. rewrite <- (int_samples_firstn w n p1), <- (int_samples_firstn w n p2), Heq.
  reflexivity.
Qed.

Lemma pcm_cases_prefix (header : WavHeader.t) (p1 p2 : list byte) (w : nat)
    (norm : Z -> f32) (n : nat) (s1 s2 : state) :
  w <> 0%nat -> firstn (n * w) p1 = firstn (n * w) p2 ->
  pcm_data s1 = pcm_data s2 -> sample_rate s1 = sample_rate s2 ->
  open_files s1 = open_files s2 ->
  observable (pcm_cases header p1 w norm n s1) = observable (pcm_cases header p2 w norm n s2).
Proof.
  intros Hw Heq Hp Hr Ho. unfold pcm_cases.
  rewrite (prefix_same_count w n p1 p2 Hw Heq), (prefix_same_samples w n p1 p2 Heq).
  destruct (length p2 / w <? n)%nat.
  - unfold observable. cbn. rewrite Hp, Hr, Ho. reflexivity.
  - destruct (WavHeader.num_channels header =? 2); unfold observable; cbn;
      rewrite Hr, Ho; reflexivity.
Qed.

Lemma firstn_int_samples (w k n : nat) (p : list byte) :
  (k <= n)%nat -> firstn k (int_samples w n p) = int_samples w k p.
Proof.
  revert n p. induction k as [ | k IH]; intros n p Hk; [reflexivity | ].
  destruct n as [ | n]; [lia | ].
  cbn [int_samples firstn]. f_equal. apply IH. lia.
Qed.

Lemma downmixed_prefix (pcm1 pcm2 : list f32) (n : nat) :
  firstn (2 * (n / 2)) pcm1 = firstn (2 * (n / 2)) pcm2 ->
  downmixed pcm1 n = downmixed pcm2 n.
Proof.
  intros Heq. unfold downmixed. apply map_ext_in. intros i Hi.
  apply in_seq in Hi. unfold vec_get.
  assert (Hnth : forall j, (j < 2 * (n / 2))%nat ->
            nth j pcm1 F32.zero = nth j pcm2 F32.zero).
  { intros j Hj.
    rewrite <- (firstn_skipn (2 * (n / 2)) pcm1), <- (firstn_skipn (2 * (n / 2)) pcm2), Heq.
    destruct (Nat.lt_ge_cases j (length (firstn (2 * (n / 2)) pcm2))) as [Hin | Hout].
    - rewrite !app_nth1 by assumption. reflexivity.
    - assert (Hl1 : length (firstn (2 * (n / 2)) pcm1) = length (firstn (2 * (n / 2)) pcm2))
        by (rewrite Heq; reflexivity).
      rewrite length_firstn in Hout, Hl1. rewrite length_firstn in Hl1.
      rewrite !nth_overflow; [reflexivity | | ].
      + rewrite length_app, length_firstn, length_skipn. lia.
      + rewrite length_app, length_firstn, length_skipn. lia. }
  rewrite !Hnth by lia. reflexivity.
Qed.

End Prefixes.

(** X5: bytes beyond the declared data are never interpreted.  Two files
    with the same 44-byte header whose payloads agree on the first
    [sample_count] samples are treated alike: same return value, same
    samples, same rate, same failure kind. *)
Theorem bytes_beyond_data_ignored (filename : string) (s1 s2 : state)
    (hdr p1 p2 : list byte) :
  length hdr = 44%nat ->
  disk s1 filename = Some (hdr ++ p1) ->
  disk s2 filename = Some (hdr ++ p2) ->
  pcm_data s1 = pcm_data s2 -> sample_rate s1 = sample_rate s2 ->
  open_files s1 = open_files s2 ->
  let declared := (sample_count (header_of hdr)
                   * Z.to_nat (WavHeader.bits_per_sample (header_of hdr) / 8))%nat in
  firstn declared p1 = firstn declared p2 ->
  observable (read_wav filename s1) = observable (read_wav filename s2).
Proof.
  intros Hlen Hd1 Hd2 Hp Hr Ho declared Heq.
  rewrite !read_wav_eq. unfold read_wav_cases. rewrite Hd1, Hd2. cbv zeta.
  rewrite !header_of_app, !skipn_header_app by exact Hlen.
  rewrite !length_app, Hlen.
  destruct (Nat.ltb_spec (44 + length p1) 44); [lia | ].
  destruct (Nat.ltb_spec (44 + length p2) 44); [lia | ].
  assert (Hbp : pcm_data (with_buffer (header_of hdr) s1)
                = pcm_data (with_buffer (header_of hdr) s2))
    by (rewrite !with_buffer_pcm, Hp; reflexivity).
  assert (Hbr : sample_rate (with_buffer (header_of hdr) s1)
                = sample_rate (with_buffer (header_of hdr) s2))
    by (rewrite !with_buffer_rate; reflexivity).
  assert (Hbo : open_files (with_buffer (header_of hdr) s1)
                = open_files (with_buffer (header_of hdr) s2))
    by (rewrite !with_buffer_files; exact Ho).
  destruct (negb (tags_ok (header_of hdr))).
  { unfold observable. cbn. rewrite Hp, Hr, Ho. reflexivity. }
  destruct (WavHeader.bits_per_sample (header_of hdr) / 8 =? 0); [reflexivity | ].
  destruct (Z.eqb_spec (WavHeader.bits_per_sample (header_of hdr)) 16) as [E | _].
  { apply pcm_cases_prefix; try assumption; [discriminate | ].
    unfold declared in Heq. rewrite E in Heq. exact Heq. }
  destruct (Z.eqb_spec (WavHeader.bits_per_sample (header_of hdr)) 32) as [E | _].
  { apply pcm_cases_prefix; try assumption; [discriminate | ].
    unfold declared in Heq. rewrite E in Heq. exact Heq. }
  unfold observable, failure. cbn [logcat push_log error_of_log].
  cbn [pcm_data sample_rate open_files push_log]. rewrite Hbp, Hbr, Hbo. reflexivity.
Qed.

Lemma bytes_beyond_data_ignored_witness :
  observable (read_wav "a.wav" (boot (Some (wav_header 1 16000 16 4 ++ pcm16 [1; 2; 3]))))
  = observable (read_wav "a.wav" (boot (Some (wav_header 1 16000 16 4 ++ pcm16 [1; 2; 9; 9])))).
Proof.
  apply (bytes_beyond_data_ignored "a.wav"
           (boot (Some (wav_header 1 16000 16 4 ++ pcm16 [1; 2; 3])))
           (boot (Some (wav_header 1 16000 16 4 ++ pcm16 [1; 2; 9; 9])))
           (wav_header 1 16000 16 4) (pcm16 [1; 2; 3]) (pcm16 [1; 2; 9; 9]));
    reflexivity.
Defined.

(** X6: with two channels and an odd sample count the last sample has no
    partner and is dropped: two files with the same header that both decode
    and whose payloads agree on the complete left/right pairs give the same
    output. *)
Theorem unpaired_sample_dropped (filename : string) (s1 s2 s1' s2' : state)
    (hdr p1 p2 : list byte) :
  length hdr = 44%nat ->
  disk s1 filename = Some (hdr ++ p1) ->
  disk s2 filename = Some (hdr ++ p2) ->
  WavHeader.num_channels (header_of hdr) = 2 ->
  read_wav filename s1 = Returns true s1' ->
  read_wav filename s2 = Returns true s2' ->
  let paired := (2 * (sample_count (header_of hdr) / 2)
                 * Z.to_nat (WavHeader.bits_per_sample (header_of hdr) / 8))%nat in
  firstn paired p1 = firstn paired p2 ->
  pcm_data s1' = pcm_data s2' /\
  length (pcm_data s1') = (sample_count (header_of hdr) / 2)%nat.
Proof.
  intros Hlen Hd1 Hd2 Hch Hr1 Hr2 paired Heq.
  destruct (read_wav_true_inv filename s1 s1' _ Hd1 Hr1) as (_ & _ & Hbits & _ & _ & _ & Hp1).
  destruct (read_wav_true_inv filename s2 s2' _ Hd2 Hr2) as (_ & _ & _ & _ & _ & _ & Hp2).
  rewrite header_of_app, skipn_header_app in Hp1, Hp2 by exact Hlen.
  rewrite header_of_app in Hbits by exact Hlen.
  rewrite Hch in Hp1, Hp2. cbn [Z.eqb Pos.eqb] in Hp1, Hp2.
  rewrite Hp1, Hp2. split; [ | apply length_downmixed].
  apply downmixed_prefix.
  set (n := sample_count (header_of hdr)) in *.
  assert (Hk : (2 * (n / 2) <= n)%nat) by (apply Nat.Div0.mul_div_le).
  unfold normalized. fold n.
  destruct Hbits as [E | E]; unfold paired in Heq; rewrite E in Heq |- *;
    cbn [Z.eqb Pos.eqb]; rewrite !firstn_map, !firstn_int_samples by exact Hk;
    f_equal; apply prefix_same_samples; exact Heq.
Qed.

Lemma unpaired_sample_dropped_witness :
  exists s1' s2',
    read_wav "odd.wav" (boot (Some (odd_stereo_example 1))) = Returns true s1' /\
    read_wav "odd.wav" (boot (Some (odd_stereo_example 32767))) = Returns true s2' /\
    pcm_data s1' = pcm_data s2' /\ length (pcm_data s1') = 1%nat.
Proof.
  assert (H1 : read_wav "odd.wav" (boot (Some (odd_stereo_example 1)))
               = Returns true
                   (mkState (fun _ => Some (odd_stereo_example 1)) []
                      [LOGI_loaded 1; LOGI_stereo; LOGI_info 16000 2 16 1] [F32.zero] 16000))
    by (vm_compute; reflexivity).
  assert (H2 : read_wav "odd.wav" (boot (Some (odd_stereo_example 32767)))
               = Returns true
                   (mkState (fun _ => Some (odd_stereo_example 32767)) []
                      [LOGI_loaded 1; LOGI_stereo; LOGI_info 16000 2 16 1] [F32.zero] 16000))
    by (vm_compute; reflexivity).
  eexists. eexists. split; [exact H1 | ]. split; [exact H2 | ].
  exact (unpaired_sample_dropped "odd.wav"
           (boot (Some (odd_stereo_example 1))) (boot (Some (odd_stereo_example 32767)))
           _ _ (wav_header 2 16000 16 6) (pcm16 [16384; -16384; 1])
           (pcm16 [16384; -16384; 32767]) eq_refl eq_refl eq_refl eq_refl H1 H2 eq_refl).
Defined.

(** * Files in the canonical layout *)
Section Canonical.

Lemma byte_val_of_Z (z : Z) : byte_val (byte_of_Z z) = z mod 256.
Proof.
  unfold byte_val, byte_of_Z.
  pose proof (Z.mod_pos_bound z 256 ltac:(lia)) as Hm.
  destruct (Byte.of_N (Z.to_N (z mod 256))) as [b | ] eqn:E.
  - apply Byte.to_of_N in E. rewrite E. lia.
  - apply Byte.of_N_None_iff in E. lia.
Qed.

Lemma le_unsigned_le_bytes (n : nat) (z : Z) :
  le_unsigned (le_bytes n z) = z mod 2 ^ (8 * Z.of_nat n).
Proof.
  revert z. induction n as [ | n IH]; intros z; cbn [le_bytes le_unsigned].
  - cbn. rewrite Z.mod_1_r. reflexivity.
  - rewrite byte_val_of_Z, IH, Nat2Z.inj_succ.
    replace (8 * Z.succ (Z.of_nat n)) with (8 + 8 * Z.of_nat n) by lia.
    rewrite Z.pow_add_r by lia. change (2 ^ 8) with 256.
    rewrite Z.rem_mul_r by (try lia; apply Z.pow_nonzero; lia). reflexivity.
Qed.

Lemma length_le_bytes (n : nat) (z : Z) : length (le_bytes n z) = n.
Proof. revert z. induction n; intros; cbn; [reflexivity | rewrite IHn; reflexivity]. Qed.

Lemma le_signed_le_bytes2 (x : Z) :
  - 2 ^ 15 <= x < 2 ^ 15 -> le_signed (le_bytes 2 x) = x.
Proof.
  intros Hx. unfold le_signed. rewrite length_le_bytes, le_unsigned_le_bytes.
  change (8 * Z.of_nat 2) with 16. change (2 ^ (16 - 1)) with 32768.
  change (2 ^ 16) with 65536. change (2 ^ 15) with 32768 in Hx.
  destruct (Z_lt_le_dec x 0) as [Hneg | Hpos].
  - assert (E : x mod 65536 = x + 65536)
      by (symmetry; apply Z.mod_unique with (q := -1); lia).
    rewrite E. destruct (Z.ltb_spec (x + 65536) 32768); lia.
  - rewrite Z.mod_small by lia. destruct (Z.ltb_spec x 32768); lia.
Qed.

Lemma int_samples_pcm16 (xs : list Z) (rest : list byte) :
  Forall (fun x => - 2 ^ 15 <= x < 2 ^ 15) xs ->
  int_samples 2 (length xs) (pcm16 xs ++ rest) = xs.
Proof.
  induction 1 as [ | x xs Hx _ IH]; [reflexivity | ].
  cbn [length int_samples pcm16 flat_map]. fold (pcm16 xs).
  change (le_bytes 2 x) with [byte_of_Z x; byte_of_Z (x / 256)].
  cbn [app firstn skipn].
  change [byte_of_Z x; byte_of_Z (x / 256)] with (le_bytes 2 x).
  rewrite le_signed_le_bytes2 by exact Hx. f_equal. exact IH.
Qed.

Lemma length_pcm16 (xs : list Z) : length (pcm16 xs) = (2 * length xs)%nat.
Proof.
  induction xs as [ | x xs IH]; [reflexivity | ].
  cbn [pcm16 flat_map]. fold (pcm16 xs).
  rewrite length_app, length_le_bytes, IH. cbn [length]. lia.
Qed.

Lemma length_wav_header (channels rate bits size : Z) :
  length (wav_header channels rate bits size) = 44%nat.
Proof. reflexivity. Qed.

Lemma load_wav_header (channels rate bits size : Z) :
  let header := header_of (wav_header channels rate bits size) in
  WavHeader.riff header = RIFF /\ WavHeader.wave header = WAVE /\
  WavHeader.num_channels header = channels mod 2 ^ 16 /\
  WavHeader.sample_rate header = rate mod 2 ^ 32 /\
  WavHeader.bits_per_sample header = bits mod 2 ^ 16 /\
  WavHeader.data_size header = size mod 2 ^ 32.
Proof.
  cbv zeta. unfold header_of.
  rewrite firstn_all2 by (rewrite length_wav_header; lia).
  unfold WavHeader.load.
  cbn [WavHeader.riff WavHeader.wave WavHeader.num_channels WavHeader.sample_rate
       WavHeader.bits_per_sample WavHeader.data_size].
  repeat split.
  - change (slice 22 2 (wav_header channels rate bits size)) with (le_bytes 2 channels).
    apply le_unsigned_le_bytes.
  - change (slice 24 4 (wav_header channels rate bits size)) with (le_bytes 4 rate).
    apply le_unsigned_le_bytes.
  - change (slice 34 2 (wav_header channels rate bits size)) with (le_bytes 2 bits).
    apply le_unsigned_le_bytes.
  - change (slice 40 4 (wav_header channels rate bits size)) with (le_bytes 4 size).
    apply le_unsigned_le_bytes.
Qed.

End Canonical.

(** X7: round trip through the canonical layout.  For every list of
    16-bit integers written little-endian after a canonical header that
    declares 16 bits and their byte count, whatever follows them, the call
    succeeds, returns the header's rate and the list normalized sample by
    sample (averaged in pairs when the header says two channels); with any
    other channel count the value of output sample [i] is exactly
    [x_i / 32768]. *)
Theorem canonical_pcm16_round_trip (filename : string) (s : state)
    (channels rate : Z) (xs : list Z) (rest : list byte) :
  disk s filename
  = Some (wav_header channels rate 16 (2 * Z.of_nat (length xs)) ++ pcm16 xs ++ rest) ->
  0 <= channels < 2 ^ 16 -> 0 <= rate < 2 ^ 32 ->
  2 * Z.of_nat (length xs) < 2 ^ 32 ->
  Forall (fun x => - 2 ^ 15 <= x < 2 ^ 15) xs ->
  exists s', read_wav filename s = Returns true s' /\
    sample_rate s' = to_int rate /\
    pcm_data s' = (if channels =? 2 then downmixed (map norm16 xs) (length xs)
                   else map norm16 xs) /\
    (channels <> 2 ->
       Forall2 (fun f x => (F32.to_Q f == x # 32768)%Q) (pcm_data s') xs).
Proof.
  intros Hdisk Hch Hrate Hsize Hxs.
  set (hdr := wav_header channels rate 16 (2 * Z.of_nat (length xs))) in *.
  set (bytes := hdr ++ pcm16 xs ++ rest) in *.
  assert (Hh : length hdr = 44%nat) by reflexivity.
  assert (Hhead : header_of bytes = header_of hdr) by (apply header_of_app; exact Hh).
  assert (Hpay : skipn 44 bytes = pcm16 xs ++ rest) by (apply skipn_header_app; exact Hh).
  destruct (load_wav_header channels rate 16 (2 * Z.of_nat (length xs)))
    as (Hriff & Hwave & Hc & Hr & Hb & Hd).
  fold hdr in Hriff, Hwave, Hc, Hr, Hb, Hd. rewrite <- Hhead in Hriff, Hwave, Hc, Hr, Hb, Hd.
  rewrite Z.mod_small in Hc, Hr, Hd by lia. change (16 mod 2 ^ 16) with 16 in Hb.
  assert (Hn : sample_count (header_of bytes) = length xs).
  { unfold sample_count. rewrite Hd, Hb. change (16 / 8) with 2.
    rewrite Z.mul_comm, Z.div_mul by lia. apply Nat2Z.id. }
  assert (Htags : tags_ok (header_of bytes) = true).
  { unfold tags_ok. rewrite Hriff, Hwave. reflexivity. }
  assert (Hlen : (44 <= length bytes)%nat).
  { unfold bytes. rewrite length_app, Hh. lia. }
  assert (Hfull : (sample_count (header_of bytes)
                   <= length (skipn 44 bytes)
                      / Z.to_nat (WavHeader.bits_per_sample (header_of bytes) / 8))%nat).
  { rewrite Hn, Hpay, Hb, length_app, length_pcm16. change (Z.to_nat (16 / 8)) with 2%nat.
    apply Nat.div_le_lower_bound; lia. }
  destruct (read_wav_true_intro filename s bytes Hdisk Hlen Htags (or_introl Hb) Hfull)
    as (s' & Hret & Hpcm & Hsr).
  assert (Hnorm : normalized (header_of bytes) (skipn 44 bytes) = map norm16 xs).
  { unfold normalized. rewrite Hb, Hn, Hpay. cbn [Z.eqb Pos.eqb].
    rewrite int_samples_pcm16 by exact Hxs. reflexivity. }
  assert (Hout : pcm_data s' = (if channels =? 2 then downmixed (map norm16 xs) (length xs)
                                else map norm16 xs)).
  { rewrite Hpcm. unfold decoded. rewrite Hc, Hnorm, Hn. reflexivity. }
  exists s'. split; [exact Hret | ]. split; [rewrite Hsr, Hr; reflexivity | ].
  split; [exact Hout | ].
  intros Hne. rewrite Hout.
  destruct (Z.eqb_spec channels 2) as [E | _]; [contradiction | ].
  clear - Hxs. induction Hxs as [ | x xs Hx _ IH]; cbn [map]; constructor.
  - apply norm16_value. exact Hx.
  - exact IH.
Qed.

Lemma canonical_pcm16_round_trip_witness :
  exists s', read_wav "mono.wav"
               (boot (Some (wav_header 1 16000 16 (2 * Z.of_nat (length [16384; -16384]))
                            ++ pcm16 [16384; -16384] ++ []))) = Returns true s' /\
    sample_rate s' = to_int 16000 /\
    pcm_data s' = map norm16 [16384; -16384] /\
    Forall2 (fun f x => (F32.to_Q f == x # 32768)%Q) (pcm_data s') [16384; -16384].
Proof.
  destruct (canonical_pcm16_round_trip "mono.wav"
              (boot (Some (wav_header 1 16000 16 (2 * Z.of_nat (length [16384; -16384]))
                           ++ pcm16 [16384; -16384] ++ [])))
              1 16000 [16384; -16384] [] eq_refl)
    as (s' & Hret & Hsr & Hpcm & Hval).
  - lia.
  - lia.
  - vm_compute. reflexivity.
  - repeat constructor; lia.
  - exists s'. split; [exact Hret | ]. split; [exact Hsr | ]. split; [exact Hpcm | ].
    apply Hval. discriminate.
Defined.

(** * More on the arithmetic of the conversion *)

(** X8: a 32-bit sample with at most 24 significant bits is converted
    without rounding: if [x = c * 2^j] with [|c| < 2^24], the output value
    is exactly [x / 2147483648].  This covers every sample of magnitude
    below 2^24 and 24-bit audio stored in the upper bytes ([j = 8]). *)
Theorem norm32_exact_on_24_bits (c j : Z) :
  Z.abs c < 2 ^ 24 -> 0 <= j <= 31 ->
  (F32.to_Q (norm32 (c * 2 ^ j)) == (c * 2 ^ j) # 2147483648)%Q.
Proof.
  intros Hc Hj. unfold norm32.
  change (F32.of_int (c * 2 ^ j)) with (F32.dyadic (c * 2 ^ j) 0).
  replace 0 with (j - j) at 1 by lia.
  rewrite dyadic_shift by (try lia; apply dyadic_range; lia).
  rewrite div_dyadic by (try lia; apply dyadic_range; lia).
  rewrite to_Q_dyadic by lia.
  assert (H2 : ~ (2 == 0)%Q) by discriminate.
  assert (Hsplit : (2 ^ j == 2 ^ (j - 31) * 2 ^ 31)%Q).
  { rewrite <- (Qpower_plus 2 _ _ H2). replace (j - 31 + 31) with j by lia. reflexivity. }
  assert (Hx : (inject_Z (c * 2 ^ j) == inject_Z c * 2 ^ j)%Q).
  { rewrite inject_Z_mult, (Zpower_Qpower 2 j) by lia. reflexivity. }
  assert (Hmake : ((c * 2 ^ j) # 2147483648 == inject_Z (c * 2 ^ j) * (1 # 2147483648))%Q).
  { unfold Qeq. cbn. lia. }
  rewrite Hmake, Hx, Hsplit.
  assert (Hone : (2 ^ 31 * (1 # 2147483648) == 1)%Q) by reflexivity.
  rewrite <- !Qmult_assoc, Hone. ring.
Qed.

Lemma norm32_exact_on_24_bits_witness :
  (F32.to_Q (norm32 (8388607 * 2 ^ 8)) == (8388607 * 2 ^ 8) # 2147483648)%Q.
Proof.
  apply (norm32_exact_on_24_bits 8388607 8).
  - vm_compute. reflexivity.
  - lia.
Defined.

Section Symmetry.

Lemma add_comm (a b : f32) : F32.add a b = F32.add b a.
Proof.
  unfold F32.add.
  destruct a as [sa | sa | | sa ma ea], b as [sb | sb | | sb mb eb]; cbn [SFadd];
    try reflexivity; try (destruct sa, sb; reflexivity).
  rewrite (Z.min_comm eb ea). f_equal. apply Z.add_comm.
Qed.

Lemma mean_comm (a b : f32) : mean a b = mean b a.
Proof. unfold mean. rewrite add_comm. reflexivity. Qed.

Lemma downmixed_cons2 (l r : f32) (rest : list f32) (n : nat) :
  downmixed (l :: r :: rest) (S (S n)) = mean l r :: downmixed rest n.
Proof.
  unfold downmixed.
  replace (S (S n) / 2)%nat with (S (n / 2))
    by (change (S (S n)) with (1 * 2 + n)%nat; rewrite Nat.div_add_l by lia; reflexivity).
  cbn [seq map]. f_equal.
  rewrite <- seq_shift, map_map. apply map_ext. intros i.
  unfold vec_get. cbn [Nat.mul Nat.add nth]. reflexivity.
Qed.

Lemma downmixed_short (pcm : list f32) (n : nat) :
  (n < 2)%nat -> downmixed pcm n = [].
Proof.
  intros Hn. unfold downmixed. rewrite Nat.div_small by lia. reflexivity.
Qed.

End Symmetry.

(** X9: the mono output does not depend on which channel is left and
    which is right: exchanging the two samples of every pair of the
    interleaved sequence leaves the downmix unchanged. *)
Theorem downmix_ignores_channel_order (pcm : list f32) :
  downmixed (swap_pairs pcm) (length pcm) = downmixed pcm (length pcm).
Proof.
  assert (H : forall k pcm, (length pcm <= k)%nat ->
            downmixed (swap_pairs pcm) (length pcm) = downmixed pcm (length pcm)).
  { induction k as [ | k IH]; intros p Hk.
    - destruct p; [reflexivity | cbn in Hk; lia].
    - destruct p as [ | l [ | r rest]]; try reflexivity.
      cbn [swap_pairs length]. rewrite !downmixed_cons2, mean_comm.
      f_equal.
      apply IH. cbn in Hk. lia. }
  apply (H (length pcm)). lia.
Qed.

(** * The binding layer *)
Section BindingFacts.
Context {W : Whisper}.

Lemma lookup_ctx_head (p : nat) (c : whisper_context) (t : list (nat * whisper_context)) :
  lookup_ctx p ((p, c) :: t) = Some c.
Proof. cbn [lookup_ctx]. rewrite Nat.eqb_refl. reflexivity. Qed.

Lemma remove_ctx_head (p : nat) (c : whisper_context) (t : list (nat * whisper_context)) :
  remove_ctx p ((p, c) :: t) = remove_ctx p t.
Proof. unfold remove_ctx. cbn [filter fst]. rewrite Nat.eqb_refl. reflexivity. Qed.

Lemma string_append_assoc (a b c : string) :
  String.append (String.append a b) c = String.append a (String.append b c).
Proof. induction a as [ | ch a IH]; cbn; [reflexivity | rewrite IH; reflexivity]. Qed.

Lemma string_append_nil (a : string) : String.append a EmptyString = a.
Proof. induction a as [ | ch a IH]; cbn; [reflexivity | rewrite IH; reflexivity]. Qed.

Lemma append_loop (f : nat -> string) (c : nat) :
  forall (i : nat) (acc : string),
    for_loop i c (fun i transcription => String.append transcription (f i)) acc
    = String.append acc (fold_right String.append EmptyString (map f (seq i c))).
Proof.
  induction c as [ | c IH]; intros i acc; cbn [for_loop seq map fold_right].
  - rewrite string_append_nil. reflexivity.
  - rewrite IH, string_append_assoc. reflexivity.
Qed.

Lemma collect_segments_eq (c : whisper_context) (n : Z) :
  collect_segments c n
  = fold_right String.append EmptyString
      (map (fun i => whisper_full_get_segment_text c (Z.of_nat i)) (seq 0 (Z.to_nat n))).
Proof.
  unfold collect_segments.
  rewrite (append_loop (fun i => whisper_full_get_segment_text c (Z.of_nat i))).
  reflexivity.
Qed.

(** [nativeTranscribe] with a model loaded, in closed form. *)
Lemma nativeTranscribe_loaded (audioPath lang : string) (tr : bool) (st : jni_state)
    (p : nat) (c : whisper_context) :
  g_context st = Some p -> lookup_ctx p (contexts st) = Some c ->
  nativeTranscribe audioPath lang tr st =
  match read_wav audioPath (set_sample_rate 0 (set_pcm_data [] (process st))) with
  | Undefined f => JUndefined (InReadWav f)
  | Returns false q =>
      JReturns EmptyString
        (mkJni q (Some p) (contexts st) (pinned st)
           (JNI_read_failed :: JNI_transcribing audioPath lang tr :: jni_log st))
  | Returns true q =>
      let r := whisper_full c (transcribe_params lang tr) (pcm_data q) in
      let heap := (p, snd r) :: remove_ctx p (contexts st) in
      let log := JNI_starting :: JNI_audio_loaded (length (pcm_data q)) (sample_rate q)
                 :: JNI_transcribing audioPath lang tr :: jni_log st in
      if fst r =? 0 then
        let text := collect_segments (snd r) (whisper_full_n_segments (snd r)) in
        JReturns text
          (mkJni q (Some p) heap (pinned st)
             (JNI_final (String.length text)
              :: JNI_complete (whisper_full_n_segments (snd r)) :: log))
      else
        JReturns EmptyString
          (mkJni q (Some p) heap (pinned st) (JNI_failed (fst r) :: log))
  end.
Proof.
  destruct st as [proc g heap pins log]. cbn [g_context contexts process pinned jni_log].
  intros -> Hlook.
  cbv beta iota zeta delta [nativeTranscribe jbind read_g_context GetStringUTFChars JLOG
    jmodify call_read_wav ReleaseStringUTFChars NewStringUTF jret push_jni_log set_pinned
    set_process g_context contexts process pinned jni_log Nat.pred].
  destruct (read_wav audioPath (set_sample_rate 0 (set_pcm_data [] proc))) as [[ | ] q | f];
    cbn [negb]; [ | reflexivity | reflexivity].
  cbv beta iota zeta delta [call_whisper_full read_context set_contexts fst snd
    g_context contexts process pinned jni_log].
  rewrite Hlook.
  destruct (whisper_full c (transcribe_params lang tr) (pcm_data q)) as [r c'].
  cbv beta iota zeta delta [fst snd].
  destruct (r =? 0); cbn [negb];
    cbv beta iota zeta delta [g_context contexts process pinned jni_log Nat.pred].
  - rewrite !lookup_ctx_head. reflexivity.
  - reflexivity.
Qed.

Lemma nativeLoadModel_eq (modelPath : string) (st : jni_state) :
  one_model st ->
  nativeLoadModel modelPath st =
  match whisper_init_from_file (disk (process st)) modelPath with
  | None =>
      JReturns false
        (mkJni (process st) None [] (pinned st)
           (JNI_load_failed :: JNI_loading modelPath :: jni_log st))
  | Some c =>
      JReturns true
        (mkJni (process st) (Some 1%nat) [(1%nat, c)] (pinned st)
           (JNI_model_loaded :: JNI_loading modelPath :: jni_log st))
  end.
Proof.
  destruct st as [proc g heap pins log]. unfold one_model. cbn [g_context contexts].
  intros Hone.
  cbv beta iota zeta delta [nativeLoadModel jbind read_g_context GetStringUTFChars JLOG
    jmodify ReleaseStringUTFChars jret push_jni_log set_pinned write_g_context
    set_g_context call_whisper_free call_whisper_init_from_file set_contexts
    g_context contexts process pinned jni_log Nat.pred].
  destruct g as [p | ].
  - destruct Hone as [c0 ->]. rewrite lookup_ctx_head, remove_ctx_head.
    cbv beta iota zeta delta [remove_ctx filter g_context contexts process pinned jni_log].
    destruct (whisper_init_from_file (disk proc) modelPath); reflexivity.
  - subst heap. cbv beta iota zeta delta [g_context contexts process pinned jni_log].
    destruct (whisper_init_from_file (disk proc) modelPath); reflexivity.
Qed.

Lemma nativeUnloadModel_eq (st : jni_state) :
  one_model st ->
  nativeUnloadModel st =
  JReturns tt
    match g_context st with
    | None => st
    | Some _ => mkJni (process st) None [] (pinned st) (JNI_unloading :: jni_log st)
    end.
Proof.
  destruct st as [proc g heap pins log]. unfold one_model. cbn [g_context contexts].
  intros Hone.
  cbv beta iota zeta delta [nativeUnloadModel jbind read_g_context JLOG jmodify jret
    push_jni_log write_g_context set_g_context call_whisper_free set_contexts
    g_context contexts process pinned jni_log].
  destruct g as [p | ]; [ | reflexivity].
  destruct Hone as [c0 ->]. rewrite lookup_ctx_head, remove_ctx_head. reflexivity.
Qed.

Lemma read_wav_undefined_inv (filename : string) (s : state) (f : fault) :
  read_wav filename s = Undefined f -> f = DivisionByZero.
Proof.
  rewrite read_wav_eq. unfold read_wav_cases.
  destruct (disk s filename) as [bytes | ]; [ | discriminate].
  cbv zeta. destruct (length bytes <? 44)%nat; [discriminate | ].
  destruct (negb (tags_ok (header_of bytes))); [discriminate | ].
  destruct (WavHeader.bits_per_sample (header_of bytes) / 8 =? 0).
  { intros H; inversion H; reflexivity. }
  destruct (WavHeader.bits_per_sample (header_of bytes) =? 16).
  { destruct (pcm_cases_returns (header_of bytes) (skipn 44 bytes) 2 norm16
                (sample_count (header_of bytes)) (with_buffer (header_of bytes) s))
      as (b & s' & -> & _). discriminate. }
  destruct (WavHeader.bits_per_sample (header_of bytes) =? 32).
  { destruct (pcm_cases_returns (header_of bytes) (skipn 44 bytes) 4 norm32
                (sample_count (header_of bytes)) (with_buffer (header_of bytes) s))
      as (b & s' & -> & _). discriminate. }
  discriminate.
Qed.

(** What every call keeps: one live model at most, the pinned strings,
    the open streams and the files. *)
Lemma nativeTranscribe_keeps (audioPath lang : string) (tr : bool) (st : jni_state) :
  one_model st ->
  match nativeTranscribe audioPath lang tr st with
  | JReturns _ st' =>
      one_model st' /\ g_context st' = g_context st /\ pinned st' = pinned st /\
      open_files (process st') = open_files (process st) /\
      disk (process st') = disk (process st)
  | JUndefined f => f = InReadWav DivisionByZero
  end.
Proof.
  intros Hone. pose proof Hone as Hone'. unfold one_model in Hone'.
  destruct (g_context st) as [p | ] eqn:Hg.
  - destruct Hone' as [c Hheap].
    rewrite (nativeTranscribe_loaded audioPath lang tr st p c Hg)
      by (rewrite Hheap; apply lookup_ctx_head).
    destruct (read_wav audioPath (set_sample_rate 0 (set_pcm_data [] (process st))))
      as [[ | ] q | f] eqn:Hread.
    + apply read_wav_returns_inv in Hread. cbn [open_files disk set_sample_rate set_pcm_data] in Hread.
      destruct Hread as [Hfiles Hdisk].
      assert (Hfiles' : open_files q = open_files (process st))
        by (rewrite Hfiles; destruct (process st); reflexivity).
      assert (Hdisk' : disk q = disk (process st))
        by (rewrite Hdisk; destruct (process st); reflexivity).
      cbv zeta. rewrite Hheap, remove_ctx_head.
      destruct (fst (whisper_full c (transcribe_params lang tr) (pcm_data q)) =? 0);
        unfold one_model; cbn [g_context contexts pinned process];
        (repeat split; try assumption; eexists; reflexivity).
    + apply read_wav_returns_inv in Hread.
      destruct Hread as [Hfiles Hdisk].
      assert (Hfiles' : open_files q = open_files (process st))
        by (rewrite Hfiles; destruct (process st); reflexivity).
      assert (Hdisk' : disk q = disk (process st))
        by (rewrite Hdisk; destruct (process st); reflexivity).
      unfold one_model; cbn [g_context contexts pinned process].
      repeat split; try assumption. exists c. exact Hheap.
    + apply read_wav_undefined_inv in Hread. rewrite Hread. reflexivity.
  - destruct st as [proc g heap pins log]. cbn [g_context] in Hg. subst g.
    cbv beta iota zeta delta [nativeTranscribe jbind read_g_context JLOG jmodify jret
      NewStringUTF push_jni_log g_context contexts process pinned jni_log].
    unfold one_model. cbn [g_context contexts pinned process].
    repeat split. exact Hone'.
Qed.

Lemma perform_keeps (c : jni_call) (st : jni_state) :
  one_model st ->
  match perform c st with
  | JReturns _ st' =>
      one_model st' /\ pinned st' = pinned st /\
      open_files (process st') = open_files (process st) /\
      disk (process st') = disk (process st)
  | JUndefined f => f = InReadWav DivisionByZero
  end.
Proof.
  intros Hone. destruct c as [modelPath | audioPath lang tr | | ]; unfold perform.
  - unfold jbind at 1. rewrite (nativeLoadModel_eq modelPath st Hone).
    destruct (whisper_init_from_file (disk (process st)) modelPath);
      unfold jret, one_model; cbn [g_context contexts pinned process];
      repeat split; eexists; reflexivity.
  - unfold jbind at 1.
    pose proof (nativeTranscribe_keeps audioPath lang tr st Hone) as H.
    destruct (nativeTranscribe audioPath lang tr st) as [text st' | f]; [ | exact H].
    unfold jret. destruct H as (H1 & _ & H2 & H3 & H4). repeat split; assumption.
  - rewrite (nativeUnloadModel_eq st Hone).
    destruct (g_context st) eqn:Hg.
    + unfold one_model; cbn [g_context contexts pinned process]. repeat split.
    + repeat split. exact Hone.
  - unfold jbind, nativeIsModelLoaded, read_g_context, jret. repeat split. exact Hone.
Qed.

End BindingFacts.

(** X10: loading replaces the model.  With at most one live context, the
    one the global points to, [nativeLoadModel] always returns, and returns
    true exactly when [whisper_init_from_file] yields a context.  The
    previous context is freed first, so after a failed load no model is
    loaded even if one was loaded before; after a successful load the new
    context is the only live one.  [nativeIsModelLoaded] then answers the
    same boolean, and neither the files nor the pinned strings change. *)
Theorem load_replaces_model {W : Whisper} (modelPath : string) (st : jni_state) :
  one_model st ->
  let found := whisper_init_from_file (disk (process st)) modelPath in
  let answer := match found with Some _ => true | None => false end in
  exists st',
    nativeLoadModel modelPath st = JReturns answer st' /\
    one_model st' /\
    (found = None -> g_context st' = None /\ contexts st' = []) /\
    (forall c, found = Some c -> exists p, g_context st' = Some p /\ contexts st' = [(p, c)]) /\
    nativeIsModelLoaded st' = JReturns answer st' /\
    process st' = process st /\ pinned st' = pinned st.
Proof.
  intros Hone found answer. subst answer found.
  rewrite (nativeLoadModel_eq modelPath st Hone).
  destruct (whisper_init_from_file (disk (process st)) modelPath) as [c | ];
    eexists; (split; [reflexivity | ]); unfold one_model;
    cbn [g_context contexts process pinned].
  - split; [exists c; reflexivity | ].
    split; [discriminate | ].
    split; [intros c' Hc; inversion Hc; subst c'; eexists; split; reflexivity | ].
    repeat split.
  - split; [reflexivity | ].
    split; [intros _; split; reflexivity | ].
    split; [discriminate | ].
    repeat split.
Qed.

Lemma load_replaces_model_witness :
  one_model study_loaded /\
  exists st',
    nativeLoadModel "missing.bin" study_loaded = JReturns false st' /\
    g_context st' = None /\ contexts st' = [].
Proof.
  assert (Hone : one_model study_loaded) by (exists []; reflexivity).
  split; [exact Hone | ].
  destruct (load_replaces_model "missing.bin" study_loaded Hone)
    as (st' & Hrun & _ & Hnone & _).
  exists st'. split; [exact Hrun | exact (Hnone eq_refl)].
Defined.

(** X11: unloading is idempotent.  With at most one live context,
    [nativeUnloadModel] always returns and leaves the global NULL and no
    context live; a second call changes nothing, [nativeIsModelLoaded]
    answers false, and [nativeTranscribe] returns the empty string after
    logging "Model not loaded", without touching the file system state or
    pinning a string. *)
Theorem unload_is_idempotent {W : Whisper} (st : jni_state) :
  one_model st ->
  exists st',
    nativeUnloadModel st = JReturns tt st' /\
    g_context st' = None /\ contexts st' = [] /\
    process st' = process st /\ pinned st' = pinned st /\
    nativeUnloadModel st' = JReturns tt st' /\
    nativeIsModelLoaded st' = JReturns false st' /\
    forall (audioPath lang : string) (tr : bool),
      nativeTranscribe audioPath lang tr st'
      = JReturns EmptyString (push_jni_log JNI_not_loaded st').
Proof.
  intros Hone. rewrite (nativeUnloadModel_eq st Hone).
  unfold one_model in Hone.
  destruct st as [proc g heap pins log]. cbn [g_context contexts process pinned jni_log] in *.
  destruct g as [p | ]; eexists; (split; [reflexivity | ]);
    cbn [g_context contexts process pinned jni_log];
    repeat split; try assumption.
Qed.

Lemma unload_is_idempotent_witness :
  one_model study_loaded /\
  exists st',
    nativeUnloadModel study_loaded = JReturns tt st' /\
    nativeTranscribe "zero.wav" "en" false st'
    = JReturns EmptyString (push_jni_log JNI_not_loaded st').
Proof.
  assert (Hone : one_model study_loaded) by (exists []; reflexivity).
  split; [exact Hone | ].
  destruct (unload_is_idempotent study_loaded Hone)
    as (st' & Hrun & _ & _ & _ & _ & _ & _ & Hno).
  exists st'. split; [exact Hrun | apply Hno].
Defined.

(** X12: every failure of [read_wav] reaches the caller as the same empty
    string.  With a model loaded, whichever of the five failure exits
    [read_wav] takes, [nativeTranscribe] returns "" after logging "Failed to
    read WAV file"; both strings are released, the model is not run (the
    context is untouched), and the failure kind survives only in the
    decoder's log. *)
Theorem read_failure_gives_empty_string {W : Whisper} (audioPath lang : string) (tr : bool)
    (st : jni_state) (p : nat) (e : DecodeError) :
  one_model st -> g_context st = Some p ->
  failure (read_wav audioPath (set_sample_rate 0 (set_pcm_data [] (process st)))) = Some e ->
  exists q,
    nativeTranscribe audioPath lang tr st =
    JReturns EmptyString
      (mkJni q (Some p) (contexts st) (pinned st)
         (JNI_read_failed :: JNI_transcribing audioPath lang tr :: jni_log st)) /\
    failure (Returns false q) = Some e /\
    open_files q = open_files (process st).
Proof.
  intros Hone Hg Hfail. unfold one_model in Hone. rewrite Hg in Hone.
  destruct Hone as [c Hheap].
  rewrite (nativeTranscribe_loaded audioPath lang tr st p c Hg)
    by (rewrite Hheap; apply lookup_ctx_head).
  destruct (read_wav audioPath (set_sample_rate 0 (set_pcm_data [] (process st))))
    as [[ | ] q | f] eqn:Hread; try discriminate Hfail.
  exists q. split; [reflexivity | ]. split; [exact Hfail | ].
  apply read_wav_returns_inv in Hread. destruct Hread as [Hfiles _].
  rewrite Hfiles. destruct (process st); reflexivity.
Qed.

Lemma read_failure_gives_empty_string_witness :
  exists q,
    nativeTranscribe "cut.wav" "en" false study_loaded =
    JReturns EmptyString
      (mkJni q (Some 1%nat) (contexts study_loaded) 0
         [JNI_read_failed; JNI_transcribing "cut.wav" "en" false]) /\
    failure (Returns false q) = Some TruncatedPayloadError /\
    open_files q = [].
Proof.
  assert (Hone : one_model study_loaded) by (exists []; reflexivity).
  assert (Hfail : failure (read_wav "cut.wav"
                    (set_sample_rate 0 (set_pcm_data [] (process study_loaded))))
                  = Some TruncatedPayloadError) by (vm_compute; reflexivity).
  exact (read_failure_gives_empty_string "cut.wav" "en" false study_loaded 1
           TruncatedPayloadError Hone eq_refl Hfail).
Defined.

(** X13: a successful transcription is the in-order concatenation of the
    segments.  With a model loaded and [read_wav] successful,
    [nativeTranscribe] runs [whisper_full] once, on the decoded samples and
    with the parameters of lines 85-101; on status 0 it returns the texts of
    segments 0 .. n_segments - 1 of the resulting context concatenated in
    that order, and on any other status the empty string.  The resulting
    context replaces the old one under the same pointer. *)
Theorem transcription_concatenates_segments {W : Whisper} (audioPath lang : string)
    (tr : bool) (st : jni_state) (p : nat) (c : whisper_context) (q : state) :
  g_context st = Some p -> contexts st = [(p, c)] ->
  read_wav audioPath (set_sample_rate 0 (set_pcm_data [] (process st))) = Returns true q ->
  let r := whisper_full c (transcribe_params lang tr) (pcm_data q) in
  exists st',
    nativeTranscribe audioPath lang tr st
    = JReturns (if fst r =? 0 then segments_text (snd r) else EmptyString) st' /\
    g_context st' = Some p /\ contexts st' = [(p, snd r)] /\
    process st' = q /\ pinned st' = pinned st.
Proof.
  intros Hg Hheap Hread r.
  rewrite (nativeTranscribe_loaded audioPath lang tr st p c Hg)
    by (rewrite Hheap; apply lookup_ctx_head).
  rewrite Hread. cbv zeta. fold r. rewrite Hheap, remove_ctx_head.
  unfold segments_text. rewrite <- collect_segments_eq.
  destruct (fst r =? 0); eexists; (split; [reflexivity | ]);
    cbn [g_context contexts process pinned]; repeat split.
Qed.

Lemma transcription_concatenates_segments_witness :
  exists st',
    nativeTranscribe "a.wav" "" false study_loaded = JReturns "auto:ok"%string st' /\
    process st' = study_a_decoded.
Proof.
  assert (Hread : read_wav "a.wav"
                    (set_sample_rate 0 (set_pcm_data [] (process study_loaded)))
                  = Returns true study_a_decoded) by (vm_compute; reflexivity).
  destruct (transcription_concatenates_segments "a.wav" "" false study_loaded 1 []
              study_a_decoded eq_refl eq_refl Hread)
    as (st' & Hrun & _ & _ & Hproc & _).
  exists st'. split; [exact Hrun | exact Hproc].
Defined.

(** X14: the sample rate is never checked.  What [nativeTranscribe]
    returns, and the context it leaves, depend on the decoded samples
    alone: two recordings that decode to the same samples under different
    sample rates are transcribed alike; the rate is only written to the
    log. *)
Theorem sample_rate_is_not_checked {W : Whisper} (path1 path2 lang : string) (tr : bool)
    (st : jni_state) (p : nat) (q1 q2 : state) :
  one_model st -> g_context st = Some p ->
  read_wav path1 (set_sample_rate 0 (set_pcm_data [] (process st))) = Returns true q1 ->
  read_wav path2 (set_sample_rate 0 (set_pcm_data [] (process st))) = Returns true q2 ->
  pcm_data q1 = pcm_data q2 ->
  exists text st1 st2,
    nativeTranscribe path1 lang tr st = JReturns text st1 /\
    nativeTranscribe path2 lang tr st = JReturns text st2 /\
    contexts st1 = contexts st2.
Proof.
  intros Hone Hg Hread1 Hread2 Hpcm. unfold one_model in Hone. rewrite Hg in Hone.
  destruct Hone as [c Hheap].
  rewrite !(nativeTranscribe_loaded _ lang tr st p c Hg)
    by (rewrite Hheap; apply lookup_ctx_head).
  rewrite Hread1, Hread2. cbv zeta. rewrite Hpcm.
  destruct (fst (whisper_full c (transcribe_params lang tr) (pcm_data q2)) =? 0);
    eexists; eexists; eexists; (split; [reflexivity | split; reflexivity]).
Qed.

Lemma sample_rate_is_not_checked_witness :
  sample_rate study_a_decoded = 16000 /\ sample_rate study_b_decoded = 44100 /\
  exists text st1 st2,
    nativeTranscribe "a.wav" "en" false study_loaded = JReturns text st1 /\
    nativeTranscribe "b.wav" "en" false study_loaded = JReturns text st2 /\
    contexts st1 = contexts st2.
Proof.
  assert (Hone : one_model study_loaded) by (exists []; reflexivity).
  assert (Hread1 : read_wav "a.wav"
                     (set_sample_rate 0 (set_pcm_data [] (process study_loaded)))
                   = Returns true study_a_decoded) by (vm_compute; reflexivity).
  assert (Hread2 : read_wav "b.wav"
                     (set_sample_rate 0 (set_pcm_data [] (process study_loaded)))
                   = Returns true study_b_decoded) by (vm_compute; reflexivity).
  split; [reflexivity | ]. split; [reflexivity | ].
  exact (sample_rate_is_not_checked "a.wav" "b.wav" "en" false study_loaded 1
           study_a_decoded study_b_decoded Hone eq_refl Hread1 Hread2 eq_refl).
Defined.

(** X15: the language handed to whisper is the caller's string, except
    that the empty string becomes "auto"; the comparison with "auto" on
    line 97 changes nothing.  The other parameters do not depend on the
    language, and only [translate] depends on the flag. *)
Theorem language_defaults_to_auto {W : Whisper} (lang : string) (tr : bool) :
  language (transcribe_params lang tr)
  = (if String.eqb lang EmptyString then "auto"%string else lang) /\
  translate (transcribe_params lang tr) = tr /\
  transcribe_params lang tr
  = mkParams whisper_full_default_params false false false false tr 4 0 true false
      (language (transcribe_params lang tr)).
Proof.
  split; [ | split; reflexivity].
  cbn [language transcribe_params]. unfold chosen_language.
  destruct lang as [ | ch rest]; [reflexivity | ].
  change (String.eqb (String ch rest) EmptyString) with false.
  change (0 <? String.length (String ch rest))%nat with true.
  cbn [andb].
  destruct (String.eqb_spec (String ch rest) "auto") as [-> | _]; reflexivity.
Qed.

(** X16: a sequence of calls that returns has misused no resource.  From
    a state with at most one live context, whenever a sequence of the four
    native methods called one after the other returns, it leaves at most
    one live context, as many pinned strings and the same open streams and
    files as before; and no sequence frees or uses a context that is not
    live.  A sequence in which a call ends by an exception does not return
    and is outside the first part. *)
Theorem session_keeps_resources {W : Whisper} (calls : list jni_call) (st : jni_state) :
  one_model st ->
  (forall st', session calls st = JReturns tt st' ->
     one_model st' /\ pinned st' = pinned st /\
     open_files (process st') = open_files (process st) /\
     disk (process st') = disk (process st)) /\
  session calls st <> JUndefined DanglingContext.
Proof.
  revert st. induction calls as [ | c rest IH]; intros st Hone.
  - split; [ | discriminate].
    intros st' H. inversion H. subst st'. repeat split. exact Hone.
  - cbn [session]. unfold jbind.
    pose proof (perform_keeps c st Hone) as Hstep.
    destruct (perform c st) as [[] st1 | f].
    + destruct Hstep as (Hone1 & Hpin & Hfiles & Hdisk).
      destruct (IH st1 Hone1) as [Hret Hlive].
      split; [ | exact Hlive].
      intros st' H. destruct (Hret st' H) as (Hone2 & Hpin2 & Hfiles2 & Hdisk2).
      repeat split; [exact Hone2 | congruence | congruence | congruence].
    + subst f. split; intros; discriminate.
Qed.

Lemma session_keeps_resources_witness :
  one_model (@jni_boot toy_whisper study_process) /\
  exists st',
    session study_session (@jni_boot toy_whisper study_process) = JReturns tt st' /\
    one_model st' /\ pinned st' = 0%nat /\
    open_files (process st') = [] /\
    disk (process st') = study_disk.
Proof.
  assert (Hone : one_model (@jni_boot toy_whisper study_process)) by reflexivity.
  split; [exact Hone | ].
  destruct (session study_session (@jni_boot toy_whisper study_process))
    as [[] st' | f] eqn:Hrun.
  - exists st'. split; [reflexivity | ].
    exact (proj1 (session_keeps_resources study_session
                    (@jni_boot toy_whisper study_process) Hone) st' Hrun).
  - exfalso. vm_compute in Hrun. discriminate Hrun.
Defined.

(** X17: the division by zero of [read_wav] reaches the native method.
    With a model loaded, [nativeTranscribe] has undefined behaviour exactly
    when the audio file exists, holds a full header with matching tags and
    announces fewer than 8 bits per sample; nothing in the binding guards
    the call. *)
Theorem transcribe_undefined_iff {W : Whisper} (audioPath lang : string) (tr : bool)
    (st : jni_state) (p : nat) :
  one_model st -> g_context st = Some p ->
  (nativeTranscribe audioPath lang tr st = JUndefined (InReadWav DivisionByZero)
   <->
   exists bytes,
     disk (process st) audioPath = Some bytes /\ (44 <= length bytes)%nat /\
     tags_ok (header_of bytes) = true /\
     WavHeader.bits_per_sample (header_of bytes) / 8 = 0).
Proof.
  intros Hone Hg. unfold one_model in Hone. rewrite Hg in Hone.
  destruct Hone as [c Hheap].
  rewrite (nativeTranscribe_loaded audioPath lang tr st p c Hg)
    by (rewrite Hheap; apply lookup_ctx_head).
  assert (Hdisk : disk (set_sample_rate 0 (set_pcm_data [] (process st))) = disk (process st))
    by (destruct (process st); reflexivity).
  split.
  - destruct (read_wav audioPath (set_sample_rate 0 (set_pcm_data [] (process st))))
      as [[ | ] q | f] eqn:Hread.
    + cbv zeta.
      destruct (fst (whisper_full c (transcribe_params lang tr) (pcm_data q)) =? 0);
        discriminate.
    + discriminate.
    + intros _. revert Hread. rewrite read_wav_eq. unfold read_wav_cases.
      rewrite Hdisk.
      destruct (disk (process st) audioPath) as [bytes | ]; [ | discriminate].
      cbv zeta.
      destruct (Nat.ltb_spec (length bytes) 44) as [ | Hlen]; [discriminate | ].
      destruct (tags_ok (header_of bytes)) eqn:Htags; [ | discriminate].
      cbn [negb].
      destruct (Z.eqb_spec (WavHeader.bits_per_sample (header_of bytes) / 8) 0)
        as [Hz | Hnz].
      * intros _. exists bytes. repeat split; assumption.
      * destruct (WavHeader.bits_per_sample (header_of bytes) =? 16).
        { destruct (pcm_cases_returns (header_of bytes) (skipn 44 bytes) 2 norm16
                      (sample_count (header_of bytes))
                      (with_buffer (header_of bytes)
                         (set_sample_rate 0 (set_pcm_data [] (process st)))))
            as (b & s' & -> & _). discriminate. }
        destruct (WavHeader.bits_per_sample (header_of bytes) =? 32).
        { destruct (pcm_cases_returns (header_of bytes) (skipn 44 bytes) 4 norm32
                      (sample_count (header_of bytes))
                      (with_buffer (header_of bytes)
                         (set_sample_rate 0 (set_pcm_data [] (process st)))))
            as (b & s' & -> & _). discriminate. }
        discriminate.
  - intros (bytes & Hfile & Hlen & Htags & Hz).
    rewrite <- Hdisk in Hfile.
    rewrite (path_division audioPath _ bytes Hfile Hlen Htags Hz). reflexivity.
Qed.

Lemma transcribe_undefined_iff_witness :
  nativeTranscribe "zero.wav" "en" false study_loaded
  = JUndefined (InReadWav DivisionByZero).
Proof.
  assert (Hone : one_model study_loaded) by (exists []; reflexivity).
  apply (proj2 (transcribe_undefined_iff "zero.wav" "en" false study_loaded 1 Hone eq_refl)).
  exists depth0_example.
  split; [reflexivity | ].
  split; [apply Nat.leb_le; vm_compute; reflexivity | ].
  split; vm_compute; reflexivity.
Defined.
